(** * BFHL service: a shallow embedding of [index.js] and of its sibling variant

    The repository is one small Express application, present in two
    near-identical variants: [src/index.js] (the stricter one) and
    [src/unnamed/part_000] (the lenient one).  Both expose [POST /bfhl],
    which dispatches on a single request key to one of five helpers:
    [fibonacci], [filterPrimes], [lcmOfArray], [hcfOfArray] and
    [getAIResponse].

    The development is organised as follows.

    - [JSNumber]: JavaScript numbers.  A JavaScript number is an IEEE-754
      binary64 value; the model keeps integer-valued doubles as [Int z],
      the other finite doubles as [Frac q], and writes the rounding to 53
      significant bits out explicitly ([round_Z], [round_Q]).  Integer
      arithmetic is exact up to [2^53] and rounded beyond.
    - [JSString]: strings as sequences of UTF-16 code units, with the
      white-space class used by [trim] and by the regular expression [\s].
    - [value]: decoded JSON / JavaScript values.
    - Loops ([while], [for]) run on a step budget and return [None] when
      it runs out, so that non-termination (it occurs: [gcd] on NaN) is
      part of the model.
    - The helper functions and the request handler of [index.js].
    - [Variant]: the helpers and the handler of [part_000] where they
      differ.
    - The vocabulary of the specification, [Binary64] (a check of the
      number model against the kernel's binary64 floats), the middleware
      on [/bfhl], then lemmas and the theorems about both variants. *)

From Stdlib Require Import ZArith QArith Qround Qabs Lia List Bool.
From Stdlib Require Import Ascii Znumtheory.
From Stdlib Require String DecimalString PrimFloat FloatOps SpecFloat.
Import String.StringSyntax.
Delimit Scope string_scope with string.
Import ListNotations.

Local Open Scope Z_scope.

(* ================================================================= *)
(** ** JavaScript numbers *)

Module JSNumber.

(** Finite doubles are split by integrality.  [Int z] is the double whose
    value is the integer [z]; [Frac q] is a finite double whose value [q]
    is not an integer (kept reduced).  The two zeros of IEEE-754 are
    identified: no code path of the service distinguishes them. *)
Inductive number : Type :=
| Int (z : Z)
| Frac (q : Q)
| PInf
| NInf
| NaN.

(** The largest power of two below which every integer is a double. *)
Definition two53 : Z := 2 ^ 53.

(** The first power of two that is not a finite double. *)
Definition two1024 : Z := 2 ^ 1024.

(** Round-half-to-even of the rational [a / d], for [0 <= a] and [0 < d]. *)
Definition rhe_div (a d : Z) : Z :=
  let q := a / d in
  let r := a mod d in
  match 2 * r ?= d with
  | Lt => q
  | Gt => q + 1
  | Eq => if Z.even q then q else q + 1
  end.

Definition inf_of_sign (negative : bool) : number :=
  if negative then NInf else PInf.

(** Rounding of an exact integer result to the nearest double (ties to
    even).  Integers of magnitude at most [2^53] are doubles already; above
    that the 53-bit significand forces the result onto a multiple of
    [2^e], and magnitudes from [2^1024] on overflow to an infinity. *)
Definition round_Z (z : Z) : number :=
  if Z.abs z <=? two53 then Int z
  else
    let e := Z.log2 (Z.abs z) - 52 in
    let m := rhe_div (Z.abs z) (2 ^ e) in
    if two1024 <=? m * 2 ^ e then inf_of_sign (z <? 0)
    else Int (Z.sgn z * (m * 2 ^ e)).

(** [2^e] as a rational, for any integer exponent. *)
Definition pow2Q (e : Z) : Q :=
  if 0 <=? e then inject_Z (2 ^ e) else 1 # Z.to_pos (2 ^ (- e)).

(** Floor of the binary logarithm of a positive rational. *)
Definition floor_log2 (a : Q) : Z :=
  let l := Z.log2 (Qnum a) - Z.log2 (Zpos (Qden a)) in
  if Qle_bool (pow2Q l) a then l else l - 1.

(** A finite rational as a number: [Int] when it is an integer. *)
Definition classify (q : Q) : number :=
  let r := Qred q in
  if (Zpos (Qden r) =? 1) then Int (Qnum r) else Frac r.

(** Round-half-to-even of a non-negative rational to an integer. *)
Definition rhe_Q (s : Q) : Z :=
  let f := Qfloor s in
  match Qcompare (s - inject_Z f) (1 # 2) with
  | Lt => f
  | Gt => f + 1
  | Eq => if Z.even f then f else f + 1
  end.

(** Rounding of an exact rational result to the nearest double: the
    exponent is that of the 53-bit significand, not below the subnormal
    exponent [-1074]. *)
Definition round_Q (q : Q) : number :=
  match Qcompare q 0 with
  | Eq => Int 0
  | c =>
      let a := Qabs q in
      let e := Z.max (floor_log2 a - 52) (-1074) in
      let m := rhe_Q (a * pow2Q (- e)) in
      let v := inject_Z m * pow2Q e in
      if Qle_bool (inject_Z two1024) v
      then inf_of_sign (match c with Lt => true | _ => false end)
      else classify (match c with Lt => - v | _ => v end)
  end%Q.

(** The result of an operation whose exact value is the rational [q]. *)
Definition of_Q (q : Q) : number :=
  let r := Qred q in
  if (Zpos (Qden r) =? 1) then round_Z (Qnum r) else round_Q r.

(** Sign test: [Some true] for negative, [Some false] for positive,
    [None] for zero and NaN. *)
Definition sign (x : number) : option bool :=
  match x with
  | Int z => if z <? 0 then Some true else if 0 <? z then Some false else None
  | Frac q => Some (negb (Qle_bool 0 q))
  | PInf => Some false
  | NInf => Some true
  | NaN => None
  end.

(** The binary operator [+]. *)
Definition add (x y : number) : number :=
  match x, y with
  | NaN, _ | _, NaN => NaN
  | PInf, NInf | NInf, PInf => NaN
  | PInf, _ | _, PInf => PInf
  | NInf, _ | _, NInf => NInf
  | Int a, Int b => round_Z (a + b)
  | Int a, Frac q => of_Q (inject_Z a + q)
  | Frac p, Int b => of_Q (p + inject_Z b)
  | Frac p, Frac q => of_Q (p + q)
  end.

(** Unary minus and the binary operator [-]. *)
Definition opp (x : number) : number :=
  match x with
  | Int z => Int (- z)
  | Frac q => Frac (- q)
  | PInf => NInf
  | NInf => PInf
  | NaN => NaN
  end.

Definition sub (x y : number) : number := add x (opp y).

(** The binary operator [*]. *)
Definition mul (x y : number) : number :=
  match x, y with
  | NaN, _ | _, NaN => NaN
  | Int a, Int b => round_Z (a * b)
  | Int a, Frac q => of_Q (inject_Z a * q)
  | Frac p, Int b => of_Q (p * inject_Z b)
  | Frac p, Frac q => of_Q (p * q)
  | _, _ =>
      match sign x, sign y with
      | Some s, Some t => inf_of_sign (xorb s t)
      | _, _ => NaN
      end
  end.

(** The binary operator [/].  A finite non-zero dividend over zero is an
    infinity of the dividend's sign (the zero being the positive one). *)
Definition div (x y : number) : number :=
  match x, y with
  | NaN, _ | _, NaN => NaN
  | (PInf | NInf), (PInf | NInf) => NaN
  | (PInf | NInf), _ =>
      match sign x, sign y with
      | Some s, Some t => inf_of_sign (xorb s t)
      | Some s, None => inf_of_sign s
      | _, _ => NaN
      end
  | _, (PInf | NInf) => Int 0
  | _, Int 0 =>
      match sign x with
      | Some s => inf_of_sign s
      | None => NaN
      end
  | Int a, Int b =>
      if Z.rem a b =? 0 then round_Z (Z.quot a b)
      else round_Q (Qred (inject_Z a / inject_Z b))
  | Int a, Frac q => of_Q (inject_Z a / q)
  | Frac p, Int b => of_Q (p / inject_Z b)
  | Frac p, Frac q => of_Q (p / q)
  end.

(** Truncation of a rational toward zero. *)
Definition Qtrunc (q : Q) : Z :=
  if Qle_bool 0 q then Qfloor q else Qceiling q.

(** The remainder of the exact division, with the sign of the dividend;
    it is always a double, so nothing is rounded. *)
Definition remQ (p q : Q) : number :=
  classify (p - q * inject_Z (Qtrunc (p / q)))%Q.

(** The binary operator [%]. *)
Definition rem (x y : number) : number :=
  match x, y with
  | NaN, _ | _, NaN => NaN
  | (PInf | NInf), _ => NaN
  | _, (PInf | NInf) => x
  | _, Int 0 => NaN
  | Int a, Int b => Int (Z.rem a b)
  | Int a, Frac q => remQ (inject_Z a) q
  | Frac p, Int b => remQ p (inject_Z b)
  | Frac p, Frac q => remQ p q
  end.

(** [Math.abs] on a number. *)
Definition abs (x : number) : number :=
  match x with
  | Int z => Int (Z.abs z)
  | Frac q => Frac (Qabs q)
  | PInf | NInf => PInf
  | NaN => NaN
  end.

(** The relational operator [<]; every comparison with NaN is false. *)
Definition ltb (x y : number) : bool :=
  match x, y with
  | NaN, _ | _, NaN => false
  | _, NInf => false
  | NInf, _ => true
  | PInf, _ => false
  | _, PInf => true
  | Int a, Int b => a <? b
  | Int a, Frac q => negb (Qle_bool q (inject_Z a))
  | Frac p, Int b => negb (Qle_bool (inject_Z b) p)
  | Frac p, Frac q => negb (Qle_bool q p)
  end.

(** Strict equality [===] of two numbers. *)
Definition eqb (x y : number) : bool :=
  match x, y with
  | Int a, Int b => a =? b
  | Frac p, Frac q => Qeq_bool p q
  | PInf, PInf | NInf, NInf => true
  | _, _ => false
  end.

(** The relational operator [<=]. *)
Definition leb (x y : number) : bool := ltb x y || eqb x y.

(** [x > y] is [y < x] and [x >= y] is [y <= x]. *)
Definition gtb (x y : number) : bool := ltb y x.
Definition geb (x y : number) : bool := leb y x.

(** [Number.isInteger] on a number. *)
Definition isInteger (x : number) : bool :=
  match x with Int _ => true | _ => false end.

End JSNumber.

Import JSNumber.

(* ================================================================= *)
(** ** JavaScript strings *)

Module JSString.

(** A string is its sequence of UTF-16 code units; [length] is the
    JavaScript [.length]. *)
Definition jsstring : Type := list N.

(** String literals of the source, all of them ASCII. *)
Definition lit (s : String.string) : jsstring :=
  map N_of_ascii (String.list_ascii_of_string s).

Arguments lit s%_string.

Fixpoint str_eqb (s t : jsstring) : bool :=
  match s, t with
  | [], [] => true
  | c :: s', d :: t' => N.eqb c d && str_eqb s' t'
  | _, _ => false
  end.

(** The code units matched by [\s] and removed by [trim]: the WhiteSpace
    and LineTerminator productions of ECMAScript. *)
Definition is_white_space (c : N) : bool :=
  ((9 <=? c) && (c <=? 13) || (c =? 32) || (c =? 160) || (c =? 5760)
   || (8192 <=? c) && (c <=? 8202) || (c =? 8232) || (c =? 8233)
   || (c =? 8239) || (c =? 8287) || (c =? 12288) || (c =? 65279))%N.

Fixpoint trim_start (s : jsstring) : jsstring :=
  match s with
  | [] => []
  | c :: s' => if is_white_space c then trim_start s' else s
  end.

(** [String.prototype.trim]. *)
Definition trim (s : jsstring) : jsstring :=
  rev (trim_start (rev (trim_start s))).

(** [s.split(/\s+/)[0]]: the prefix of [s] before its first white space. *)
Fixpoint first_token (s : jsstring) : jsstring :=
  match s with
  | [] => []
  | c :: s' => if is_white_space c then [] else c :: first_token s'
  end.

(** [String.prototype.toLowerCase] on the ASCII letters; the handlers apply
    it to request keys that were found in [validKeys], all ASCII. *)
Definition toLowerCase (s : jsstring) : jsstring :=
  map (fun c => if ((65 <=? c) && (c <=? 90))%N then (c + 32)%N else c) s.

(** [Array.prototype.includes] on an array of strings. *)
Definition includes (l : list jsstring) (s : jsstring) : bool :=
  existsb (str_eqb s) l.

(** The decimal numeral of an array index, as [Object.keys] lists it. *)
Definition index_key (i : nat) : jsstring :=
  lit (DecimalString.NilEmpty.string_of_uint (Nat.to_uint i)).

End JSString.

Import JSString.

(* ================================================================= *)
(** ** JavaScript values *)

(** The values a decoded JSON body is made of, and [undefined]. *)
#[local] Set Warnings "-register-all".
Inductive value : Type :=
| VUndefined
| VNull
| VBool (b : bool)
| VNum (n : number)
| VStr (s : jsstring)
| VArr (elems : list value)
| VObj (fields : list (jsstring * value)).

(** Truthiness, as tested by [!v] and [v || w]. *)
Definition truthy (v : value) : bool :=
  match v with
  | VUndefined | VNull => false
  | VBool b => b
  | VNum (Int 0) | VNum NaN => false
  | VNum _ => true
  | VStr [] => false
  | VStr _ => true
  | VArr _ | VObj _ => true
  end.

(** [typeof v === 'object'] and [typeof v === 'number']; the test
    [typeof v === 'string'] is a match on [VStr]. *)
Definition typeof_object (v : value) : bool :=
  match v with VNull | VArr _ | VObj _ => true | _ => false end.

Definition typeof_number (v : value) : bool :=
  match v with VNum _ => true | _ => false end.

Definition Array_isArray (v : value) : bool :=
  match v with VArr _ => true | _ => false end.

(** [Number.isInteger]: false on everything that is not a number. *)
Definition Number_isInteger (v : value) : bool :=
  match v with VNum x => isInteger x | _ => false end.

(** The number inside a value that passed a [typeof]/[Number.isInteger]
    test; the code never compares anything else in [index.js]. *)
Definition number_of (v : value) : number :=
  match v with VNum x => x | _ => NaN end.

(** [Object.keys]: own enumerable string keys, in order. *)
Definition Object_keys (v : value) : list jsstring :=
  match v with
  | VObj fields => map fst fields
  | VArr elems => map index_key (seq 0 (length elems))
  | VStr s => map index_key (seq 0 (length s))
  | _ => []
  end.

Fixpoint assoc (fields : list (jsstring * value)) (k : jsstring) : value :=
  match fields with
  | [] => VUndefined
  | (k', v) :: rest => if str_eqb k k' then v else assoc rest k
  end.

(** Property read [v[k]], for the operation names the handlers read: an
    own property of an object, [undefined] on anything else. *)
Definition get_prop (v : value) (k : jsstring) : value :=
  match v with
  | VObj fields => assoc fields k
  | _ => VUndefined
  end.

(** The nullish coalescing operator [??]. *)
Definition nullish_or (v w : value) : value :=
  match v with VUndefined | VNull => w | _ => v end.

(** Array element read [a[i]] with a number for index. *)
Definition at_index {A : Type} (l : list A) (i : number) : option A :=
  match i with
  | Int k => if k <? 0 then None else nth_error l (Z.to_nat k)
  | _ => None
  end.

(** [ToNumber] of an array element that may be missing ([undefined]). *)
Definition elem_number (o : option number) : number :=
  match o with Some x => x | None => NaN end.

(* ================================================================= *)
(** ** Loops that may not terminate *)

(** A [while] or [for] loop is a recursive function on a step budget;
    [None] means that the budget ran out.  Theorems about results show
    that some budget, and every larger one, produces them. *)
Definition bind {A B : Type} (c : option A) (k : A -> option B) : option B :=
  match c with
  | Some a => k a
  | None => None
  end.

Notation "x <- c ;; k" := (bind c (fun x => k))
  (at level 61, c at next level, right associativity).

(** [Array.prototype.filter] with a callback that runs a loop. *)
Fixpoint filter_opt {A : Type} (p : A -> option bool) (l : list A)
  : option (list A) :=
  match l with
  | [] => Some []
  | x :: l' =>
      b <- p x ;;
      r <- filter_opt p l' ;;
      Some (if b then x :: r else r)
  end.

(** A [for] loop that folds a step over the remaining elements. *)
Fixpoint fold_opt {A B : Type} (step : A -> B -> option A) (l : list B)
  (acc : A) : option A :=
  match l with
  | [] => Some acc
  | x :: l' => acc' <- step acc x ;; fold_opt step l' acc'
  end.

(* ================================================================= *)
(** ** Helper functions of [index.js] *)

(** An array holds fewer than [2^32] elements: [push] throws a
    [RangeError] when the length would reach [2^32]. *)
Definition two32 : Z := 2 ^ 32.

(** [for (let i = 2; i < n; i++) series.push(series[i-1] + series[i-2])],
    for the [n] below [two32], where no [push] throws; the lemmas on
    [fibonacci] keep to this range (the handlers call it with
    [n <= 1000]). *)
Fixpoint fibonacci_loop (fuel : nat) (i n : number) (series : list number)
  : option (list number) :=
  match fuel with
  | O => None
  | S fuel' =>
      if ltb i n then
        fibonacci_loop fuel' (add i (Int 1)) n
          (series ++ [add (elem_number (at_index series (sub i (Int 1))))
                          (elem_number (at_index series (sub i (Int 2))))])
      else Some series
  end.

(** [fibonacci], lines 19-27. *)
Definition fibonacci (fuel : nat) (n : number) : option (list number) :=
  if leb n (Int 0) then Some []
  else if eqb n (Int 1) then Some [Int 0]
  else fibonacci_loop fuel (Int 2) n [Int 0; Int 1].

(** [for (let i = 3; i * i <= num; i += 2) if (num % i === 0) return false] *)
Fixpoint isPrime_loop (fuel : nat) (i num : number) : option bool :=
  match fuel with
  | O => None
  | S fuel' =>
      if leb (mul i i) num then
        if eqb (rem num i) (Int 0) then Some false
        else isPrime_loop fuel' (add i (Int 2)) num
      else Some true
  end.

(** [isPrime], lines 29-37. *)
Definition isPrime (fuel : nat) (num : number) : option bool :=
  if ltb num (Int 2) then Some false
  else if eqb num (Int 2) then Some true
  else if eqb (rem num (Int 2)) (Int 0) then Some false
  else isPrime_loop fuel (Int 3) num.

(** The callback [(n) => Number.isInteger(n) && n > 0 && isPrime(n)]. *)
Definition prime_callback (fuel : nat) (n : value) : option bool :=
  if Number_isInteger n then
    if gtb (number_of n) (Int 0) then isPrime fuel (number_of n)
    else Some false
  else Some false.

(** [filterPrimes], lines 39-42. *)
Definition filterPrimes (fuel : nat) (arr : value) : option (list value) :=
  match arr with
  | VArr elems => filter_opt (prime_callback fuel) elems
  | _ => Some []
  end.

(** [while (b !== 0) { const t = b; b = a % b; a = t; } return a] *)
Fixpoint gcd_loop (fuel : nat) (a b : number) : option number :=
  match fuel with
  | O => None
  | S fuel' =>
      if negb (eqb b (Int 0)) then gcd_loop fuel' b (rem a b)
      else Some a
  end.

(** [gcd], lines 44-53, on two numbers. *)
Definition gcd (fuel : nat) (a b : number) : option number :=
  gcd_loop fuel (abs a) (abs b).

(** The callback [(n) => Number.isInteger(n) && n > 0]. *)
Definition positive_integer (n : value) : bool :=
  Number_isInteger n && gtb (number_of n) (Int 0).

(** [result = (result * nums[i]) / gcd(result, nums[i])] *)
Definition lcm_step (fuel : nat) (result x : number) : option number :=
  g <- gcd fuel result x ;;
  Some (div (mul result x) g).

(** [lcmOfArray], lines 55-64: [0] on a non-array and when no element
    passes the filter (an empty array included); otherwise the loop over
    [nums[1..]] from [nums[0]]. *)
Definition lcmOfArray (fuel : nat) (arr : value) : option number :=
  match arr with
  | VArr elems =>
      match map number_of (filter positive_integer elems) with
      | [] => Some (Int 0)
      | first :: rest => fold_opt (lcm_step fuel) rest first
      end
  | _ => Some (Int 0)
  end.

(** [hcfOfArray], lines 66-75, with [result = gcd(result, nums[i])] for
    step. *)
Definition hcfOfArray (fuel : nat) (arr : value) : option number :=
  match arr with
  | VArr elems =>
      match map number_of (filter positive_integer elems) with
      | [] => Some (Int 0)
      | first :: rest => fold_opt (gcd fuel) rest first
      end
  | _ => Some (Int 0)
  end.

(* ================================================================= *)
(** ** Configuration, the AI provider and responses *)

(** What one call of [genAI.models.generateContent] can do: throw (a
    transport or provider error, with its message) or resolve to a
    response whose [text] may be missing. *)
Inductive generation : Type :=
| Throws (message : jsstring)
| Responds (text : option jsstring).

(** The process-wide configuration read at start-up.  [genAI] is [None]
    when [GEMINI_API_KEY] is not set; otherwise it is the provider, taken
    as an arbitrary function of the prompt. *)
Record config : Type := {
  OFFICIAL_EMAIL : jsstring;
  genAI : option (jsstring -> generation)
}.

(** An HTTP response: the status given to [res.status] and the object
    given to [res.json], as a list of fields. *)
Record response : Type := {
  status : Z;
  json : list (jsstring * value)
}.

Definition is_undefined (v : value) : bool :=
  match v with VUndefined => true | _ => false end.

(** [res.status(st).json(obj)]: serialisation leaves out the fields whose
    value is [undefined]. *)
Definition res_json (st : Z) (obj : list (jsstring * value)) : response :=
  {| status := st;
     json := filter (fun kv => negb (is_undefined (snd kv))) obj |}.

(** The error object literal written at every failure site. *)
Definition failure (cfg : config) (st : Z) (message : jsstring) : response :=
  res_json st
    [ (lit "is_success", VBool false);
      (lit "official_email", VStr (OFFICIAL_EMAIL cfg));
      (lit "error", VStr message) ].

(** The success object literal. *)
Definition success (cfg : config) (data : value) : response :=
  res_json 200
    [ (lit "is_success", VBool true);
      (lit "official_email", VStr (OFFICIAL_EMAIL cfg));
      (lit "data", data) ].

Definition validKeys : list jsstring :=
  [ lit "fibonacci"; lit "prime"; lit "lcm"; lit "hcf"; lit "AI"; lit "ai" ].

(** [providedKey.toLowerCase() === 'ai' ? 'AI' : providedKey] *)
Definition normalize_key (providedKey : jsstring) : jsstring :=
  if str_eqb (toLowerCase providedKey) (lit "ai") then lit "AI"
  else providedKey.

(** The text of a resolved generation, trimmed, cut to its first word:
    [response?.text?.trim()] then [text.split(/\s+/)[0]], or [null]. *)
Definition first_word (g : generation) : value :=
  match g with
  | Throws _ => VNull
  | Responds None => VNull
  | Responds (Some t) =>
      let text := trim t in
      if truthy (VStr text) then VStr (first_token text) else VNull
  end.

Definition prompt_suffix : jsstring :=
  [10%N; 10%N]
  ++ lit "Respond with only a single word answer. No explanation, no punctuation.".

(** [getAIResponse] of [index.js]; a thrown error is caught and logged,
    and only [null] comes back. *)
Definition getAIResponse (cfg : config) (question : value) : value :=
  match genAI cfg, question with
  | Some generate, VStr q =>
      if negb (truthy question) then VNull
      else first_word (generate (q ++ prompt_suffix))
  | _, _ => VNull
  end.

(* ================================================================= *)
(** ** The handler of [POST /bfhl] in [index.js] *)

Definition exactly_one_message : jsstring :=
  lit "Request must contain exactly one of: fibonacci, prime, lcm, hcf, AI".

(** Lines 129-139: the key that passes the guard
    [!providedKey || keys.length > 1], if any. *)
Definition provided_key (body : value) : option jsstring :=
  let keys := Object_keys body in
  match find (includes validKeys) keys with
  | None => None
  | Some providedKey =>
      if negb (truthy (VStr providedKey)) || (1 <? length keys)%nat
      then None
      else Some providedKey
  end.

Definition case_fibonacci (cfg : config) (fuel : nat) (val : value)
  : option response :=
  if negb (typeof_number val) || negb (Number_isInteger val)
     || ltb (number_of val) (Int 0) || gtb (number_of val) (Int 1000)
  then Some (failure cfg 400
               (lit "fibonacci must be a non-negative integer (0-1000)"))
  else
    series <- fibonacci fuel (number_of val) ;;
    Some (success cfg (VArr (map VNum series))).

Definition case_prime (cfg : config) (fuel : nat) (arr : value)
  : option response :=
  match arr with
  | VArr elems =>
      let nums :=
        filter (fun n => Number_isInteger n && geb (number_of n) (Int 0))
               elems in
      if negb (length nums =? length elems)%nat then
        Some (failure cfg 400 (lit "prime array must contain only integers"))
      else if (100 <? length elems)%nat then
        Some (failure cfg 400 (lit "prime array too large"))
      else
        primes <- filterPrimes fuel arr ;;
        Some (success cfg (VArr primes))
  | _ => Some (failure cfg 400 (lit "prime must be an array of integers"))
  end.

Definition case_lcm (cfg : config) (fuel : nat) (arr : value)
  : option response :=
  match arr with
  | VArr elems =>
      let nums := filter positive_integer elems in
      if negb (length nums =? length elems)%nat then
        Some (failure cfg 400
                (lit "lcm array must contain only positive integers"))
      else if (20 <? length elems)%nat then
        Some (failure cfg 400 (lit "lcm array too large"))
      else
        result <- lcmOfArray fuel arr ;;
        Some (success cfg (VNum result))
  | _ => Some (failure cfg 400 (lit "lcm must be an array of integers"))
  end.

Definition case_hcf (cfg : config) (fuel : nat) (arr : value)
  : option response :=
  match arr with
  | VArr elems =>
      let nums := filter positive_integer elems in
      if negb (length nums =? length elems)%nat then
        Some (failure cfg 400
                (lit "hcf array must contain only positive integers"))
      else if (20 <? length elems)%nat then
        Some (failure cfg 400 (lit "hcf array too large"))
      else
        result <- hcfOfArray fuel arr ;;
        Some (success cfg (VNum result))
  | _ => Some (failure cfg 400 (lit "hcf must be an array of integers"))
  end.

Definition unavailable_message : jsstring :=
  lit "AI service unavailable. Set GEMINI_API_KEY environment variable.".

Definition case_AI (cfg : config) (question : value) : response :=
  match question with
  | VStr q =>
      if (length (trim q) =? 0)%nat then
        failure cfg 400 (lit "AI must receive a non-empty string question")
      else if (500 <? length q)%nat then
        failure cfg 400 (lit "Question too long")
      else
        let answer := getAIResponse cfg (VStr (trim q)) in
        match answer with
        | VNull => failure cfg 503 unavailable_message
        | _ => success cfg answer
        end
  | _ => failure cfg 400 (lit "AI must receive a non-empty string question")
  end.

(** [switch (key)] of lines 144-276. *)
Definition dispatch (cfg : config) (fuel : nat) (body : value)
  (key : jsstring) : option response :=
  if str_eqb key (lit "fibonacci") then
    case_fibonacci cfg fuel (get_prop body key)
  else if str_eqb key (lit "prime") then
    case_prime cfg fuel (get_prop body key)
  else if str_eqb key (lit "lcm") then
    case_lcm cfg fuel (get_prop body key)
  else if str_eqb key (lit "hcf") then
    case_hcf cfg fuel (get_prop body key)
  else if str_eqb key (lit "AI") then
    Some (case_AI cfg
            (nullish_or (get_prop body key) (get_prop body (lit "ai"))))
  else Some (failure cfg 400 (lit "Invalid key")).

(** The whole handler.  Nothing in the [try] block throws on a decoded
    JSON body, so the [catch] branch (HTTP 500) has no counterpart here;
    [None] is a request that is never answered because a loop does not
    terminate. *)
Definition post_bfhl (cfg : config) (fuel : nat) (body : value)
  : option response :=
  if negb (truthy body) || negb (typeof_object body) then
    Some (failure cfg 400 (lit "Invalid request body"))
  else
    match provided_key body with
    | None => Some (failure cfg 400 exactly_one_message)
    | Some providedKey => dispatch cfg fuel body (normalize_key providedKey)
    end.

(* ================================================================= *)
(** ** The variant [part_000] *)

(** [fibonacci], [isPrime], [filterPrimes] and [gcd] have the same text in
    both files.  The variant differs in [lcmOfArray] and [hcfOfArray],
    which fold over the raw array, in the prompt, and in the handler,
    which validates less and reports invalid input by throwing. *)
Module Variant.

(** How an evaluation that terminates ends: with a value, or by throwing
    an [Error] with a message. *)
Inductive completion (A : Type) : Type :=
| Normal (a : A)
| Throw (message : jsstring).

Arguments Normal {A} a.
Arguments Throw {A} message.

(** Sequencing of evaluations that may not terminate ([None]) or may
    throw. *)
Definition and_then {A B : Type} (c : option (completion A))
  (k : A -> option (completion B)) : option (completion B) :=
  match c with
  | None => None
  | Some (Throw message) => Some (Throw message)
  | Some (Normal a) => k a
  end.

Notation "x <~ c ;; k" := (and_then c (fun x => k))
  (at level 61, c at next level, right associativity).

(** A [for] loop that folds a step which may throw over the remaining
    elements. *)
Fixpoint fold_try {A B : Type} (step : A -> B -> option (completion A))
  (l : list B) (acc : A) : option (completion A) :=
  match l with
  | [] => Some (Normal acc)
  | x :: l' => acc' <~ step acc x ;; fold_try step l' acc'
  end.

Section Runtime.

(** The raw fold multiplies and takes remainders of arbitrary JSON values,
    which the language coerces with [ToNumber].  Its clauses for strings
    (numeric-literal parsing) and for arrays and objects ([ToPrimitive],
    which throws a [TypeError] when neither [valueOf] nor [toString] is
    callable) belong to the runtime and are parameters here. *)
Variable StringToNumber : jsstring -> number.
Variable ObjectToNumber : value -> completion number.

Definition ToNumber (v : value) : completion number :=
  match v with
  | VUndefined => Normal NaN
  | VNull => Normal (Int 0)
  | VBool b => Normal (if b then Int 1 else Int 0)
  | VNum x => Normal x
  | VStr s => Normal (StringToNumber s)
  | VArr _ | VObj _ => ObjectToNumber v
  end.

(** [result = (result * arr[i]) / gcd(result, arr[i])]: the product
    coerces both operands, left to right, and [Math.abs] in [gcd] coerces
    them again to the same numbers. *)
Definition lcm_step (fuel : nat) (result x : value)
  : option (completion value) :=
  a <~ Some (ToNumber result) ;;
  b <~ Some (ToNumber x) ;;
  g <~ option_map Normal (gcd fuel a b) ;;
  Some (Normal (VNum (div (mul a b) g))).

Definition lcmOfArray (fuel : nat) (arr : value)
  : option (completion value) :=
  match arr with
  | VArr (first :: rest) => fold_try (lcm_step fuel) rest first
  | _ => Some (Normal (VNum (Int 0)))
  end.

(** [result = gcd(result, arr[i])] *)
Definition hcf_step (fuel : nat) (result x : value)
  : option (completion value) :=
  a <~ Some (ToNumber result) ;;
  b <~ Some (ToNumber x) ;;
  g <~ option_map Normal (gcd fuel a b) ;;
  Some (Normal (VNum g)).

Definition hcfOfArray (fuel : nat) (arr : value)
  : option (completion value) :=
  match arr with
  | VArr (first :: rest) => fold_try (hcf_step fuel) rest first
  | _ => Some (Normal (VNum (Int 0)))
  end.

Definition prompt_suffix : jsstring :=
  [10%N] ++ lit "Respond with only ONE WORD. No punctuation.".

Definition getAIResponse (cfg : config) (question : value) : value :=
  match genAI cfg, question with
  | Some generate, VStr q =>
      if negb (truthy question) then VNull
      else first_word (generate (q ++ prompt_suffix))
  | _, _ => VNull
  end.

(** Lines 143-154: the key that passes the guard
    [!providedKey || keys.length !== 1], if any. *)
Definition provided_key (body : value) : option jsstring :=
  let keys := Object_keys (if truthy body then body else VObj []) in
  match find (includes validKeys) keys with
  | None => None
  | Some providedKey =>
      if negb (truthy (VStr providedKey)) || negb (length keys =? 1)%nat
      then None
      else Some providedKey
  end.

(** [switch (key)] of lines 159-190 followed by the success response: the
    [try] block, which ends with the response it sent or with the error
    it threw. *)
Definition dispatch (cfg : config) (fuel : nat) (body : value)
  (key : jsstring) : option (completion response) :=
  let arg := get_prop body key in
  if str_eqb key (lit "fibonacci") then
    if negb (Number_isInteger arg) || ltb (number_of arg) (Int 0)
       || gtb (number_of arg) (Int 1000)
    then Some (Throw (lit "Invalid fibonacci input"))
    else
      series <~ option_map Normal (fibonacci fuel (number_of arg)) ;;
      Some (Normal (success cfg (VArr (map VNum series))))
  else if str_eqb key (lit "prime") then
    if negb (Array_isArray arg) then Some (Throw (lit "Prime must be array"))
    else
      primes <~ option_map Normal (filterPrimes fuel arg) ;;
      Some (Normal (success cfg (VArr primes)))
  else if str_eqb key (lit "lcm") then
    data <~ lcmOfArray fuel arg ;;
    Some (Normal (success cfg data))
  else if str_eqb key (lit "hcf") then
    data <~ hcfOfArray fuel arg ;;
    Some (Normal (success cfg data))
  else if str_eqb key (lit "AI") then
    let answer := getAIResponse cfg arg in
    if negb (truthy answer) then
      Some (Normal (failure cfg 503 (lit "AI service unavailable")))
    else Some (Normal (success cfg answer))
  else Some (Normal (success cfg VUndefined)).

(** The whole handler; the [catch] branch answers 400 with the message of
    the error. *)
Definition post_bfhl (cfg : config) (fuel : nat) (body : value)
  : option response :=
  match provided_key body with
  | None => Some (failure cfg 400 exactly_one_message)
  | Some providedKey =>
      match dispatch cfg fuel body (normalize_key providedKey) with
      | None => None
      | Some (Normal r) => Some r
      | Some (Throw message) => Some (failure cfg 400 message)
      end
  end.

End Runtime.

End Variant.

(* ================================================================= *)
(** ** Vocabulary of the specification *)

(** A JSON array of integers. *)
Definition int_value (z : Z) : value := VNum (Int z).

Definition ints (zs : list Z) : value := VArr (map int_value zs).

(** The integers that are doubles: a significand below [2^53] times a
    power of two. *)
Definition double_integer (z : Z) : Prop :=
  exists m e : Z, z = m * 2 ^ e /\ Z.abs m < two53 /\ 0 <= e <= 971.

(** Every product [result * nums[i]] formed by the fold of [lcmOfArray]
    from the running value [r] stays at or below [2^53], where integer
    arithmetic on doubles is exact. *)
Fixpoint products_within (r : Z) (zs : list Z) : Prop :=
  match zs with
  | [] => True
  | z :: rest => r * z <= two53 /\ products_within (Z.lcm r z) rest
  end.

Definition safe_products (zs : list Z) : Prop :=
  match zs with
  | [] => True
  | z :: rest => products_within z rest
  end.

(** A prime: at least 2, with no positive divisor other than 1 and
    itself. *)
Definition is_prime (p : Z) : Prop :=
  2 <= p /\ forall d : Z, 0 < d -> (d | p) -> d = 1 \/ d = p.

(** A JSON value that is a prime integer. *)
Definition prime_value (v : value) : Prop :=
  exists p : Z, v = int_value p /\ is_prime p.

(** [Subseq r l]: [r] is [l] with some elements left out, the order kept. *)
Inductive Subseq {A : Type} : list A -> list A -> Prop :=
| Subseq_nil : Subseq [] []
| Subseq_keep (x : A) (r l : list A) : Subseq r l -> Subseq (x :: r) (x :: l)
| Subseq_drop (x : A) (r l : list A) : Subseq r l -> Subseq r (x :: l).

(** [Filtered P l r]: [r] keeps, in order, exactly the occurrences in [l]
    of the elements that satisfy [P]. *)
Inductive Filtered {A : Type} (P : A -> Prop) : list A -> list A -> Prop :=
| Filtered_nil : Filtered P [] []
| Filtered_keep (x : A) (l r : list A) :
    P x -> Filtered P l r -> Filtered P (x :: l) (x :: r)
| Filtered_drop (x : A) (l r : list A) :
    ~ P x -> Filtered P l r -> Filtered P (x :: l) r.

(** A string made of white space only (the empty string included). *)
Definition blank (s : jsstring) : bool := forallb is_white_space s.

(** The requests with exactly one recognised key, by operation; [AI]
    records whether the key was spelled [ai]. *)
Inductive operation : Type :=
| OpFibonacci (n : Z)
| OpPrime (zs : list Z)
| OpLcm (zs : list Z)
| OpHcf (zs : list Z)
| OpAI (lowercase : bool) (question : jsstring).

Definition request_body (op : operation) : value :=
  match op with
  | OpFibonacci n => VObj [(lit "fibonacci", int_value n)]
  | OpPrime zs => VObj [(lit "prime", ints zs)]
  | OpLcm zs => VObj [(lit "lcm", ints zs)]
  | OpHcf zs => VObj [(lit "hcf", ints zs)]
  | OpAI lowercase q =>
      VObj [(if lowercase then lit "ai" else lit "AI", VStr q)]
  end.

(** The per-key constraints of the data model, as [index.js] enforces
    them; the integers of a payload are JSON numbers, hence doubles. *)
Definition valid_payload (op : operation) : Prop :=
  match op with
  | OpFibonacci n => 0 <= n <= 1000
  | OpPrime zs =>
      Forall (fun z => 0 <= z /\ double_integer z) zs
      /\ (length zs <= 100)%nat
  | OpLcm zs | OpHcf zs =>
      Forall (fun z => 0 < z) zs /\ (length zs <= 20)%nat
  | OpAI _ q => blank q = false /\ (length q <= 500)%nat
  end.

(** The provider is configured and answers the question with some text
    that is not blank. *)
Definition ai_answers (cfg : config) (question : jsstring) : Prop :=
  exists (generate : jsstring -> generation) (t : jsstring),
    genAI cfg = Some generate
    /\ generate (question ++ prompt_suffix) = Responds (Some t)
    /\ blank t = false.

(** No credential is configured, or the call throws, or the response has
    no text, or its text is blank. *)
Definition ai_unavailable (cfg : config) (question : jsstring) : Prop :=
  match genAI cfg with
  | None => True
  | Some generate =>
      match generate (question ++ prompt_suffix) with
      | Throws _ => True
      | Responds None => True
      | Responds (Some t) => blank t = true
      end
  end.

(** What a valid request additionally needs for a success response:
    [lcmOfArray] returns, that is, the loop of [gcd] ends at every step
    of its fold (it does not end on [Infinity]); and the provider
    answers. *)
Definition served (cfg : config) (op : operation) : Prop :=
  match op with
  | OpLcm zs =>
      exists (fuel : nat) (result : number),
        lcmOfArray fuel (ints zs) = Some result
  | OpAI _ q => ai_answers cfg (trim q)
  | _ => True
  end.

(** Fields of a response. *)
Definition field (r : response) (k : jsstring) : value := assoc (json r) k.

Definition has_field (r : response) (k : jsstring) : bool :=
  existsb (fun kv => str_eqb (fst kv) k) (json r).

(** The response envelope: [is_success] and [official_email] are there,
    and exactly one of [data] and [error], according to [is_success];
    [error] is a string. *)
Definition envelope (cfg : config) (r : response) : Prop :=
  field r (lit "official_email") = VStr (OFFICIAL_EMAIL cfg)
  /\ ((field r (lit "is_success") = VBool true
       /\ has_field r (lit "data") = true
       /\ has_field r (lit "error") = false)
      \/ (field r (lit "is_success") = VBool false
          /\ has_field r (lit "data") = false
          /\ has_field r (lit "error") = true
          /\ exists message : jsstring,
               field r (lit "error") = VStr message)).

(** A decoded JSON document: [undefined] occurs nowhere in it. *)
Fixpoint is_json (v : value) : bool :=
  match v with
  | VUndefined => false
  | VArr elems => forallb is_json elems
  | VObj fields => forallb (fun kv => is_json (snd kv)) fields
  | _ => true
  end.

(** The two object literals the handlers ever send: a success with a
    defined [data], or a failure with a message. *)
Inductive well_shaped (cfg : config) : response -> Prop :=
| shaped_success (data : value) :
    is_undefined data = false -> well_shaped cfg (success cfg data)
| shaped_failure (st : Z) (message : jsstring) :
    well_shaped cfg (failure cfg st message).

(** The left folds of the pairwise least common multiple and greatest
    common divisor over a list of integers; [0] on the empty list. *)
Definition lcm_list (zs : list Z) : Z :=
  match zs with
  | [] => 0
  | z :: rest => fold_left Z.lcm rest z
  end.

Definition hcf_list (zs : list Z) : Z :=
  match zs with
  | [] => 0
  | z :: rest => fold_left Z.gcd rest z
  end.

(** The configuration of a process started without [OFFICIAL_EMAIL] and
    without [GEMINI_API_KEY]. *)
Definition no_credential : config :=
  {| OFFICIAL_EMAIL := lit "your.email@chitkara.edu.in"; genAI := None |}.

(** A provider that fails every call with a message of its own. *)
Definition failing_provider : config :=
  {| OFFICIAL_EMAIL := lit "your.email@chitkara.edu.in";
     genAI := Some (fun _ => Throws (lit "429 quota exceeded for key AIza")) |}.

(** A non-empty question of 501 characters. *)
Definition long_question : jsstring := repeat 97%N 501.

(** The double nearest to [10^308], an integer. *)
Definition near_1e308 : Z :=
  Eval vm_compute in
    match round_Z (10 ^ 308) with Int z => z | _ => 0 end.

(** A runtime whose coercions of strings and objects give NaN; the
    examples below only coerce numbers. *)
Definition no_coercion_s (s : jsstring) : number := NaN.
Definition no_coercion_o (v : value) : Variant.completion number :=
  Variant.Normal NaN.

(** A runtime in which coercing an object throws, as [ToPrimitive] does
    on [{"valueOf": 1, "toString": 1}]. *)
Definition throwing_coercion_o (v : value) : Variant.completion number :=
  Variant.Throw (lit "Cannot convert object to primitive value").

(** The first [n] Fibonacci numbers, computed on integers. *)
Fixpoint fib_pairs (n : nat) (a b : Z) : list Z :=
  match n with
  | O => []
  | S n' => a :: fib_pairs n' b (a + b)
  end.

Definition first_fibonacci (n : nat) : list Z := fib_pairs n 0 1.

(* ================================================================= *)
(** ** Checking the number model against binary64 *)

(** The kernel's primitive floats are IEEE-754 binary64, the number type
    of JavaScript.  The functions below convert between them and
    [number], so that the operations of [JSNumber] can be compared with
    the primitive ones on sample values. *)
Module Binary64.

Definition of_float (f : PrimFloat.float) : number :=
  match FloatOps.Prim2SF f with
  | SpecFloat.S754_zero _ => Int 0
  | SpecFloat.S754_infinity s => inf_of_sign s
  | SpecFloat.S754_nan => NaN
  | SpecFloat.S754_finite s m e =>
      classify ((if s then - inject_Z (Zpos m) else inject_Z (Zpos m))
                * pow2Q e)%Q
  end.

(** The double of value [m * 2^e], for a significand of at most 53 bits. *)
Definition float_of_pair (me : Z * Z) : PrimFloat.float :=
  FloatOps.SF2Prim (SpecFloat.binary_normalize 53 1024 (fst me) (snd me) false).

Definition same (x y : number) : bool :=
  match x, y with
  | Int a, Int b => a =? b
  | Frac p, Frac q =>
      (Qnum p =? Qnum q) && (Zpos (Qden p) =? Zpos (Qden q))
  | PInf, PInf | NInf, NInf | NaN, NaN => true
  | _, _ => false
  end.

(** Zero, small integers, a fraction, the double nearest to [0.1], the
    integers around [2^53], the largest double, the double nearest to
    [10^308], two subnormal doubles and the three special values. *)
Definition samples : list PrimFloat.float :=
  map float_of_pair
    [ (0, 0); (1, 0); (3, 0); (10, 0); (-7, 0); (5, -1);
      (7205759403792794, -56); (201326593, 0);
      (9007199254740989, 0); (9007199254740991, 0); (1, 53);
      (4503599627370497, 1); (9007199254740991, 971);
      (5010420900022432, 971); (1, -1074); (8127, -1074) ]
  ++ [PrimFloat.infinity; PrimFloat.neg_infinity; PrimFloat.nan].

Definition agree (a b : PrimFloat.float) : bool :=
  same (add (of_float a) (of_float b)) (of_float (PrimFloat.add a b))
  && same (sub (of_float a) (of_float b)) (of_float (PrimFloat.sub a b))
  && same (mul (of_float a) (of_float b)) (of_float (PrimFloat.mul a b))
  && same (div (of_float a) (of_float b)) (of_float (PrimFloat.div a b))
  && same (abs (of_float a)) (of_float (PrimFloat.abs a))
  && Bool.eqb (ltb (of_float a) (of_float b)) (PrimFloat.ltb a b)
  && Bool.eqb (leb (of_float a) (of_float b)) (PrimFloat.leb a b)
  && Bool.eqb (eqb (of_float a) (of_float b)) (PrimFloat.eqb a b).

End Binary64.

(* ================================================================= *)
(** ** The other routes and the middleware *)

(** [s.startsWith(prefix)] and [String.prototype.includes] on strings. *)
Fixpoint starts_with (s prefix : jsstring) : bool :=
  match prefix, s with
  | [], _ => true
  | _ :: _, [] => false
  | d :: prefix', c :: s' => N.eqb c d && starts_with s' prefix'
  end.

Fixpoint str_includes (s sub : jsstring) : bool :=
  starts_with s sub
  || match s with
     | [] => false
     | _ :: s' => str_includes s' sub
     end.

(** The middleware mounted on [/bfhl] (lines 98-107 of [index.js], the
    same in [part_000]), as a function of [req.method] and of
    [req.headers['content-type']] ([None] when the header is missing):
    the response it sends, or [None] when it calls [next()]. *)
Definition content_type_guard (cfg : config) (method : jsstring)
  (content_type : option jsstring) : option response :=
  match content_type with
  | Some ct =>
      if str_eqb method (lit "POST") && truthy (VStr ct)
         && negb (str_includes ct (lit "application/json"))
      then Some (failure cfg 400 (lit "Content-Type must be application/json"))
      else None
  | None => None
  end.

(* ================================================================= *)
(** ** More vocabulary *)

(** The strictly positive integers among the elements of an array, in
    order. *)
Fixpoint positive_integers (elems : list value) : list Z :=
  match elems with
  | [] => []
  | VNum (Int z) :: rest =>
      if 0 <? z then z :: positive_integers rest else positive_integers rest
  | _ :: rest => positive_integers rest
  end.

(** A number that is not a finite double. *)
Definition not_finite (x : number) : Prop := x = NaN \/ x = PInf \/ x = NInf.

(** A success, or a failure with status 400. *)
Definition plain_answer (cfg : config) (r : response) : Prop :=
  (exists data : value, r = success cfg data)
  \/ (exists message : jsstring, r = failure cfg 400 message).

(** [sub] occurs in [s]. *)
Definition occurs_in (sub s : jsstring) : Prop :=
  exists pre post : jsstring, s = pre ++ sub ++ post.

(** The requests the middleware stops: a POST whose [Content-Type] header
    is present, not empty, and does not contain [application/json]. *)
Definition stopped_by_guard (method : jsstring)
  (content_type : option jsstring) : Prop :=
  method = lit "POST"
  /\ exists ct : jsstring,
       content_type = Some ct /\ ct <> []
       /\ ~ occurs_in (lit "application/json") ct.

(** A provider that answers every prompt with a sentence. *)
Definition talkative_provider : config :=
  {| OFFICIAL_EMAIL := lit "your.email@chitkara.edu.in";
     genAI :=
       Some (fun _ => Responds (Some (lit "  Mumbai is the capital. "))) |}.

(** A non-negative integer entry, and a sequence whose consecutive entries
    satisfy [x <= y]. *)
Definition natural_entry (x : number) : bool :=
  match x with Int z => 0 <=? z | _ => false end.

Fixpoint nondecreasing (l : list number) : bool :=
  match l with
  | [] => true
  | x :: t =>
      match t with
      | [] => true
      | y :: _ => leb x y
      end && nondecreasing t
  end.

(** The integer an entry holds ([-1] when it is not an integer). *)
Definition entry_value (x : number) : Z :=
  match x with Int z => z | _ => -1 end.

(** Entry [i] of a sequence of integers is the double nearest to the sum
    of the two entries before it, hence within a relative [2^-53] of the
    sum, and it is the sum itself when [i <= exact]. *)
Definition rounded_sum_at (exact : nat) (f : list Z) (i : nat) : bool :=
  let sum := nth (i - 1) f 0 + nth (i - 2) f 0 in
  match round_Z sum with Int z => z =? nth i f 0 | _ => false end
  && (two53 * Z.abs (nth i f 0 - sum) <=? sum)
  && ((exact <? i)%nat || (nth i f 0 =? sum)).

(** The checks of a whole sequence: integers only, the first two entries,
    and the rounded recurrence at every later index. *)
Definition rounded_fibonacci (exact : nat) (l : list number) : bool :=
  let f := map entry_value l in
  forallb isInteger l
  && (nth 0 f (-1) =? 0) && (nth 1 f (-1) =? 1)
  && forallb (rounded_sum_at exact f) (seq 2 (length l - 2)).


(* ================================================================= *)
(** ** Lemmas on numbers, loops and folds *)

Lemma rem_Int (a b : Z) : b <> 0 -> rem (Int a) (Int b) = Int (Z.rem a b).
Proof. destruct b; [congruence | reflexivity | reflexivity]. Qed.

Lemma eqb_Int (a b : Z) : eqb (Int a) (Int b) = (a =? b).
Proof. reflexivity. Qed.

Lemma round_Z_safe (z : Z) : Z.abs z <= two53 -> round_Z z = Int z.
Proof.
  intros H. unfold round_Z.
  destruct (Z.leb_spec (Z.abs z) two53); [reflexivity | lia].
Qed.

Lemma gcd_loop_Int (fuel : nat) :
  forall a b : Z,
    0 <= a -> 0 <= b -> b < Z.of_nat fuel ->
    gcd_loop fuel (Int a) (Int b) = Some (Int (Z.gcd a b)).
Proof.
  induction fuel as [| fuel IH]; intros a b Ha Hb Hfuel; [lia |].
  cbn [gcd_loop]. rewrite eqb_Int.
  destruct (Z.eqb_spec b 0) as [-> | Hnz]; cbn [negb].
  - rewrite Z.gcd_0_r, Z.abs_eq by assumption. reflexivity.
  - rewrite rem_Int by assumption.
    rewrite Z.rem_mod_nonneg by lia.
    pose proof (Z.mod_pos_bound a b ltac:(lia)) as Hmod.
    rewrite IH by lia.
    rewrite Z.gcd_comm, Z.gcd_mod by assumption.
    rewrite Z.gcd_comm. reflexivity.
Qed.

Lemma gcd_Int (fuel : nat) (a b : Z) :
  Z.abs b < Z.of_nat fuel ->
  gcd fuel (Int a) (Int b) = Some (Int (Z.gcd a b)).
Proof.
  intros H. unfold gcd. cbn [abs].
  rewrite gcd_loop_Int by lia.
  rewrite Z.gcd_abs_l, Z.gcd_abs_r. reflexivity.
Qed.

Lemma div_Int_exact (a b : Z) :
  b <> 0 -> Z.rem a b = 0 -> div (Int a) (Int b) = round_Z (Z.quot a b).
Proof.
  intros Hb Hrem. destruct b; [congruence | |]; cbn [div]; rewrite Hrem;
    reflexivity.
Qed.

Lemma positive_integer_int (z : Z) : positive_integer (int_value z) = (0 <? z).
Proof. reflexivity. Qed.

(** *** The fold of [hcfOfArray] *)

Lemma hcf_fold_Int (fuel : nat) (rest : list Z) :
  forall first : Z,
    Forall (fun z => Z.abs z < Z.of_nat fuel) rest ->
    fold_opt (gcd fuel) (map Int rest) (Int first)
    = Some (Int (fold_left Z.gcd rest first)).
Proof.
  induction rest as [| z rest IH]; intros first Hfuel; [reflexivity |].
  inversion Hfuel as [| ? ? Hz Hrest]; subst.
  cbn [map fold_opt fold_left]. rewrite gcd_Int by assumption.
  cbn [bind]. now apply IH.
Qed.

Lemma fold_gcd_divide_all (rest : list Z) :
  forall first : Z,
    Forall (fun z => (fold_left Z.gcd rest first | z)) (first :: rest).
Proof.
  induction rest as [| z rest IH]; intros first; cbn [fold_left].
  - constructor; [apply Z.divide_refl | constructor].
  - specialize (IH (Z.gcd first z)).
    inversion IH as [| ? ? Hacc Hrest]; subst.
    constructor; [| constructor]; try assumption.
    + eapply Z.divide_trans; [exact Hacc | apply Z.gcd_divide_l].
    + eapply Z.divide_trans; [exact Hacc | apply Z.gcd_divide_r].
Qed.

Lemma fold_gcd_pos (rest : list Z) :
  forall first : Z, 0 < first -> 0 < fold_left Z.gcd rest first.
Proof.
  induction rest as [| z rest IH]; intros first Hpos; cbn [fold_left];
    [assumption |].
  apply IH. pose proof (Z.gcd_nonneg first z).
  destruct (Z.eq_dec (Z.gcd first z) 0) as [E | E]; [| lia].
  apply Z.gcd_eq_0_l in E. lia.
Qed.

(** A budget that covers every call of [gcd] on elements of [zs]. *)
Lemma enough_fuel (zs : list Z) :
  exists f0 : nat, forall fuel : nat,
    (f0 <= fuel)%nat -> Forall (fun z => Z.abs z < Z.of_nat fuel) zs.
Proof.
  induction zs as [| z zs [f0 IH]].
  - exists O. constructor.
  - exists (Nat.max f0 (S (Z.to_nat (Z.abs z)))). intros fuel Hfuel.
    constructor; [lia | apply IH; lia].
Qed.

(** *** The fold of [lcmOfArray] *)

Lemma lcm_pos (a b : Z) : 0 < a -> 0 < b -> 0 < Z.lcm a b.
Proof.
  intros Ha Hb. pose proof (Z.lcm_nonneg a b).
  destruct (Z.eq_dec (Z.lcm a b) 0) as [E | E]; [| lia].
  apply Z.lcm_eq_0 in E. lia.
Qed.

Lemma lcm_as_quotient (a b : Z) :
  0 < a -> 0 < b ->
  Z.rem (a * b) (Z.gcd a b) = 0
  /\ Z.quot (a * b) (Z.gcd a b) = Z.lcm a b
  /\ Z.lcm a b <= a * b.
Proof.
  intros Ha Hb.
  assert (Hg : 0 < Z.gcd a b).
  { pose proof (Z.gcd_nonneg a b).
    destruct (Z.eq_dec (Z.gcd a b) 0) as [E | E]; [| lia].
    apply Z.gcd_eq_0_l in E. lia. }
  destruct (Z.gcd_divide_r a b) as [k Hk].
  assert (Hkpos : 0 < k) by nia.
  assert (Hprod : a * b = (a * k) * Z.gcd a b) by nia.
  assert (Hlcm : Z.lcm a b = a * k).
  { unfold Z.lcm. rewrite Hk at 1. rewrite Z.div_mul by lia.
    apply Z.abs_eq. nia. }
  repeat split.
  - rewrite Z.rem_mod_nonneg by nia. rewrite Hprod. apply Z.mod_mul. lia.
  - rewrite Z.quot_div_nonneg by nia. rewrite Hprod, Z.div_mul by lia.
    now rewrite Hlcm.
  - rewrite Hlcm, Hprod. nia.
Qed.

Lemma lcm_step_Int (fuel : nat) (r x : Z) :
  0 < r -> 0 < x -> r * x <= two53 -> Z.abs x < Z.of_nat fuel ->
  lcm_step fuel (Int r) (Int x) = Some (Int (Z.lcm r x)).
Proof.
  intros Hr Hx Hsafe Hfuel. unfold lcm_step.
  rewrite gcd_Int by assumption. cbn [bind mul].
  destruct (lcm_as_quotient r x Hr Hx) as (Hrem & Hquot & Hle).
  rewrite round_Z_safe by nia.
  rewrite div_Int_exact; [| | assumption].
  - rewrite Hquot, round_Z_safe; [reflexivity |].
    pose proof (lcm_pos r x Hr Hx). lia.
  - intros E. apply Z.gcd_eq_0_l in E. lia.
Qed.

Lemma lcm_fold_Int (fuel : nat) (rest : list Z) :
  forall first : Z,
    0 < first -> Forall (fun z => 0 < z) rest ->
    products_within first rest ->
    Forall (fun z => Z.abs z < Z.of_nat fuel) rest ->
    fold_opt (lcm_step fuel) (map Int rest) (Int first)
    = Some (Int (fold_left Z.lcm rest first)).
Proof.
  induction rest as [| z rest IH]; intros first Hfirst Hpos Hsafe Hfuel;
    [reflexivity |].
  inversion Hpos as [| ? ? Hz Hpos']; subst.
  inversion Hfuel as [| ? ? Hfz Hfuel']; subst.
  destruct Hsafe as [Hprod Hsafe'].
  cbn [map fold_opt fold_left]. rewrite lcm_step_Int by assumption.
  cbn [bind]. apply IH; try assumption. now apply lcm_pos.
Qed.

Lemma fold_lcm_pos (rest : list Z) :
  forall first : Z,
    0 < first -> Forall (fun z => 0 < z) rest ->
    0 < fold_left Z.lcm rest first.
Proof.
  induction rest as [| z rest IH]; intros first Hfirst Hpos; cbn [fold_left];
    [assumption |].
  inversion Hpos; subst. apply IH; [now apply lcm_pos | assumption].
Qed.

Lemma fold_lcm_multiple (rest : list Z) :
  forall first : Z,
    Forall (fun z => (z | fold_left Z.lcm rest first)) (first :: rest).
Proof.
  induction rest as [| z rest IH]; intros first; cbn [fold_left].
  - constructor; [apply Z.divide_refl | constructor].
  - specialize (IH (Z.lcm first z)).
    inversion IH as [| ? ? Hacc Hrest]; subst.
    constructor; [| constructor]; try assumption.
    + eapply Z.divide_trans; [apply Z.divide_lcm_l | exact Hacc].
    + eapply Z.divide_trans; [apply Z.divide_lcm_r | exact Hacc].
Qed.

Lemma fold_lcm_least (rest : list Z) :
  forall first m : Z,
    Forall (fun z => (z | m)) (first :: rest) ->
    (fold_left Z.lcm rest first | m).
Proof.
  induction rest as [| z rest IH]; intros first m Hall; cbn [fold_left].
  - now inversion Hall.
  - inversion Hall as [| ? ? Hfirst Hrest]; subst.
    inversion Hrest as [| ? ? Hz Hrest']; subst.
    apply IH. constructor; [now apply Z.lcm_least | assumption].
Qed.

(** *** Enough fuel is enough *)

Lemma fibonacci_loop_mono (fuel : nat) :
  forall (fuel' : nat) (i n : number) (series s : list number),
    (fuel <= fuel')%nat ->
    fibonacci_loop fuel i n series = Some s ->
    fibonacci_loop fuel' i n series = Some s.
Proof.
  induction fuel as [| fuel IH]; intros fuel' i n series s Hle; [discriminate |].
  destruct fuel' as [| fuel']; [lia |]. cbn [fibonacci_loop].
  destruct (ltb i n); [| trivial]. apply IH. lia.
Qed.

Lemma gcd_loop_mono (fuel : nat) :
  forall (fuel' : nat) (a b g : number),
    (fuel <= fuel')%nat ->
    gcd_loop fuel a b = Some g -> gcd_loop fuel' a b = Some g.
Proof.
  induction fuel as [| fuel IH]; intros fuel' a b g Hle; [discriminate |].
  destruct fuel' as [| fuel']; [lia |]. cbn [gcd_loop].
  destruct (negb (eqb b (Int 0))); [| trivial]. apply IH. lia.
Qed.

Lemma isPrime_loop_mono (fuel : nat) :
  forall (fuel' : nat) (i num : number) (b : bool),
    (fuel <= fuel')%nat ->
    isPrime_loop fuel i num = Some b -> isPrime_loop fuel' i num = Some b.
Proof.
  induction fuel as [| fuel IH]; intros fuel' i num b Hle; [discriminate |].
  destruct fuel' as [| fuel']; [lia |]. cbn [isPrime_loop].
  destruct (leb (mul i i) num); [| trivial].
  destruct (eqb (rem num i) (Int 0)); [trivial |]. apply IH. lia.
Qed.

(** *** Rounding above [2^53] never comes back below it *)

Lemma rhe_div_ge (a d : Z) : a / d <= rhe_div a d.
Proof.
  unfold rhe_div. destruct (2 * (a mod d) ?= d); [| lia | lia].
  destruct (Z.even (a / d)); lia.
Qed.

Lemma round_Z_large (z : Z) :
  two53 < z ->
  round_Z z = PInf \/ exists y : Z, round_Z z = Int y /\ two53 <= y.
Proof.
  intros Hz. unfold round_Z.
  assert (Hpos : 0 < two53) by reflexivity.
  rewrite (Z.abs_eq z) by lia.
  destruct (Z.leb_spec z two53) as [? | _]; [lia |].
  assert (Hlog : 53 <= Z.log2 z).
  { change 53 with (Z.log2 two53). apply Z.log2_le_mono. lia. }
  set (e := Z.log2 z - 52).
  assert (He : 1 <= e) by (subst e; lia).
  assert (Hpow : 0 < 2 ^ e) by (apply Z.pow_pos_nonneg; lia).
  assert (Hm : 2 ^ 52 <= rhe_div z (2 ^ e)).
  { etransitivity; [| apply rhe_div_ge].
    apply Z.div_le_lower_bound; [assumption |].
    rewrite Z.mul_comm, <- Z.pow_add_r by lia.
    replace (52 + e) with (Z.log2 z) by (subst e; lia).
    apply Z.log2_spec. lia. }
  assert (Hbig : two53 <= rhe_div z (2 ^ e) * 2 ^ e).
  { assert (2 ^ 1 <= 2 ^ e) by (apply Z.pow_le_mono_r; lia).
    change two53 with (2 ^ 52 * 2 ^ 1). nia. }
  destruct (two1024 <=? rhe_div z (2 ^ e) * 2 ^ e).
  - left. destruct (Z.ltb_spec z 0); [lia | reflexivity].
  - right. eexists. split; [reflexivity |].
    rewrite (Z.sgn_pos z) by lia. lia.
Qed.

(** *** Primality *)

Lemma not_prime_below_2 (z : Z) : z < 2 -> ~ is_prime z.
Proof. intros H [H2 _]. lia. Qed.

Lemma is_prime_2 : is_prime 2.
Proof.
  split; [lia |]. intros d Hd Hdiv.
  apply Z.divide_pos_le in Hdiv; lia.
Qed.

Lemma not_prime_with_divisor (z d : Z) :
  1 < d -> d < z -> (d | z) -> ~ is_prime z.
Proof.
  intros H1 Hlt Hdiv [_ Hprime].
  destruct (Hprime d ltac:(lia) Hdiv); lia.
Qed.

Lemma odd_factor (d k : Z) : Z.odd (d * k) = true -> Z.odd d = true.
Proof. rewrite Z.odd_mul. now intros [H _]%andb_prop. Qed.

Lemma is_prime_odd_criterion (z : Z) :
  3 <= z -> Z.odd z = true ->
  (forall d : Z, 3 <= d -> Z.odd d = true -> d * d <= z -> ~ (d | z)) ->
  is_prime z.
Proof.
  intros Hz Hodd Hnone. split; [lia |].
  intros d Hd [k Hk].
  destruct (Z.eq_dec d 1) as [| Hd1]; [now left |].
  destruct (Z.eq_dec d z) as [| Hdz]; [now right |].
  exfalso.
  assert (Hkpos : 0 < k) by nia.
  assert (Hk1 : k <> 1) by nia.
  assert (Hodd_d : Z.odd d = true).
  { apply (odd_factor d k). rewrite Z.mul_comm, <- Hk. exact Hodd. }
  assert (Hodd_k : Z.odd k = true).
  { apply (odd_factor k d). rewrite <- Hk. exact Hodd. }
  assert (Hd3 : 3 <= d).
  { destruct (Z.eq_dec d 2) as [-> |]; [discriminate | lia]. }
  assert (Hk3 : 3 <= k).
  { destruct (Z.eq_dec k 2) as [-> |]; [discriminate | lia]. }
  destruct (Z_le_gt_dec d k).
  - apply (Hnone d Hd3 Hodd_d); [nia | now exists k].
  - apply (Hnone k Hk3 Hodd_k); [nia | exists d; lia].
Qed.

Lemma leb_Int (a b : Z) : leb (Int a) (Int b) = (a <=? b).
Proof.
  unfold leb. cbn [ltb eqb].
  destruct (Z.ltb_spec a b), (Z.eqb_spec a b), (Z.leb_spec a b);
    reflexivity || lia.
Qed.

Lemma leb_square (i num : Z) :
  0 <= i -> num < two53 ->
  leb (mul (Int i) (Int i)) (Int num) = (i * i <=? num).
Proof.
  intros Hi Hnum. cbn [mul].
  destruct (Z_le_gt_dec (i * i) two53) as [Hsmall | Hlarge].
  - rewrite round_Z_safe by (rewrite Z.abs_eq; nia). apply leb_Int.
  - destruct (Z.leb_spec (i * i) num); [lia |].
    destruct (round_Z_large (i * i)) as [-> | (y & -> & Hy)]; [lia | |].
    + reflexivity.
    + rewrite leb_Int. destruct (Z.leb_spec y num); [lia | reflexivity].
Qed.

Lemma isPrime_loop_Int (fuel : nat) :
  forall i num : Z,
    3 <= i -> 3 <= num -> num < two53 ->
    Z.max 0 (num - i) < Z.of_nat fuel ->
    (isPrime_loop fuel (Int i) (Int num) = Some true
     /\ forall d : Z, i <= d -> (exists j, d = i + 2 * j) -> d * d <= num ->
                      ~ (d | num))
    \/ (isPrime_loop fuel (Int i) (Int num) = Some false
        /\ exists d : Z, i <= d /\ d * d <= num /\ (d | num)).
Proof.
  induction fuel as [| fuel IH]; intros i num Hi Hnum Hsafe Hfuel; [lia |].
  cbn [isPrime_loop]. rewrite leb_square by lia.
  destruct (Z.leb_spec (i * i) num) as [Hsq | Hsq].
  - rewrite rem_Int, eqb_Int by lia.
    destruct (Z.eqb_spec (Z.rem num i) 0) as [Hrem | Hrem].
    + right. split; [reflexivity |]. exists i.
      repeat split; [lia | assumption |].
      apply Z.rem_divide; [lia | assumption].
    + cbn [add]. rewrite round_Z_safe by (rewrite Z.abs_eq; nia).
      destruct (IH (i + 2) num) as [[Hrun Hnone] | [Hrun Hsome]];
        try lia; [nia | |].
      * left. split; [assumption |]. intros d Hd [j Hj] Hdd Hdiv.
        destruct (Z.eq_dec d i) as [-> | Hne].
        -- apply Hrem. apply Z.rem_divide; [lia | assumption].
        -- apply (Hnone d); try assumption; [lia |].
           exists (j - 1). lia.
      * right. split; [assumption |].
        destruct Hsome as (d & Hd & Hdd & Hdiv). exists d.
        repeat split; [lia | assumption | assumption].
  - left. split; [reflexivity |]. intros d Hd _ Hdd. nia.
Qed.

Lemma odd_double_integer_small (z : Z) :
  double_integer z -> Z.rem z 2 <> 0 -> Z.abs z < two53.
Proof.
  intros (m & e & -> & Hm & He) Hodd.
  destruct (Z.eq_dec e 0) as [-> | Hne].
  - now rewrite Z.pow_0_r, Z.mul_1_r.
  - exfalso. apply Hodd. apply Z.rem_divide; [lia |].
    exists (m * 2 ^ (e - 1)).
    replace e with (e - 1 + 1) at 1 by lia.
    rewrite Z.pow_add_r by lia. change (2 ^ 1) with 2. ring.
Qed.

(** A divisor of an odd number, at least 3, is reached by the loop
    counter, which starts at 3 and steps by 2. *)
Lemma odd_number_is_visited (d : Z) :
  3 <= d -> Z.odd d = true -> exists j : Z, d = 3 + 2 * j.
Proof.
  intros Hd Hodd. rewrite Zodd_mod in Hodd. apply Z.eqb_eq in Hodd.
  exists (d / 2 - 1). pose proof (Z.div_mod d 2 ltac:(lia)). lia.
Qed.

Lemma isPrime_Int (z : Z) :
  double_integer z ->
  exists (b : bool) (f0 : nat),
    (forall fuel : nat, (f0 <= fuel)%nat -> isPrime fuel (Int z) = Some b)
    /\ (b = true <-> is_prime z).
Proof.
  intros Hdouble. unfold isPrime. cbn [ltb]. rewrite !eqb_Int.
  destruct (Z.ltb_spec z 2) as [Hlt | Hge].
  { exists false, O. split; [reflexivity |].
    split; [discriminate | intros H; now apply not_prime_below_2 in H]. }
  destruct (Z.eqb_spec z 2) as [-> | Hne].
  { exists true, O. split; [reflexivity |].
    split; [intros _; apply is_prime_2 | reflexivity]. }
  rewrite rem_Int, eqb_Int by lia.
  destruct (Z.eqb_spec (Z.rem z 2) 0) as [Heven | Hodd].
  { exists false, O. split; [reflexivity |].
    split; [discriminate |]. intros H. exfalso.
    apply (not_prime_with_divisor z 2); try lia; [| assumption].
    apply Z.rem_divide; [lia | assumption]. }
  pose proof (odd_double_integer_small z Hdouble Hodd) as Hsmall.
  assert (Hoddb : Z.odd z = true).
  { rewrite Z.rem_mod_nonneg in Hodd by lia.
    rewrite Zodd_mod. apply Z.eqb_eq.
    pose proof (Z.mod_pos_bound z 2 ltac:(lia)). lia. }
  set (f0 := S (Z.to_nat z)).
  destruct (isPrime_loop_Int f0 3 z) as [[Hres Hnone] | [Hres Hsome]];
    try lia.
  - exists true, f0. split.
    + intros fuel Hfuel. now apply (isPrime_loop_mono f0).
    + split; [intros _ | reflexivity].
      apply is_prime_odd_criterion; try assumption; [lia |].
      intros d Hd3 Hdodd Hdd. apply Hnone; try assumption.
      now apply odd_number_is_visited.
  - exists false, f0. split.
    + intros fuel Hfuel. now apply (isPrime_loop_mono f0).
    + split; [discriminate |]. intros Hprime. exfalso.
      destruct Hsome as (d & Hd & Hdd & Hdiv).
      apply (not_prime_with_divisor z d); try assumption; nia.
Qed.

(** *** [filterPrimes] *)

Lemma Filtered_Subseq {A : Type} (P : A -> Prop) (l r : list A) :
  Filtered P l r -> Subseq r l.
Proof. induction 1; constructor; assumption. Qed.

Lemma Filtered_In {A : Type} (P : A -> Prop) (l r : list A) :
  Filtered P l r -> forall x : A, In x r <-> In x l /\ P x.
Proof.
  induction 1 as [| x l r HP _ IH | x l r HP _ IH]; intros y; cbn [In].
  - tauto.
  - rewrite IH. split.
    + intros [<- | [? ?]]; auto.
    + intros [[<- | ?] ?]; auto.
  - rewrite IH. split.
    + intros [? ?]; auto.
    + intros [[<- | ?] ?]; [contradiction | auto].
Qed.

Lemma prime_callback_spec (v : value) :
  (forall z : Z, v = int_value z -> double_integer z) ->
  exists (b : bool) (f0 : nat),
    (forall fuel : nat, (f0 <= fuel)%nat -> prime_callback fuel v = Some b)
    /\ (b = true <-> prime_value v).
Proof.
  intros Hdouble. unfold prime_callback, prime_value.
  destruct v as [| | ? | [z | | | |] | | |];
    try (exists false, O; split; [reflexivity |];
         split; [discriminate | intros (p & [=] & _)]).
  cbn [Number_isInteger isInteger number_of gtb ltb].
  destruct (Z.ltb_spec 0 z) as [Hpos | Hneg].
  - destruct (isPrime_Int z (Hdouble z eq_refl)) as (b & f0 & Hrun & Hb).
    exists b, f0. split; [assumption |]. rewrite Hb. split.
    + intros H. now exists z.
    + now intros (p & [= ->] & H).
  - exists false, O. split; [reflexivity |].
    split; [discriminate |]. intros (p & [= ->] & [H _]). lia.
Qed.

Lemma filterPrimes_Filtered (elems : list value) :
  (forall z : Z, In (int_value z) elems -> double_integer z) ->
  exists (r : list value) (f0 : nat),
    (forall fuel : nat, (f0 <= fuel)%nat ->
       filterPrimes fuel (VArr elems) = Some r)
    /\ Filtered prime_value elems r.
Proof.
  cbn [filterPrimes].
  induction elems as [| v elems IH]; intros Hdouble.
  - exists [], O. split; [reflexivity | constructor].
  - destruct IH as (r & f1 & Hrun & Hfiltered).
    { intros z Hz. apply Hdouble. now right. }
    destruct (prime_callback_spec v) as (b & f2 & Hcall & Hb).
    { intros z ->. apply Hdouble. now left. }
    exists (if b then v :: r else r), (Nat.max f1 f2). split.
    + intros fuel Hfuel. cbn [filter_opt].
      rewrite Hcall, Hrun by lia. reflexivity.
    + destruct b.
      * constructor; [now apply Hb | assumption].
      * constructor; [| assumption]. intros H. apply Hb in H. discriminate.
Qed.

(** *** [fibonacci] *)

Lemma elem_number_nth (l : list number) (k : nat) :
  elem_number (nth_error l k) = nth k l NaN.
Proof.
  revert k. induction l as [| x l IH]; intros [| k]; cbn; auto.
Qed.

Lemma at_index_Int {A : Type} (l : list A) (k : nat) :
  at_index l (Int (Z.of_nat k)) = nth_error l k.
Proof.
  cbn [at_index]. destruct (Z.ltb_spec (Z.of_nat k) 0); [lia |].
  now rewrite Nat2Z.id.
Qed.

Lemma fibonacci_loop_spec (fuel : nat) :
  forall (i : nat) (series : list number) (n : Z),
    length series = i -> (2 <= i)%nat ->
    Z.of_nat i <= n -> n < two32 ->
    n - Z.of_nat i < Z.of_nat fuel ->
    exists s : list number,
      fibonacci_loop fuel (Int (Z.of_nat i)) (Int n) series = Some s
      /\ Z.of_nat (length s) = n
      /\ (exists ext, s = series ++ ext)
      /\ forall k : nat, (i <= k < length s)%nat ->
           nth k s NaN = add (nth (k - 1) s NaN) (nth (k - 2) s NaN).
Proof.
  induction fuel as [| fuel IH]; intros i series n Hlen Hi Hle Hn Hfuel;
    [lia |].
  cbn [fibonacci_loop ltb].
  destruct (Z.ltb_spec (Z.of_nat i) n) as [Hlt | Hge].
  - unfold sub. cbn [add opp].
    assert (Hsmall : two32 < two53) by reflexivity.
    rewrite !round_Z_safe by lia.
    replace (Z.of_nat i + - (1)) with (Z.of_nat (i - 1)) by lia.
    replace (Z.of_nat i + - (2)) with (Z.of_nat (i - 2)) by lia.
    replace (Z.of_nat i + 1) with (Z.of_nat (S i)) by lia.
    rewrite !at_index_Int, !elem_number_nth.
    set (x := add (nth (i - 1) series NaN) (nth (i - 2) series NaN)).
    destruct (IH (S i) (series ++ [x]) n) as (s & Hrun & Hsize & [ext Hext] & Hrec);
      try lia.
    { rewrite length_app. cbn [length]. lia. }
    exists s. split; [assumption |]. split; [assumption |].
    rewrite <- app_assoc in Hext. cbn [app] in Hext.
    split; [now exists (x :: ext) |].
    intros k Hk. destruct (Nat.eq_dec k i) as [-> | Hne].
    + rewrite Hext.
      rewrite app_nth2 by lia. rewrite Hlen, Nat.sub_diag. cbn [nth].
      rewrite !app_nth1 by lia. reflexivity.
    + apply Hrec. lia.
  - exists series. split; [reflexivity |]. split; [lia |].
    split; [exists []; now rewrite app_nil_r |].
    intros k Hk. lia.
Qed.

(** *** Strings and keys *)

Lemma str_eqb_eq (s t : jsstring) : str_eqb s t = true <-> s = t.
Proof.
  revert t. induction s as [| c s IH]; intros [| d t]; cbn [str_eqb];
    try (split; [discriminate | discriminate]); [tauto |].
  rewrite andb_true_iff, N.eqb_eq, IH. split.
  - now intros [-> ->].
  - now intros [= -> ->].
Qed.

Lemma str_eqb_refl (s : jsstring) : str_eqb s s = true.
Proof. now apply str_eqb_eq. Qed.

Lemma includes_In (l : list jsstring) (s : jsstring) :
  includes l s = true <-> In s l.
Proof.
  unfold includes. rewrite existsb_exists. split.
  - intros (t & Hin & Heq). apply str_eqb_eq in Heq. now subst.
  - intros Hin. exists s. split; [assumption | apply str_eqb_refl].
Qed.

(** The six recognised keys, one by one. *)
Lemma validKeys_cases (k : jsstring) :
  In k validKeys ->
  k = lit "fibonacci" \/ k = lit "prime" \/ k = lit "lcm" \/ k = lit "hcf"
  \/ k = lit "AI" \/ k = lit "ai".
Proof.
  unfold validKeys. cbn [In]. intuition auto.
Qed.

Lemma validKey_truthy (k : jsstring) :
  In k validKeys -> truthy (VStr k) = true.
Proof.
  intros H. apply validKeys_cases in H.
  destruct H as [-> | [-> | [-> | [-> | [-> | ->]]]]]; reflexivity.
Qed.

Lemma blank_trim_start (s : jsstring) : blank s = true -> trim_start s = [].
Proof.
  induction s as [| c s IH]; [reflexivity |]. cbn [blank forallb trim_start].
  intros [Hc Hs]%andb_prop. rewrite Hc. now apply IH.
Qed.

Lemma blank_trim (s : jsstring) : blank s = true -> trim s = [].
Proof.
  intros H. unfold trim. rewrite (blank_trim_start s H). reflexivity.
Qed.

Lemma not_blank_trim_start (s : jsstring) :
  blank s = false -> blank (trim_start s) = false.
Proof.
  induction s as [| c s IH]; [discriminate |].
  cbn [blank forallb trim_start].
  destruct (is_white_space c) eqn:Hc; cbn [andb].
  - exact IH.
  - intros _. cbn [forallb]. now rewrite Hc.
Qed.

Lemma blank_rev (s : jsstring) : blank (rev s) = blank s.
Proof.
  unfold blank. induction s as [| c s IH]; [reflexivity |].
  cbn [rev forallb]. rewrite forallb_app, IH. cbn [forallb].
  rewrite andb_true_r. apply andb_comm.
Qed.

Lemma not_blank_trim (s : jsstring) : blank s = false -> blank (trim s) = false.
Proof.
  intros H. unfold trim. rewrite blank_rev.
  apply not_blank_trim_start. rewrite blank_rev.
  now apply not_blank_trim_start.
Qed.

Lemma not_blank_nonempty (s : jsstring) :
  blank s = false -> (length s =? 0)%nat = false /\ truthy (VStr s) = true.
Proof. destruct s; [discriminate | now split]. Qed.

(** *** The guard on the request keys *)

Lemma provided_key_object (fields : list (jsstring * value)) (k : jsstring) :
  provided_key (VObj fields) = Some k
  <-> (exists v : value, fields = [(k, v)]) /\ In k validKeys.
Proof.
  unfold provided_key. cbn [Object_keys]. split.
  - destruct (find (includes validKeys) (map fst fields)) as [pk |] eqn:Hfind;
      [| discriminate].
    apply find_some in Hfind as [Hin Hvalid]. apply includes_In in Hvalid.
    rewrite (validKey_truthy pk Hvalid). cbn [negb orb].
    destruct fields as [| [k' v] [| ? ?]]; cbn in Hin |- *;
      try discriminate; try contradiction.
    destruct Hin as [-> | []]. intros [= ->]. split; [now exists v | assumption].
  - intros [[v ->] Hvalid]. cbn [map fst find].
    rewrite (proj2 (includes_In validKeys k) Hvalid).
    cbv iota. now rewrite (validKey_truthy k Hvalid).
Qed.

Lemma variant_provided_key_object (fields : list (jsstring * value))
  (k : jsstring) :
  Variant.provided_key (VObj fields) = Some k
  <-> (exists v : value, fields = [(k, v)]) /\ In k validKeys.
Proof.
  unfold Variant.provided_key. change (truthy (VObj fields)) with true.
  cbv iota. cbn [Object_keys]. split.
  - destruct (find (includes validKeys) (map fst fields)) as [pk |] eqn:Hfind;
      [| discriminate].
    apply find_some in Hfind as [Hin Hvalid]. apply includes_In in Hvalid.
    rewrite (validKey_truthy pk Hvalid). cbn [negb orb].
    destruct fields as [| [k' v] [| ? ?]]; cbn in Hin |- *;
      try discriminate; try contradiction.
    destruct Hin as [-> | []]. intros [= ->]. split; [now exists v | assumption].
  - intros [[v ->] Hvalid]. cbn [map fst find].
    rewrite (proj2 (includes_In validKeys k) Hvalid).
    cbv iota. now rewrite (validKey_truthy k Hvalid).
Qed.

Lemma provided_key_none (fields : list (jsstring * value)) :
  ~ (exists (k : jsstring) (v : value), fields = [(k, v)] /\ In k validKeys) ->
  provided_key (VObj fields) = None
  /\ Variant.provided_key (VObj fields) = None.
Proof.
  intros Hnot. split.
  - destruct (provided_key (VObj fields)) as [k |] eqn:H; [| reflexivity].
    apply provided_key_object in H as [[v ->] Hvalid].
    exfalso. apply Hnot. now exists k, v.
  - destruct (Variant.provided_key (VObj fields)) as [k |] eqn:H;
      [| reflexivity].
    apply variant_provided_key_object in H as [[v ->] Hvalid].
    exfalso. apply Hnot. now exists k, v.
Qed.

(** *** The shape of the responses *)

Lemma well_shaped_envelope (cfg : config) (r : response) :
  well_shaped cfg r -> envelope cfg r.
Proof.
  intros [data Hdata | st message]; unfold envelope, field, has_field.
  - split; [destruct data; try discriminate; reflexivity |].
    left. destruct data; try discriminate; repeat split; reflexivity.
  - split; [reflexivity |]. right.
    repeat split; try reflexivity. now exists message.
Qed.

Lemma first_word_cases (g : generation) :
  first_word g = VNull \/ exists w : jsstring, first_word g = VStr w.
Proof.
  destruct g as [message | [t |]]; cbn [first_word]; auto.
  destruct (truthy (VStr (trim t))); eauto.
Qed.

Lemma getAIResponse_cases (cfg : config) (question : value) :
  getAIResponse cfg question = VNull
  \/ exists w : jsstring, getAIResponse cfg question = VStr w.
Proof.
  unfold getAIResponse.
  destruct (genAI cfg) as [generate |]; [| now left].
  destruct question; try (now left).
  destruct (negb _); [now left | apply first_word_cases].
Qed.

Lemma variant_getAIResponse_cases (cfg : config) (question : value) :
  Variant.getAIResponse cfg question = VNull
  \/ exists w : jsstring, Variant.getAIResponse cfg question = VStr w.
Proof.
  unfold Variant.getAIResponse.
  destruct (genAI cfg) as [generate |]; [| now left].
  destruct question; try (now left).
  destruct (negb _); [now left | apply first_word_cases].
Qed.

Ltac shaped :=
  intros; subst;
  match goal with
  | H : Some _ = Some _ |- _ => injection H as <-
  | H : None = Some _ |- _ => discriminate H
  end;
  constructor; reflexivity.

Lemma case_fibonacci_shaped (cfg : config) (fuel : nat) (val : value)
  (r : response) :
  case_fibonacci cfg fuel val = Some r -> well_shaped cfg r.
Proof.
  unfold case_fibonacci. destruct (_ || _); [shaped |].
  destruct (fibonacci fuel (number_of val)); cbn [bind]; shaped.
Qed.

Lemma case_prime_shaped (cfg : config) (fuel : nat) (arr : value)
  (r : response) :
  case_prime cfg fuel arr = Some r -> well_shaped cfg r.
Proof.
  unfold case_prime. destruct arr; try shaped.
  destruct (negb _); [shaped |]. destruct (_ <? _)%nat; [shaped |].
  destruct (filterPrimes fuel (VArr elems)); cbn [bind]; shaped.
Qed.

Lemma case_lcm_shaped (cfg : config) (fuel : nat) (arr : value)
  (r : response) :
  case_lcm cfg fuel arr = Some r -> well_shaped cfg r.
Proof.
  unfold case_lcm. destruct arr; try shaped.
  destruct (negb _); [shaped |]. destruct (_ <? _)%nat; [shaped |].
  destruct (lcmOfArray fuel (VArr elems)); cbn [bind]; shaped.
Qed.

Lemma case_hcf_shaped (cfg : config) (fuel : nat) (arr : value)
  (r : response) :
  case_hcf cfg fuel arr = Some r -> well_shaped cfg r.
Proof.
  unfold case_hcf. destruct arr; try shaped.
  destruct (negb _); [shaped |]. destruct (_ <? _)%nat; [shaped |].
  destruct (hcfOfArray fuel (VArr elems)); cbn [bind]; shaped.
Qed.

Lemma case_AI_shaped (cfg : config) (question : value) :
  well_shaped cfg (case_AI cfg question).
Proof.
  unfold case_AI. destruct question; try constructor.
  destruct (_ =? _)%nat; [constructor |].
  destruct (_ <? _)%nat; [constructor |].
  destruct (getAIResponse_cases cfg (VStr (trim s))) as [-> | [w ->]];
    constructor; reflexivity.
Qed.

Lemma post_bfhl_well_shaped (cfg : config) (fuel : nat) (body : value)
  (r : response) :
  post_bfhl cfg fuel body = Some r -> well_shaped cfg r.
Proof.
  unfold post_bfhl. destruct (_ || _); [shaped |].
  destruct (provided_key body) as [providedKey |]; [| shaped].
  unfold dispatch.
  destruct (str_eqb _ _); [apply case_fibonacci_shaped |].
  destruct (str_eqb _ _); [apply case_prime_shaped |].
  destruct (str_eqb _ _); [apply case_lcm_shaped |].
  destruct (str_eqb _ _); [apply case_hcf_shaped |].
  destruct (str_eqb _ _); [| shaped].
  intros [= <-]. apply case_AI_shaped.
Qed.

(** *** The shape of the responses of the variant *)

Lemma normalize_key_cases (pk : jsstring) :
  In pk validKeys ->
  let key := normalize_key pk in
  key = lit "fibonacci" \/ key = lit "prime" \/ key = lit "lcm"
  \/ key = lit "hcf" \/ key = lit "AI".
Proof.
  intros H. apply validKeys_cases in H.
  destruct H as [-> | [-> | [-> | [-> | [-> | ->]]]]]; cbv; auto 6.
Qed.

Lemma variant_provided_key_valid (body : value) (pk : jsstring) :
  Variant.provided_key body = Some pk -> In pk validKeys.
Proof.
  unfold Variant.provided_key.
  destruct (find _ _) as [k |] eqn:Hfind; [| discriminate].
  apply find_some in Hfind as [_ Hvalid]. apply includes_In in Hvalid.
  destruct (_ || _); [discriminate |]. now intros [= <-].
Qed.

Lemma assoc_json (fields : list (jsstring * value)) (k : jsstring) :
  forallb (fun kv => is_json (snd kv)) fields = true ->
  assoc fields k = VUndefined \/ is_json (assoc fields k) = true.
Proof.
  induction fields as [| [k' v] fields IH]; cbn [forallb assoc snd];
    [now left |].
  intros [Hv Hrest]%andb_prop. destruct (str_eqb k k'); auto.
Qed.

Lemma get_prop_json (body : value) (k : jsstring) :
  is_json body = true ->
  get_prop body k = VUndefined \/ is_json (get_prop body k) = true.
Proof.
  destruct body; cbn [get_prop]; auto. cbn [is_json]. apply assoc_json.
Qed.

Lemma is_json_defined (v : value) : is_json v = true -> is_undefined v = false.
Proof. destruct v; [discriminate | reflexivity ..]. Qed.

Section VariantShape.

Variable StringToNumber : jsstring -> number.
Variable ObjectToNumber : value -> Variant.completion number.

Let lcm_step := Variant.lcm_step StringToNumber ObjectToNumber.
Let hcf_step := Variant.hcf_step StringToNumber ObjectToNumber.

(** A step of either fold leaves a number in [result]. *)
Lemma variant_lcm_step_defined (fuel : nat) (result x data : value) :
  lcm_step fuel result x = Some (Variant.Normal data) ->
  is_undefined data = false.
Proof.
  unfold lcm_step, Variant.lcm_step.
  destruct (Variant.ToNumber _ _ result) as [a |]; cbn [Variant.and_then];
    [| discriminate].
  destruct (Variant.ToNumber _ _ x) as [b |]; cbn [Variant.and_then];
    [| discriminate].
  destruct (gcd fuel a b); cbn [option_map Variant.and_then];
    [| discriminate].
  now intros [= <-].
Qed.

Lemma variant_hcf_step_defined (fuel : nat) (result x data : value) :
  hcf_step fuel result x = Some (Variant.Normal data) ->
  is_undefined data = false.
Proof.
  unfold hcf_step, Variant.hcf_step.
  destruct (Variant.ToNumber _ _ result) as [a |]; cbn [Variant.and_then];
    [| discriminate].
  destruct (Variant.ToNumber _ _ x) as [b |]; cbn [Variant.and_then];
    [| discriminate].
  destruct (gcd fuel a b); cbn [option_map Variant.and_then];
    [| discriminate].
  now intros [= <-].
Qed.

Lemma fold_try_defined (step : value -> value -> option (Variant.completion value))
  (rest : list value) :
  (forall result x data : value,
     step result x = Some (Variant.Normal data) -> is_undefined data = false) ->
  forall first data : value,
    is_undefined first = false ->
    Variant.fold_try step rest first = Some (Variant.Normal data) ->
    is_undefined data = false.
Proof.
  intros Hstep.
  induction rest as [| x rest IH]; intros first data Hfirst;
    cbn [Variant.fold_try].
  - now intros [= <-].
  - destruct (step first x) as [[acc |] |] eqn:Hacc; cbn [Variant.and_then];
      try discriminate.
    apply IH. now apply (Hstep first x).
Qed.

Lemma variant_lcmOfArray_defined (fuel : nat) (arr data : value) :
  arr = VUndefined \/ is_json arr = true ->
  Variant.lcmOfArray StringToNumber ObjectToNumber fuel arr
  = Some (Variant.Normal data) ->
  is_undefined data = false.
Proof.
  intros Harr. unfold Variant.lcmOfArray.
  destruct arr as [| | | | | [| first rest] |]; try (now intros [= <-]).
  apply fold_try_defined; [apply variant_lcm_step_defined |].
  destruct Harr as [| Hjson]; [discriminate |].
  cbn [is_json forallb] in Hjson. apply andb_prop in Hjson as [Hfirst _].
  now apply is_json_defined.
Qed.

Lemma variant_hcfOfArray_defined (fuel : nat) (arr data : value) :
  arr = VUndefined \/ is_json arr = true ->
  Variant.hcfOfArray StringToNumber ObjectToNumber fuel arr
  = Some (Variant.Normal data) ->
  is_undefined data = false.
Proof.
  intros Harr. unfold Variant.hcfOfArray.
  destruct arr as [| | | | | [| first rest] |]; try (now intros [= <-]).
  apply fold_try_defined; [apply variant_hcf_step_defined |].
  destruct Harr as [| Hjson]; [discriminate |].
  cbn [is_json forallb] in Hjson. apply andb_prop in Hjson as [Hfirst _].
  now apply is_json_defined.
Qed.

(** What the [try] block sends is well shaped. *)
Lemma variant_dispatch_well_shaped (cfg : config) (fuel : nat)
  (body : value) (pk : jsstring) (r : response) :
  is_json body = true -> In pk validKeys ->
  Variant.dispatch StringToNumber ObjectToNumber cfg fuel body
    (normalize_key pk) = Some (Variant.Normal r) ->
  well_shaped cfg r.
Proof.
  intros Hjson Hkey. unfold Variant.dispatch. cbv zeta.
  destruct (normalize_key_cases pk Hkey) as [-> | [-> | [-> | [-> | ->]]]].
  - change (str_eqb (lit "fibonacci") (lit "fibonacci")) with true. cbv iota.
    destruct (_ || _); [discriminate |].
    destruct (fibonacci fuel _); cbn [option_map Variant.and_then];
      [| discriminate].
    intros [= <-]. now constructor.
  - change (str_eqb (lit "prime") (lit "fibonacci")) with false.
    change (str_eqb (lit "prime") (lit "prime")) with true. cbv iota.
    destruct (negb _); [discriminate |].
    destruct (filterPrimes fuel _); cbn [option_map Variant.and_then];
      [| discriminate].
    intros [= <-]. now constructor.
  - change (str_eqb (lit "lcm") (lit "fibonacci")) with false.
    change (str_eqb (lit "lcm") (lit "prime")) with false.
    change (str_eqb (lit "lcm") (lit "lcm")) with true. cbv iota.
    destruct (Variant.lcmOfArray _ _ fuel _) as [[data |] |] eqn:Hdata;
      cbn [Variant.and_then]; try discriminate.
    intros [= <-]. constructor.
    exact (variant_lcmOfArray_defined fuel _ _ (get_prop_json body _ Hjson) Hdata).
  - change (str_eqb (lit "hcf") (lit "fibonacci")) with false.
    change (str_eqb (lit "hcf") (lit "prime")) with false.
    change (str_eqb (lit "hcf") (lit "lcm")) with false.
    change (str_eqb (lit "hcf") (lit "hcf")) with true. cbv iota.
    destruct (Variant.hcfOfArray _ _ fuel _) as [[data |] |] eqn:Hdata;
      cbn [Variant.and_then]; try discriminate.
    intros [= <-]. constructor.
    exact (variant_hcfOfArray_defined fuel _ _ (get_prop_json body _ Hjson) Hdata).
  - change (str_eqb (lit "AI") (lit "fibonacci")) with false.
    change (str_eqb (lit "AI") (lit "prime")) with false.
    change (str_eqb (lit "AI") (lit "lcm")) with false.
    change (str_eqb (lit "AI") (lit "hcf")) with false.
    change (str_eqb (lit "AI") (lit "AI")) with true. cbv iota.
    destruct (variant_getAIResponse_cases cfg (get_prop body (lit "AI")))
      as [-> | [w ->]]; cbn [truthy negb].
    + intros [= <-]. constructor.
    + destruct w; cbn [negb]; intros [= <-]; now constructor.
Qed.

Lemma variant_post_bfhl_well_shaped (cfg : config) (fuel : nat)
  (body : value) (r : response) :
  is_json body = true ->
  Variant.post_bfhl StringToNumber ObjectToNumber cfg fuel body = Some r ->
  well_shaped cfg r.
Proof.
  intros Hjson. unfold Variant.post_bfhl.
  destruct (Variant.provided_key body) as [pk |] eqn:Hkey; [| shaped].
  apply variant_provided_key_valid in Hkey.
  destruct (Variant.dispatch _ _ cfg fuel body (normalize_key pk))
    as [[r' | message] |] eqn:Hdispatch; [| shaped | discriminate].
  intros [= <-]. now apply (variant_dispatch_well_shaped cfg fuel body pk).
Qed.

End VariantShape.

(** *** The helpers on arrays of integers *)

Lemma fibonacci_spec (n : Z) :
  0 <= n < two32 ->
  exists s : list number,
    (forall fuel : nat, (Z.to_nat n <= fuel)%nat ->
       fibonacci fuel (Int n) = Some s)
    /\ Z.of_nat (length s) = n
    /\ (1 <= n -> nth 0 s NaN = Int 0)
    /\ (2 <= n -> nth 1 s NaN = Int 1)
    /\ (forall i : nat, (2 <= i < length s)%nat ->
          nth i s NaN = add (nth (i - 1) s NaN) (nth (i - 2) s NaN)).
Proof.
  intros Hn. unfold fibonacci. rewrite leb_Int, eqb_Int.
  destruct (Z.leb_spec n 0) as [H0 | H0].
  { exists []. repeat split; cbn [length]; try lia.
    all: intros; cbn [length] in *; lia. }
  destruct (Z.eqb_spec n 1) as [-> | H1].
  { exists [Int 0]. repeat split; try reflexivity; try lia.
    all: intros; cbn [length] in *; lia. }
  destruct (fibonacci_loop_spec (Z.to_nat n) 2 [Int 0; Int 1] n)
    as (s & Hrun & Hlen & [ext Hext] & Hrec); try reflexivity; try lia.
  exists s. split; [| split; [assumption | split; [| split; [| assumption]]]].
  - intros fuel Hfuel. eapply fibonacci_loop_mono; eassumption.
  - intros _. now rewrite Hext.
  - intros _. now rewrite Hext.
Qed.

Lemma fibonacci_entries_agree (sm sn : list number) (i : nat) :
  ((1 <= length sm)%nat -> nth 0 sm NaN = Int 0) ->
  ((1 <= length sn)%nat -> nth 0 sn NaN = Int 0) ->
  ((2 <= length sm)%nat -> nth 1 sm NaN = Int 1) ->
  ((2 <= length sn)%nat -> nth 1 sn NaN = Int 1) ->
  (forall k : nat, (2 <= k < length sm)%nat ->
     nth k sm NaN = add (nth (k - 1) sm NaN) (nth (k - 2) sm NaN)) ->
  (forall k : nat, (2 <= k < length sn)%nat ->
     nth k sn NaN = add (nth (k - 1) sn NaN) (nth (k - 2) sn NaN)) ->
  (length sm <= length sn)%nat ->
  forall k : nat, (k <= i)%nat -> (k < length sm)%nat ->
    nth k sm NaN = nth k sn NaN.
Proof.
  intros H0m H0n H1m H1n Hrm Hrn Hlen.
  induction i as [| i IH]; intros k Hk Hkm.
  - replace k with 0%nat by lia. rewrite H0m, H0n by lia. reflexivity.
  - destruct (Nat.eq_dec k 0%nat) as [-> | Hk0];
      [rewrite H0m, H0n by lia; reflexivity |].
    destruct (Nat.eq_dec k 1%nat) as [-> | Hk1];
      [rewrite H1m, H1n by lia; reflexivity |].
    rewrite Hrm, Hrn by lia.
    rewrite (IH (k - 1)%nat), (IH (k - 2)%nat) by lia. reflexivity.
Qed.

Lemma fibonacci_prefix (m n : Z) :
  0 <= m <= n -> n < two32 ->
  exists sm sn : list number,
    (forall fuel : nat, (Z.to_nat m <= fuel)%nat ->
       fibonacci fuel (Int m) = Some sm)
    /\ (forall fuel : nat, (Z.to_nat n <= fuel)%nat ->
          fibonacci fuel (Int n) = Some sn)
    /\ sm = firstn (Z.to_nat m) sn.
Proof.
  intros Hmn Hn.
  destruct (fibonacci_spec m) as (sm & Hrm & Hlm & H0m & H1m & Hrecm); [lia |].
  destruct (fibonacci_spec n) as (sn & Hrn & Hln & H0n & H1n & Hrecn); [lia |].
  exists sm, sn. split; [assumption |]. split; [assumption |].
  apply nth_ext with (d := NaN) (d' := NaN).
  - rewrite length_firstn. lia.
  - intros k Hk. rewrite nth_firstn.
    destruct (Nat.ltb_spec k (Z.to_nat m)); [| lia].
    apply (fibonacci_entries_agree sm sn k); try assumption; try lia.
    + intros H'. apply H0m. lia.
    + intros H'. apply H0n. lia.
    + intros H'. apply H1m. lia.
    + intros H'. apply H1n. lia.
Qed.

Lemma entries_are_integers (l : list number) :
  forallb isInteger l = true -> map Int (map entry_value l) = l.
Proof.
  induction l as [| x l IH]; [reflexivity |].
  cbn [forallb map]. intros H. apply andb_prop in H as [Hx Hl].
  destruct x; try discriminate. cbn [entry_value]. now rewrite IH.
Qed.

Lemma rounded_sum_at_spec (exact : nat) (f : list Z) (i : nat) :
  rounded_sum_at exact f i = true ->
  round_Z (nth (i - 1) f 0 + nth (i - 2) f 0) = Int (nth i f 0)
  /\ two53 * Z.abs (nth i f 0 - (nth (i - 1) f 0 + nth (i - 2) f 0))
     <= nth (i - 1) f 0 + nth (i - 2) f 0
  /\ ((i <= exact)%nat -> nth i f 0 = nth (i - 1) f 0 + nth (i - 2) f 0).
Proof.
  unfold rounded_sum_at. cbv zeta. intros H.
  apply andb_prop in H as [H Hexact]. apply andb_prop in H as [Hround Hnear].
  split; [| split].
  - destruct (round_Z _) as [z | | | |]; try discriminate.
    apply Z.eqb_eq in Hround. now subst.
  - now apply Z.leb_le.
  - intros Hi. apply orb_prop in Hexact as [Hlt | Heq].
    + apply Nat.ltb_lt in Hlt. lia.
    + now apply Z.eqb_eq.
Qed.

(** The sequence of 1000 entries, checked by evaluation; the shorter ones
    are its prefixes. *)
Lemma fibonacci_rounded (n : Z) :
  0 <= n <= 1000 ->
  exists l : list number,
    (forall fuel : nat, (Z.to_nat n <= fuel)%nat ->
       fibonacci fuel (Int n) = Some (firstn (Z.to_nat n) l))
    /\ length l = 1000%nat
    /\ rounded_fibonacci 78 l = true.
Proof.
  intros Hn.
  destruct (fibonacci_prefix n 1000) as (s & l & Hs & Hl & ->);
    [lia | reflexivity |].
  destruct (fibonacci_spec 1000) as (l' & Hl' & Hlen & _);
    [split; [lia | reflexivity] |].
  assert (Hcheck : match fibonacci 1000 (Int 1000) with
                   | Some l => rounded_fibonacci 78 l
                   | None => false
                   end = true) by (vm_compute; reflexivity).
  pose proof (Hl 1000%nat ltac:(cbn; lia)) as E.
  rewrite (Hl' 1000%nat ltac:(cbn; lia)) in E. injection E as ->.
  rewrite (Hl 1000%nat) in Hcheck by (cbn; lia).
  exists l. split; [assumption |]. split; [lia | assumption].
Qed.

Lemma filter_all {A : Type} (p : A -> bool) (l : list A) :
  Forall (fun x => p x = true) l -> filter p l = l.
Proof.
  induction 1 as [| x l Hx _ IH]; [reflexivity |].
  cbn [filter]. now rewrite Hx, IH.
Qed.

Lemma filter_positive_all (zs : list Z) :
  Forall (fun z => 0 < z) zs ->
  filter positive_integer (map int_value zs) = map int_value zs.
Proof.
  intros H. apply filter_all. apply Forall_map.
  eapply Forall_impl; [| exact H]. intros z Hz. cbn beta.
  rewrite positive_integer_int. now apply Z.ltb_lt.
Qed.

Lemma number_of_ints (zs : list Z) :
  map number_of (map int_value zs) = map Int zs.
Proof. rewrite map_map. reflexivity. Qed.

Lemma hcfOfArray_ints (zs : list Z) :
  Forall (fun z => 0 < z) zs ->
  exists f0 : nat, forall fuel : nat,
    (f0 <= fuel)%nat -> hcfOfArray fuel (ints zs) = Some (Int (hcf_list zs)).
Proof.
  intros Hpos. destruct (enough_fuel zs) as [f0 Hf0]. exists f0.
  intros fuel Hfuel. specialize (Hf0 fuel Hfuel).
  unfold hcfOfArray, ints.
  rewrite filter_positive_all, number_of_ints by assumption.
  destruct zs as [| z rest]; [reflexivity |]. cbn [map hcf_list].
  apply hcf_fold_Int. now inversion Hf0.
Qed.

Lemma lcmOfArray_ints (zs : list Z) :
  Forall (fun z => 0 < z) zs -> safe_products zs ->
  exists f0 : nat, forall fuel : nat,
    (f0 <= fuel)%nat -> lcmOfArray fuel (ints zs) = Some (Int (lcm_list zs)).
Proof.
  intros Hpos Hsafe. destruct (enough_fuel zs) as [f0 Hf0]. exists f0.
  intros fuel Hfuel. specialize (Hf0 fuel Hfuel).
  unfold lcmOfArray, ints.
  rewrite filter_positive_all, number_of_ints by assumption.
  destruct zs as [| z rest]; [reflexivity |]. cbn [map lcm_list].
  inversion Hpos; subst. inversion Hf0; subst.
  now apply lcm_fold_Int.
Qed.

Lemma hcf_list_divides (zs : list Z) :
  Forall (fun z => (hcf_list zs | z)) zs.
Proof. destruct zs as [| z rest]; [constructor | apply fold_gcd_divide_all]. Qed.

Lemma lcm_list_multiple (zs : list Z) :
  Forall (fun z => (z | lcm_list zs)) zs.
Proof. destruct zs as [| z rest]; [constructor | apply fold_lcm_multiple]. Qed.

Lemma lcm_list_least (zs : list Z) (m : Z) :
  zs <> [] -> Forall (fun z => 0 < z) zs ->
  0 < m -> Forall (fun z => (z | m)) zs ->
  0 < lcm_list zs <= m.
Proof.
  intros Hne Hpos Hm Hall. destruct zs as [| z rest]; [congruence |].
  cbn [lcm_list]. inversion Hpos; subst. split.
  - now apply fold_lcm_pos.
  - apply Z.divide_pos_le; [assumption | now apply fold_lcm_least].
Qed.

(** *** One valid key through the handler of [index.js] *)

Lemma post_bfhl_fibonacci (cfg : config) (fuel : nat) (n : Z) :
  post_bfhl cfg fuel (request_body (OpFibonacci n))
  = case_fibonacci cfg fuel (int_value n).
Proof. reflexivity. Qed.

Lemma post_bfhl_prime (cfg : config) (fuel : nat) (zs : list Z) :
  post_bfhl cfg fuel (request_body (OpPrime zs)) = case_prime cfg fuel (ints zs).
Proof. reflexivity. Qed.

Lemma post_bfhl_lcm (cfg : config) (fuel : nat) (zs : list Z) :
  post_bfhl cfg fuel (request_body (OpLcm zs)) = case_lcm cfg fuel (ints zs).
Proof. reflexivity. Qed.

Lemma post_bfhl_hcf (cfg : config) (fuel : nat) (zs : list Z) :
  post_bfhl cfg fuel (request_body (OpHcf zs)) = case_hcf cfg fuel (ints zs).
Proof. reflexivity. Qed.

Lemma post_bfhl_AI (cfg : config) (fuel : nat) (lowercase : bool)
  (q : jsstring) :
  post_bfhl cfg fuel (request_body (OpAI lowercase q))
  = Some (case_AI cfg (VStr q)).
Proof. destruct lowercase; reflexivity. Qed.

Lemma case_fibonacci_valid (cfg : config) (n : Z) :
  0 <= n <= 1000 ->
  exists (data : value) (f0 : nat), forall fuel : nat,
    (f0 <= fuel)%nat ->
    case_fibonacci cfg fuel (int_value n) = Some (success cfg data).
Proof.
  intros Hn. destruct (fibonacci_spec n) as (s & Hrun & _).
  { split; [lia |]. apply Z.le_lt_trans with 1000; [lia | reflexivity]. }
  exists (VArr (map VNum s)), (Z.to_nat n). intros fuel Hfuel.
  unfold case_fibonacci.
  cbn [int_value typeof_number Number_isInteger isInteger number_of negb orb
       gtb ltb].
  destruct (Z.ltb_spec n 0); [lia |]. destruct (Z.ltb_spec 1000 n); [lia |].
  now rewrite Hrun.
Qed.

Lemma case_prime_valid (cfg : config) (zs : list Z) :
  Forall (fun z => 0 <= z /\ double_integer z) zs -> (length zs <= 100)%nat ->
  exists (data : value) (f0 : nat), forall fuel : nat,
    (f0 <= fuel)%nat ->
    case_prime cfg fuel (ints zs) = Some (success cfg data).
Proof.
  intros Hzs Hlen.
  destruct (filterPrimes_Filtered (map int_value zs)) as (r & f0 & Hrun & _).
  { intros z Hin. apply in_map_iff in Hin as (z' & [= ->] & Hin).
    rewrite Forall_forall in Hzs. now apply Hzs. }
  exists (VArr r), f0. intros fuel Hfuel. unfold case_prime, ints.
  rewrite filter_all.
  - rewrite Nat.eqb_refl, length_map. cbn [negb].
    destruct (Nat.ltb_spec 100 (length zs)); [lia |].
    fold (ints zs). unfold ints. now rewrite Hrun.
  - apply Forall_map. eapply Forall_impl; [| exact Hzs].
    intros z [Hz _]. cbn [int_value Number_isInteger isInteger number_of andb].
    unfold geb. rewrite leb_Int. now apply Z.leb_le.
Qed.

Lemma case_lcm_passes (cfg : config) (fuel : nat) (zs : list Z) :
  Forall (fun z => 0 < z) zs -> (length zs <= 20)%nat ->
  case_lcm cfg fuel (ints zs)
  = (result <- lcmOfArray fuel (ints zs) ;; Some (success cfg (VNum result))).
Proof.
  intros Hzs Hlen. unfold case_lcm.
  change (ints zs) with (VArr (map int_value zs)) at 1.
  cbv iota. rewrite filter_positive_all by assumption.
  rewrite Nat.eqb_refl, length_map. cbn [negb].
  destruct (Nat.ltb_spec 20 (length zs)); [lia | reflexivity].
Qed.

Lemma fold_lcm_step_mono (fuel fuel' : nat) (rest : list number) :
  (fuel <= fuel')%nat ->
  forall first result : number,
    fold_opt (lcm_step fuel) rest first = Some result ->
    fold_opt (lcm_step fuel') rest first = Some result.
Proof.
  intros Hle. induction rest as [| x rest IH]; intros first result H;
    [exact H |].
  cbn [fold_opt] in *. unfold lcm_step at 1 in H. unfold lcm_step at 1.
  destruct (gcd fuel first x) as [g |] eqn:Hg; [| discriminate H].
  unfold gcd in *. rewrite (gcd_loop_mono fuel fuel' _ _ g Hle Hg).
  cbn [bind] in *. now apply IH.
Qed.

Lemma lcmOfArray_mono (fuel fuel' : nat) (arr : value) (result : number) :
  (fuel <= fuel')%nat ->
  lcmOfArray fuel arr = Some result -> lcmOfArray fuel' arr = Some result.
Proof.
  intros Hle. unfold lcmOfArray. destruct arr; trivial.
  destruct (map number_of (filter positive_integer elems)); trivial.
  now apply fold_lcm_step_mono.
Qed.

Lemma case_lcm_valid (cfg : config) (zs : list Z) :
  Forall (fun z => 0 < z) zs -> (length zs <= 20)%nat ->
  (exists (fuel : nat) (result : number),
     lcmOfArray fuel (ints zs) = Some result) ->
  exists (data : value) (f0 : nat), forall fuel : nat,
    (f0 <= fuel)%nat ->
    case_lcm cfg fuel (ints zs) = Some (success cfg data).
Proof.
  intros Hzs Hlen (f0 & result & Hrun).
  exists (VNum result), f0. intros fuel Hfuel.
  rewrite case_lcm_passes by assumption.
  now rewrite (lcmOfArray_mono f0 fuel _ result Hfuel Hrun).
Qed.

Lemma case_hcf_valid (cfg : config) (zs : list Z) :
  Forall (fun z => 0 < z) zs -> (length zs <= 20)%nat ->
  exists (data : value) (f0 : nat), forall fuel : nat,
    (f0 <= fuel)%nat ->
    case_hcf cfg fuel (ints zs) = Some (success cfg data).
Proof.
  intros Hzs Hlen.
  destruct (hcfOfArray_ints zs Hzs) as [f0 Hrun].
  exists (VNum (Int (hcf_list zs))), f0. intros fuel Hfuel.
  unfold case_hcf. change (ints zs) with (VArr (map int_value zs)) at 1.
  cbv iota. rewrite filter_positive_all by assumption.
  rewrite Nat.eqb_refl, length_map. cbn [negb].
  destruct (Nat.ltb_spec 20 (length zs)); [lia |].
  fold (ints zs). now rewrite Hrun.
Qed.

Lemma case_AI_passes_validation (cfg : config) (q : jsstring) :
  blank q = false -> (length q <= 500)%nat ->
  case_AI cfg (VStr q)
  = match getAIResponse cfg (VStr (trim q)) with
    | VNull => failure cfg 503 unavailable_message
    | _ => success cfg (getAIResponse cfg (VStr (trim q)))
    end.
Proof.
  intros Hq Hlen. unfold case_AI.
  destruct (not_blank_nonempty (trim q) (not_blank_trim q Hq)) as [-> _].
  destruct (Nat.ltb_spec 500 (length q)); [lia | reflexivity].
Qed.

Lemma case_AI_answers (cfg : config) (q : jsstring) :
  blank q = false -> (length q <= 500)%nat -> ai_answers cfg (trim q) ->
  exists data : value, case_AI cfg (VStr q) = success cfg data.
Proof.
  intros Hq Hlen (generate & t & Hgen & Hres & Ht).
  rewrite case_AI_passes_validation by assumption.
  unfold getAIResponse. rewrite Hgen.
  destruct (not_blank_nonempty (trim q) (not_blank_trim q Hq)) as [_ ->].
  cbn [negb]. rewrite Hres. cbn [first_word].
  destruct (not_blank_nonempty (trim t) (not_blank_trim t Ht)) as [_ ->].
  eexists. reflexivity.
Qed.

Lemma case_AI_unavailable (cfg : config) (q : jsstring) :
  blank q = false -> (length q <= 500)%nat -> ai_unavailable cfg (trim q) ->
  case_AI cfg (VStr q) = failure cfg 503 unavailable_message.
Proof.
  intros Hq Hlen Hun.
  rewrite case_AI_passes_validation by assumption.
  unfold getAIResponse. unfold ai_unavailable in Hun.
  destruct (genAI cfg) as [generate |]; [| reflexivity].
  destruct (negb _); [reflexivity |].
  destruct (generate _) as [message | [t |]]; cbn [first_word];
    try reflexivity.
  now rewrite (blank_trim t Hun).
Qed.

Lemma post_bfhl_serves (cfg : config) (op : operation) :
  valid_payload op -> served cfg op ->
  exists (data : value) (f0 : nat), forall fuel : nat,
    (f0 <= fuel)%nat ->
    post_bfhl cfg fuel (request_body op) = Some (success cfg data).
Proof.
  destruct op as [n | zs | zs | zs | lowercase q]; cbn [valid_payload served].
  - intros Hn _. setoid_rewrite post_bfhl_fibonacci.
    now apply case_fibonacci_valid.
  - intros [Hzs Hlen] _. setoid_rewrite post_bfhl_prime.
    now apply case_prime_valid.
  - intros [Hzs Hlen] Hreturns. setoid_rewrite post_bfhl_lcm.
    now apply case_lcm_valid.
  - intros [Hzs Hlen] _. setoid_rewrite post_bfhl_hcf.
    now apply case_hcf_valid.
  - intros [Hq Hlen] Hans. setoid_rewrite post_bfhl_AI.
    destruct (case_AI_answers cfg q Hq Hlen Hans) as [data ->].
    now exists data, O.
Qed.

Lemma post_bfhl_served_only (cfg : config) (op : operation) (fuel : nat)
  (r : response) :
  valid_payload op ->
  post_bfhl cfg fuel (request_body op) = Some r -> status r = 200 ->
  served cfg op.
Proof.
  destruct op as [n | zs | zs | zs | lowercase q];
    cbn [valid_payload served]; try (intros; exact I).
  - intros [Hzs Hlen]. rewrite post_bfhl_lcm, case_lcm_passes by assumption.
    destruct (lcmOfArray fuel (ints zs)) as [result |] eqn:Hrun;
      [| discriminate]. intros _ _. now exists fuel, result.
  - intros [Hq Hlen].
    rewrite post_bfhl_AI, case_AI_passes_validation by assumption.
    intros [= <-]. unfold getAIResponse, ai_answers.
    destruct (genAI cfg) as [generate |]; [| discriminate].
    destruct (not_blank_nonempty (trim q) (not_blank_trim q Hq)) as [_ ->].
    cbn [negb].
    destruct (generate (trim q ++ prompt_suffix)) as [message | [t |]] eqn:Hres;
      cbn [first_word]; try discriminate.
    destruct (truthy (VStr (trim t))) eqn:Ht; [| discriminate].
    intros _. exists generate, t. split; [reflexivity |].
    split; [assumption |].
    destruct (blank t) eqn:Hb; [| reflexivity].
    rewrite (blank_trim t Hb) in Ht. discriminate.
Qed.

(** *** The two folds of [lcmOfArray] *)

Lemma variant_lcm_fold_agrees (SN : jsstring -> number)
  (ON : value -> Variant.completion number) (fuel : nat) (rest : list number) :
  forall first : number,
    Variant.fold_try (Variant.lcm_step SN ON fuel) (map VNum rest) (VNum first)
    = option_map (fun x => Variant.Normal (VNum x))
        (fold_opt (lcm_step fuel) rest first).
Proof.
  induction rest as [| x rest IH]; intros first; [reflexivity |].
  cbn [map Variant.fold_try fold_opt].
  unfold Variant.lcm_step at 1, lcm_step at 1.
  cbn [Variant.ToNumber Variant.and_then].
  destruct (gcd fuel first x) as [g |];
    cbn [option_map bind Variant.and_then]; [apply IH | reflexivity].
Qed.

Lemma small_double_integer (z : Z) : Z.abs z < two53 -> double_integer z.
Proof.
  intros H. exists z, 0. rewrite Z.pow_0_r, Z.mul_1_r.
  repeat split; try assumption; lia.
Qed.

(* ================================================================= *)
(** ** The scenarios of the specification, evaluated *)

Example scenario_fibonacci :
  post_bfhl no_credential 100 (request_body (OpFibonacci 7))
  = Some (success no_credential (ints [0; 1; 1; 2; 3; 5; 8])).
Proof. vm_compute. reflexivity. Qed.

Example scenario_prime :
  post_bfhl no_credential 100 (request_body (OpPrime [2; 4; 7; 9; 11]))
  = Some (success no_credential (ints [2; 7; 11])).
Proof. vm_compute. reflexivity. Qed.

Example scenario_lcm :
  post_bfhl no_credential 100 (request_body (OpLcm [12; 18; 24]))
  = Some (success no_credential (int_value 72)).
Proof. vm_compute. reflexivity. Qed.

Example scenario_hcf :
  post_bfhl no_credential 100 (request_body (OpHcf [24; 36; 60]))
  = Some (success no_credential (int_value 12)).
Proof. vm_compute. reflexivity. Qed.

Example scenario_two_keys :
  post_bfhl no_credential 100
    (VObj [(lit "fibonacci", int_value 7); (lit "prime", ints [2])])
  = Some (failure no_credential 400 exactly_one_message).
Proof. vm_compute. reflexivity. Qed.

Example scenario_no_credential :
  post_bfhl no_credential 100 (request_body (OpAI false (lit "capital?")))
  = Some (failure no_credential 503 unavailable_message).
Proof. vm_compute. reflexivity. Qed.

(** In the variant, an error thrown while coercing an element of the
    [lcm] array is caught and answered with 400 and its message. *)
Example variant_answers_a_thrown_error :
  Variant.post_bfhl no_coercion_s throwing_coercion_o no_credential 100
    (VObj [(lit "lcm",
            VArr [VObj [(lit "valueOf", int_value 1);
                        (lit "toString", int_value 1)];
                  int_value 2])])
  = Some (failure no_credential 400
            (lit "Cannot convert object to primitive value")).
Proof. vm_compute. reflexivity. Qed.

(** Beyond [2^53] the sum of two entries is rounded: the 81st entry is
    not the 81st Fibonacci number, 23416728348467685. *)
Example fibonacci_rounds_from_the_80th :
  option_map (fun s => nth 80 s NaN) (fibonacci 100 (Int 81))
  = Some (Int 23416728348467684).
Proof. vm_compute. reflexivity. Qed.

(* ================================================================= *)
(** ** The computation library *)

(** C5, as the code has it.  For every integer [n] with [0 <= n <= 1000],
    [fibonacci(n)] returns (with a step budget of [n] or more) a sequence
    of exactly [n] integers, whose first element is 0 when [n >= 1] and
    whose second element is 1 when [n >= 2].  For every [i] with
    [2 <= i < n], [f[i]] is the double nearest to the integer
    [f[i-1] + f[i-2]], within a relative [2^-53] of it; it is the sum
    itself for [i <= 78], so that the recurrence on integers holds
    throughout for [n <= 79].  [fibonacci(0)] is the empty sequence and
    [fibonacci(1)] is [[0]]. *)
Theorem fibonacci_sequence (n : Z) :
  0 <= n <= 1000 ->
  exists f : list Z,
    (forall fuel : nat, (Z.to_nat n <= fuel)%nat ->
       fibonacci fuel (Int n) = Some (map Int f))
    /\ Z.of_nat (length f) = n
    /\ (1 <= n -> nth 0 f (-1) = 0)
    /\ (2 <= n -> nth 1 f (-1) = 1)
    /\ (forall i : nat, (2 <= i)%nat -> Z.of_nat i < n ->
          round_Z (nth (i - 1) f 0 + nth (i - 2) f 0) = Int (nth i f 0)
          /\ two53 * Z.abs (nth i f 0 - (nth (i - 1) f 0 + nth (i - 2) f 0))
             <= nth (i - 1) f 0 + nth (i - 2) f 0
          /\ ((i <= 78)%nat ->
              nth i f 0 = nth (i - 1) f 0 + nth (i - 2) f 0))
    /\ (n = 0 -> f = [])
    /\ (n = 1 -> f = [0]).
Proof.
  intros Hn. destruct (fibonacci_rounded n Hn) as (l & Hrun & Hlen & Hcheck).
  unfold rounded_fibonacci in Hcheck. cbv zeta in Hcheck.
  apply andb_prop in Hcheck as [Hcheck Hrec].
  apply andb_prop in Hcheck as [Hcheck H1].
  apply andb_prop in Hcheck as [Hint H0].
  apply Z.eqb_eq in H0, H1. rewrite forallb_forall in Hrec.
  set (k := Z.to_nat n) in *. set (g := map entry_value l) in *.
  assert (Hk : (k <= 1000)%nat) by lia.
  assert (Hnth : forall (j : nat) (d : Z),
            (j < k)%nat -> nth j (firstn k g) d = nth j g d).
  { intros j d Hj. rewrite nth_firstn.
    destruct (Nat.ltb_spec j k); [reflexivity | lia]. }
  assert (Hsize : length (firstn k g) = k).
  { rewrite length_firstn. unfold g. rewrite length_map. lia. }
  exists (firstn k g). split; [| split; [| split; [| split; [| split; [| split]]]]].
  - intros fuel Hfuel. rewrite (Hrun fuel Hfuel). f_equal.
    unfold g. rewrite <- firstn_map. now rewrite entries_are_integers.
  - rewrite Hsize. lia.
  - intros H. rewrite Hnth by lia. exact H0.
  - intros H. rewrite Hnth by lia. exact H1.
  - intros i Hi Hin. rewrite !Hnth by lia.
    apply (rounded_sum_at_spec 78 g i). apply Hrec.
    apply in_seq. rewrite Hlen. lia.
  - intros ->. reflexivity.
  - intros ->. specialize (Hnth 0%nat (-1) ltac:(lia)).
    rewrite H0 in Hnth.
    destruct (firstn k g) as [| x [| y r]]; cbn [length] in Hsize;
      try (subst k; cbn in Hsize; lia).
    cbn [nth] in Hnth. now subst x.
Qed.

Lemma fibonacci_sequence_witness :
  0 <= 80 <= 1000
  /\ exists f : list Z,
       (forall fuel : nat, (Z.to_nat 80 <= fuel)%nat ->
          fibonacci fuel (Int 80) = Some (map Int f))
       /\ Z.of_nat (length f) = 80
       /\ (1 <= 80 -> nth 0 f (-1) = 0)
       /\ (2 <= 80 -> nth 1 f (-1) = 1)
       /\ (forall i : nat, (2 <= i)%nat -> Z.of_nat i < 80 ->
             round_Z (nth (i - 1) f 0 + nth (i - 2) f 0) = Int (nth i f 0)
             /\ two53
                * Z.abs (nth i f 0 - (nth (i - 1) f 0 + nth (i - 2) f 0))
                <= nth (i - 1) f 0 + nth (i - 2) f 0
             /\ ((i <= 78)%nat ->
                 nth i f 0 = nth (i - 1) f 0 + nth (i - 2) f 0))
       /\ (80 = 0 -> f = [])
       /\ (80 = 1 -> f = [0]).
Proof. split; [lia | apply (fibonacci_sequence 80); lia]. Defined.

(** C5, as the specification states it, fails within its range: the last
    entry of [fibonacci(80)] is not the sum of the two entries before it,
    which is odd and above [2^53], but the double next to it. *)
Lemma fibonacci_80_breaks_the_recurrence :
  0 <= 80 <= 1000
  /\ exists s : list number,
       (forall fuel : nat, (80 <= fuel)%nat ->
          fibonacci fuel (Int 80) = Some s)
       /\ nth 77 s NaN = Int 5527939700884757
       /\ nth 78 s NaN = Int 8944394323791464
       /\ nth 79 s NaN = Int 14472334024676220
       /\ 14472334024676220 <> 8944394323791464 + 5527939700884757.
Proof.
  split; [lia |].
  destruct (fibonacci_spec 80) as (s & Hrun & _);
    [split; [lia | reflexivity] |].
  pose proof (Hrun 80%nat (le_n _)) as H80.
  vm_compute in H80. injection H80 as <-.
  eexists. split; [exact Hrun |].
  split; [reflexivity |]. split; [reflexivity |].
  split; [reflexivity | lia].
Qed.

(** C6.  For every array whose integer elements are doubles,
    [filterPrimes(arr)] returns (with enough step budget) a subsequence of
    [arr] in the order of [arr]: it keeps exactly the occurrences of the
    elements that are prime integers.  Every element of the result is a
    strictly positive prime; every element of [arr] that is not a prime
    integer (a composite, a non-positive or a non-integer element) is
    absent from the result; every prime element of [arr] is in it. *)
Theorem filterPrimes_keeps_exactly_the_primes (elems : list value) :
  (forall z : Z, In (int_value z) elems -> double_integer z) ->
  exists r : list value,
    (exists f0 : nat, forall fuel : nat, (f0 <= fuel)%nat ->
       filterPrimes fuel (VArr elems) = Some r)
    /\ Subseq r elems
    /\ Filtered prime_value elems r
    /\ (forall v : value, In v r ->
          exists p : Z, v = int_value p /\ 0 < p /\ is_prime p)
    /\ (forall v : value, In v elems -> prime_value v -> In v r)
    /\ (forall v : value, In v elems -> ~ prime_value v -> ~ In v r).
Proof.
  intros Hdouble.
  destruct (filterPrimes_Filtered elems Hdouble) as (r & f0 & Hrun & Hfiltered).
  pose proof (Filtered_In _ _ _ Hfiltered) as Hin.
  exists r. split; [now exists f0 |].
  split; [now apply Filtered_Subseq with prime_value |].
  split; [assumption |]. split; [| split].
  - intros v Hv. apply Hin in Hv as [_ (p & -> & Hp)].
    exists p. split; [reflexivity |].
    split; [destruct Hp; lia | assumption].
  - intros v Hv Hp. apply Hin. now split.
  - intros v _ Hnp Hv. apply Hin in Hv as [_ Hp]. contradiction.
Qed.

Lemma filterPrimes_keeps_exactly_the_primes_witness :
  exists r : list value,
    (exists f0 : nat, forall fuel : nat, (f0 <= fuel)%nat ->
       filterPrimes fuel
         (VArr [int_value 2; int_value 4; VNum (Frac (5 # 2)); int_value 7;
                VStr (lit "11"); int_value 9; int_value 11; int_value (-3)])
       = Some r)
    /\ Subseq r
         [int_value 2; int_value 4; VNum (Frac (5 # 2)); int_value 7;
          VStr (lit "11"); int_value 9; int_value 11; int_value (-3)]
    /\ Filtered prime_value
         [int_value 2; int_value 4; VNum (Frac (5 # 2)); int_value 7;
          VStr (lit "11"); int_value 9; int_value 11; int_value (-3)] r
    /\ (forall v : value, In v r ->
          exists p : Z, v = int_value p /\ 0 < p /\ is_prime p)
    /\ (forall v : value,
          In v [int_value 2; int_value 4; VNum (Frac (5 # 2)); int_value 7;
                VStr (lit "11"); int_value 9; int_value 11; int_value (-3)] ->
          prime_value v -> In v r)
    /\ (forall v : value,
          In v [int_value 2; int_value 4; VNum (Frac (5 # 2)); int_value 7;
                VStr (lit "11"); int_value 9; int_value 11; int_value (-3)] ->
          ~ prime_value v -> ~ In v r).
Proof.
  apply filterPrimes_keeps_exactly_the_primes.
  intros z Hz. apply small_double_integer.
  repeat (destruct Hz as [Hz | Hz]; [inversion Hz; subst; reflexivity |]).
  destruct Hz.
Defined.

(** C9.  For all integers [a] and [b], [gcd(a, b) = gcd(b, a)] and
    [gcd(a, 0) = |a|]: with enough step budget [gcd] returns the greatest
    common divisor of [|a|] and [|b|], which the Euclidean loop computes
    from the absolute values of its arguments. *)
Theorem gcd_symmetric_on_absolute_values (a b : Z) :
  (exists f0 : nat, forall fuel : nat, (f0 <= fuel)%nat ->
     gcd fuel (Int a) (Int b) = Some (Int (Z.gcd (Z.abs a) (Z.abs b)))
     /\ gcd fuel (Int b) (Int a) = gcd fuel (Int a) (Int b)
     /\ gcd fuel (Int a) (Int b) = gcd_loop fuel (Int (Z.abs a)) (Int (Z.abs b)))
  /\ (forall fuel : nat, gcd (S fuel) (Int a) (Int 0) = Some (Int (Z.abs a))).
Proof.
  split.
  - exists (S (Z.to_nat (Z.max (Z.abs a) (Z.abs b)))). intros fuel Hfuel.
    rewrite !gcd_Int by lia.
    rewrite Z.gcd_abs_l, Z.gcd_abs_r, (Z.gcd_comm b a).
    repeat split. unfold gcd. cbn [abs].
    rewrite gcd_loop_Int by lia. now rewrite Z.gcd_abs_l, Z.gcd_abs_r.
  - intros fuel. reflexivity.
Qed.

(** C8.  For every non-empty array of strictly positive integers,
    [hcfOfArray(arr)] returns (with enough step budget) the left fold of
    the pairwise gcd over the array, a positive integer that divides every
    element of [arr]; for an empty array and for a non-array input it
    returns 0. *)
Theorem hcfOfArray_divides_every_element :
  (forall zs : list Z,
     zs <> [] -> Forall (fun z => 0 < z) zs ->
     (exists f0 : nat, forall fuel : nat, (f0 <= fuel)%nat ->
        hcfOfArray fuel (ints zs) = Some (Int (hcf_list zs)))
     /\ 0 < hcf_list zs
     /\ Forall (fun z => (hcf_list zs | z)) zs)
  /\ (forall fuel : nat, hcfOfArray fuel (VArr []) = Some (Int 0))
  /\ (forall (fuel : nat) (v : value),
        Array_isArray v = false -> hcfOfArray fuel v = Some (Int 0)).
Proof.
  split; [| split].
  - intros zs Hne Hpos. split; [now apply hcfOfArray_ints |].
    split; [| apply hcf_list_divides].
    destruct zs as [| z rest]; [congruence |]. cbn [hcf_list].
    apply fold_gcd_pos. now inversion Hpos.
  - reflexivity.
  - intros fuel v Hv. destruct v; try reflexivity. discriminate.
Qed.

Lemma hcfOfArray_divides_every_element_witness :
  (exists f0 : nat, forall fuel : nat, (f0 <= fuel)%nat ->
     hcfOfArray fuel (ints [24; 36; 60]) = Some (Int (hcf_list [24; 36; 60])))
  /\ 0 < hcf_list [24; 36; 60]
  /\ Forall (fun z => (hcf_list [24; 36; 60] | z)) [24; 36; 60].
Proof.
  apply (proj1 hcfOfArray_divides_every_element [24; 36; 60]).
  - discriminate.
  - repeat constructor.
Defined.

(** C7, as the code has it.  For every non-empty array of strictly
    positive integers such that every product [result * nums[i]] formed by
    the fold is at most [2^53], [lcmOfArray(arr)] returns (with enough
    step budget) the left fold of the pairwise lcm [a*b/gcd(a,b)], a
    positive integer that every element of [arr] divides and the least
    such positive integer; for an empty array and for a non-array input it
    returns 0. *)
Theorem lcmOfArray_least_common_multiple :
  (forall zs : list Z,
     zs <> [] -> Forall (fun z => 0 < z) zs -> safe_products zs ->
     (exists f0 : nat, forall fuel : nat, (f0 <= fuel)%nat ->
        lcmOfArray fuel (ints zs) = Some (Int (lcm_list zs)))
     /\ 0 < lcm_list zs
     /\ Forall (fun z => (z | lcm_list zs)) zs
     /\ (forall m : Z,
           0 < m -> Forall (fun z => (z | m)) zs -> lcm_list zs <= m))
  /\ (forall fuel : nat, lcmOfArray fuel (VArr []) = Some (Int 0))
  /\ (forall (fuel : nat) (v : value),
        Array_isArray v = false -> lcmOfArray fuel v = Some (Int 0)).
Proof.
  split; [| split].
  - intros zs Hne Hpos Hsafe. split; [now apply lcmOfArray_ints |].
    split; [| split; [apply lcm_list_multiple |]].
    + destruct zs as [| z rest]; [congruence |]. cbn [lcm_list].
      inversion Hpos; subst. now apply fold_lcm_pos.
    + intros m Hm Hall. now apply lcm_list_least.
  - reflexivity.
  - intros fuel v Hv. destruct v; try reflexivity. discriminate.
Qed.

Lemma lcmOfArray_least_common_multiple_witness :
  (exists f0 : nat, forall fuel : nat, (f0 <= fuel)%nat ->
     lcmOfArray fuel (ints [12; 18; 24]) = Some (Int (lcm_list [12; 18; 24])))
  /\ 0 < lcm_list [12; 18; 24]
  /\ Forall (fun z => (z | lcm_list [12; 18; 24])) [12; 18; 24]
  /\ (forall m : Z,
        0 < m -> Forall (fun z => (z | m)) [12; 18; 24] ->
        lcm_list [12; 18; 24] <= m).
Proof.
  apply (proj1 lcmOfArray_least_common_multiple [12; 18; 24]).
  - discriminate.
  - repeat constructor.
  - cbn. unfold two53. lia.
Defined.

(** C7, as the specification states it, fails: the product of the two
    positive integers [2^53 - 1] and [2^53 - 3] is rounded to the nearest
    double,
    and the value returned, with any step budget that lets [gcd] finish,
    is not a multiple of [2^53 - 1]. *)
Lemma lcmOfArray_rounds_large_products :
  Forall (fun z => 0 < z /\ double_integer z)
    [9007199254740991; 9007199254740989]
  /\ (forall fuel : nat,
        (9007199254740990 <= Z.of_nat fuel) ->
        lcmOfArray fuel (ints [9007199254740991; 9007199254740989])
        = Some (Int 81129638414606645666991986180096))
  /\ ~ (9007199254740991 | 81129638414606645666991986180096).
Proof.
  split; [| split].
  - repeat constructor; apply small_double_integer; reflexivity.
  - intros fuel Hfuel. cbn [lcmOfArray ints map filter].
    change (positive_integer (int_value 9007199254740991)) with true.
    change (positive_integer (int_value 9007199254740989)) with true.
    cbn [map number_of int_value fold_opt]. unfold lcm_step.
    rewrite gcd_Int by (cbn [Z.abs]; lia).
    vm_compute. reflexivity.
  - intros Hdiv. apply Z.mod_divide in Hdiv; [| discriminate].
    vm_compute in Hdiv. discriminate.
Qed.

(** C10.  For every non-empty array of strictly positive integers the two
    variants of [lcmOfArray] behave alike: with every step budget, the one
    of [part_000], which folds over the raw array, returns what the one of
    [index.js], which first filters the array to strictly positive
    integers, returns. *)
Theorem lcmOfArray_variants_agree
  (StringToNumber : jsstring -> number)
  (ObjectToNumber : value -> Variant.completion number)
  (zs : list Z) :
  zs <> [] -> Forall (fun z => 0 < z) zs ->
  forall fuel : nat,
    Variant.lcmOfArray StringToNumber ObjectToNumber fuel (ints zs)
    = option_map (fun x => Variant.Normal (VNum x))
        (lcmOfArray fuel (ints zs)).
Proof.
  intros Hne Hpos fuel. unfold Variant.lcmOfArray, lcmOfArray, ints.
  rewrite filter_positive_all, number_of_ints by assumption.
  destruct zs as [| z rest]; [congruence |]. cbn [map].
  change (map int_value rest) with (map (fun z => VNum (Int z)) rest).
  rewrite <- (map_map Int VNum). apply variant_lcm_fold_agrees.
Qed.

Lemma lcmOfArray_variants_agree_witness :
  [12; 18; 24] <> []
  /\ Forall (fun z => 0 < z) [12; 18; 24]
  /\ Variant.lcmOfArray no_coercion_s no_coercion_o 100 (ints [12; 18; 24])
     = Some (Variant.Normal (int_value 72))
  /\ forall fuel : nat,
       Variant.lcmOfArray no_coercion_s no_coercion_o fuel (ints [12; 18; 24])
       = option_map (fun x => Variant.Normal (VNum x))
           (lcmOfArray fuel (ints [12; 18; 24])).
Proof.
  split; [discriminate |]. split; [repeat constructor |].
  split; [reflexivity |].
  apply (lcmOfArray_variants_agree no_coercion_s no_coercion_o [12; 18; 24]).
  - discriminate.
  - repeat constructor.
Defined.

(* ================================================================= *)
(** ** The request handler *)

(** C3.  For every decoded body that is an object, both handlers accept the
    request for dispatch if and only if the body has exactly one top-level
    key and that key is one of [fibonacci], [prime], [lcm], [hcf], [AI],
    [ai]; an accepted request goes to the [switch] on its normalised key,
    and every other body (no recognised key, several recognised keys, or
    any key beside a recognised one) is answered with HTTP 400 and
    [is_success: false]. *)
Theorem exactly_one_recognized_key (fields : list (jsstring * value)) :
  (forall k : jsstring,
     provided_key (VObj fields) = Some k
     <-> (exists v : value, fields = [(k, v)]) /\ In k validKeys)
  /\ (forall k : jsstring,
        Variant.provided_key (VObj fields) = Some k
        <-> (exists v : value, fields = [(k, v)]) /\ In k validKeys)
  /\ (forall (cfg : config) (fuel : nat) (k : jsstring),
        provided_key (VObj fields) = Some k ->
        post_bfhl cfg fuel (VObj fields)
        = dispatch cfg fuel (VObj fields) (normalize_key k))
  /\ (~ (exists (k : jsstring) (v : value),
           fields = [(k, v)] /\ In k validKeys) ->
      forall (cfg : config) (fuel : nat),
      exists r : response,
        post_bfhl cfg fuel (VObj fields) = Some r
        /\ (forall (StringToNumber : jsstring -> number)
                   (ObjectToNumber : value -> Variant.completion number),
              Variant.post_bfhl StringToNumber ObjectToNumber cfg fuel
                (VObj fields) = Some r)
        /\ status r = 400
        /\ field r (lit "is_success") = VBool false).
Proof.
  split; [intros k; apply provided_key_object |].
  split; [intros k; apply variant_provided_key_object |].
  split.
  - intros cfg fuel k Hk. unfold post_bfhl. cbn [truthy typeof_object negb orb].
    now rewrite Hk.
  - intros Hnot cfg fuel. apply provided_key_none in Hnot as [Hmain Hvariant].
    exists (failure cfg 400 exactly_one_message). split; [| split].
    + unfold post_bfhl. cbn [truthy typeof_object negb orb]. now rewrite Hmain.
    + intros SN ON. unfold Variant.post_bfhl. now rewrite Hvariant.
    + split; reflexivity.
Qed.

Lemma exactly_one_recognized_key_witness :
  exists r : response,
    post_bfhl no_credential 0
      (VObj [(lit "fibonacci", int_value 7); (lit "prime", ints [2])])
    = Some r
    /\ (forall (StringToNumber : jsstring -> number)
               (ObjectToNumber : value -> Variant.completion number),
          Variant.post_bfhl StringToNumber ObjectToNumber no_credential 0
            (VObj [(lit "fibonacci", int_value 7); (lit "prime", ints [2])])
          = Some r)
    /\ status r = 400
    /\ field r (lit "is_success") = VBool false.
Proof.
  apply (proj2 (proj2 (proj2
           (exactly_one_recognized_key
              [(lit "fibonacci", int_value 7); (lit "prime", ints [2])])))).
  intros (k & v & [=] & _).
Defined.

(** C4.  Every response that either handler produces for a decoded JSON
    body is an envelope: it holds [is_success] and [official_email], and
    exactly one of [data] and [error]; [data] is present if and only if
    [is_success] is true, [error] if and only if it is false, and [error]
    is a string. *)
Theorem response_envelope :
  (forall (cfg : config) (fuel : nat) (body : value) (r : response),
     post_bfhl cfg fuel body = Some r -> envelope cfg r)
  /\ (forall (StringToNumber : jsstring -> number)
             (ObjectToNumber : value -> Variant.completion number)
             (cfg : config) (fuel : nat) (body : value) (r : response),
        is_json body = true ->
        Variant.post_bfhl StringToNumber ObjectToNumber cfg fuel body = Some r ->
        envelope cfg r).
Proof.
  split.
  - intros cfg fuel body r Hr. apply well_shaped_envelope.
    now apply (post_bfhl_well_shaped cfg fuel body).
  - intros SN ON cfg fuel body r Hjson Hr. apply well_shaped_envelope.
    now apply (variant_post_bfhl_well_shaped SN ON cfg fuel body).
Qed.

Lemma response_envelope_witness :
  envelope no_credential (success no_credential (ints [2; 7; 11]))
  /\ envelope no_credential (failure no_credential 400 (lit "Prime must be array")).
Proof.
  split.
  - apply (proj1 response_envelope no_credential 100%nat
             (request_body (OpPrime [2; 4; 7; 9; 11]))).
    vm_compute. reflexivity.
  - apply (proj2 response_envelope no_coercion_s no_coercion_o no_credential 0%nat
             (VObj [(lit "prime", int_value 7)])).
    + reflexivity.
    + vm_compute. reflexivity.
Defined.

(** C1, as the code has it.  For every request body with exactly one
    recognised key and a valid payload, the handler of [index.js] answers
    (with enough step budget) HTTP 200 with [is_success: true] if and
    only if the key is [fibonacci], [prime] or [hcf]; or it is [lcm] and
    [lcmOfArray] returns, the loop of [gcd] ending at every step of its
    fold; or it is [AI] or [ai], a credential is configured and the
    provider returns a text that is not blank.  [lcmOfArray] returns in
    particular whenever every product formed by the fold is at most
    [2^53]. *)
Theorem valid_request_is_served (cfg : config) (op : operation) :
  valid_payload op ->
  (served cfg op <->
   exists r : response,
     (exists f0 : nat, forall fuel : nat, (f0 <= fuel)%nat ->
        post_bfhl cfg fuel (request_body op) = Some r)
     /\ status r = 200
     /\ field r (lit "is_success") = VBool true)
  /\ (forall zs : list Z, op = OpLcm zs -> safe_products zs -> served cfg op).
Proof.
  intros Hvalid. split; [split |].
  - intros Hserved.
    destruct (post_bfhl_serves cfg op Hvalid Hserved) as (data & f0 & Hrun).
    exists (success cfg data). split; [now exists f0 |].
    split; reflexivity.
  - intros (r & [f0 Hrun] & Hstatus & _).
    exact (post_bfhl_served_only cfg op f0 r Hvalid (Hrun f0 (le_n _)) Hstatus).
  - intros zs -> Hsafe. destruct Hvalid as [Hzs _].
    destruct (lcmOfArray_ints zs Hzs Hsafe) as [f0 Hrun].
    exists f0, (Int (lcm_list zs)). now apply Hrun.
Qed.

Lemma valid_request_is_served_witness :
  valid_payload (OpLcm [9007199254740991; 9007199254740989])
  /\ ~ safe_products [9007199254740991; 9007199254740989]
  /\ exists r : response,
       (exists f0 : nat, forall fuel : nat, (f0 <= fuel)%nat ->
          post_bfhl no_credential fuel
            (request_body (OpLcm [9007199254740991; 9007199254740989]))
          = Some r)
       /\ status r = 200
       /\ field r (lit "is_success") = VBool true.
Proof.
  assert (Hvalid : valid_payload (OpLcm [9007199254740991; 9007199254740989])).
  { split; [repeat constructor | cbn; lia]. }
  assert (Hserved :
            served no_credential (OpLcm [9007199254740991; 9007199254740989])).
  { exists 10%nat. eexists. vm_compute. reflexivity. }
  split; [exact Hvalid |]. split.
  - intros [H _]. apply H. reflexivity.
  - exact (proj1 (proj1 (valid_request_is_served no_credential
                           (OpLcm [9007199254740991; 9007199254740989])
                           Hvalid)) Hserved).
Defined.

(** C1, as the specification states it, fails for the AI key: without a
    credential a valid question is answered with HTTP 503 and
    [is_success: false], for every step budget. *)
Lemma valid_AI_request_is_refused_without_credential :
  valid_payload (OpAI false (lit "capital of France"))
  /\ forall fuel : nat,
       exists r : response,
         post_bfhl no_credential fuel
           (request_body (OpAI false (lit "capital of France"))) = Some r
         /\ status r = 503
         /\ field r (lit "is_success") = VBool false.
Proof.
  split; [split; [reflexivity | cbn; lia] |].
  intros fuel. eexists. split; [reflexivity |]. split; reflexivity.
Qed.

(** C2, as the code has it.  For every request that selects the AI
    operation (key [AI] or [ai]) with a string question that is not blank
    and has at most 500 characters: if no credential is configured, or the
    provider call throws, or the response has no text or a blank text, the
    handler of [index.js] answers HTTP 503 with [is_success: false] and
    one fixed error message, whatever the provider reported. *)
Theorem unavailable_AI_is_one_fixed_response
  (cfg : config) (lowercase : bool) (q : jsstring) (fuel : nat) :
  blank q = false -> (length q <= 500)%nat -> ai_unavailable cfg (trim q) ->
  exists r : response,
    post_bfhl cfg fuel (request_body (OpAI lowercase q)) = Some r
    /\ r = failure cfg 503 unavailable_message
    /\ status r = 503
    /\ field r (lit "is_success") = VBool false
    /\ field r (lit "error") = VStr unavailable_message.
Proof.
  intros Hq Hlen Hun. exists (failure cfg 503 unavailable_message).
  split; [| repeat split].
  rewrite post_bfhl_AI. now rewrite case_AI_unavailable.
Qed.

Lemma unavailable_AI_is_one_fixed_response_witness :
  blank (lit " capital of France ") = false
  /\ ai_unavailable failing_provider (trim (lit " capital of France "))
  /\ exists r : response,
       post_bfhl failing_provider 0
         (request_body (OpAI true (lit " capital of France "))) = Some r
       /\ r = failure failing_provider 503 unavailable_message
       /\ status r = 503
       /\ field r (lit "is_success") = VBool false
       /\ field r (lit "error") = VStr unavailable_message.
Proof.
  split; [reflexivity |]. split; [exact I |].
  apply (unavailable_AI_is_one_fixed_response failing_provider true
           (lit " capital of France ") 0).
  - reflexivity.
  - cbn. lia.
  - exact I.
Defined.

(** C2, as the specification states it, fails: without a credential, a
    non-empty string question of 501 characters is answered with HTTP
    400, not 503
    (and so is a question made of white space only). *)
Lemma long_question_is_rejected_with_400 :
  long_question <> []
  /\ (forall fuel : nat,
        post_bfhl no_credential fuel
          (VObj [(lit "AI", VStr long_question)])
        = Some (failure no_credential 400 (lit "Question too long")))
  /\ (forall fuel : nat,
        post_bfhl no_credential fuel (VObj [(lit "AI", VStr (lit "   "))])
        = Some (failure no_credential 400
                  (lit "AI must receive a non-empty string question")))
  /\ status (failure no_credential 400 (lit "Question too long")) = 400.
Proof.
  split; [discriminate |]. split; [| split]; reflexivity.
Qed.

(* ================================================================= *)
(** ** Further properties *)

(** On every pair of sample doubles, [+], [-], [*], [/], [Math.abs], [<],
    [<=] and [===] of the number model give what the binary64 primitives
    give. *)
Lemma number_model_agrees_with_binary64 :
  forallb (fun a => forallb (Binary64.agree a) Binary64.samples)
    Binary64.samples = true.
Proof. vm_compute. reflexivity. Qed.

(** [isPrime(x)] is true exactly when the integer [x] is at least 2 and
    has no divisor other than 1 and itself; the loop always ends. *)
Lemma isPrime_decides_primality (z : Z) :
  double_integer z ->
  exists (b : bool) (f0 : nat),
    (forall fuel : nat, (f0 <= fuel)%nat -> isPrime fuel (Int z) = Some b)
    /\ (b = true <-> is_prime z).
Proof. apply isPrime_Int. Qed.

Lemma isPrime_decides_primality_witness :
  double_integer 97
  /\ exists (b : bool) (f0 : nat),
       (forall fuel : nat, (f0 <= fuel)%nat -> isPrime fuel (Int 97) = Some b)
       /\ (b = true <-> is_prime 97).
Proof.
  assert (H : double_integer 97) by (apply small_double_integer; reflexivity).
  split; [exact H | exact (isPrime_decides_primality 97 H)].
Defined.

(** Up to 79 entries every sum is below [2^53], and [fibonacci(n)] is the
    list of the first [n] Fibonacci numbers. *)
Lemma fibonacci_is_exact_up_to_79 (n : nat) :
  (n <= 79)%nat ->
  forall fuel : nat, (n <= fuel)%nat ->
    fibonacci fuel (Int (Z.of_nat n)) = Some (map Int (first_fibonacci n)).
Proof.
  intros Hn fuel Hfuel.
  destruct (fibonacci_spec (Z.of_nat n)) as (s & Hrun & _).
  { split; [lia |]. apply Z.le_lt_trans with 79; [lia | reflexivity]. }
  rewrite Hrun by lia. f_equal.
  assert (Hall : forallb
            (fun k => match fibonacci 79 (Int (Z.of_nat k)) with
                      | Some l =>
                          if list_eq_dec Z.eq_dec
                               (map (fun x => match x with Int z => z | _ => -1 end) l)
                               (first_fibonacci k)
                          then forallb isInteger l else false
                      | None => false
                      end) (seq 0 80) = true) by (vm_compute; reflexivity).
  rewrite forallb_forall in Hall. specialize (Hall n).
  rewrite Hrun in Hall by lia.
  specialize (Hall ltac:(apply in_seq; lia)).
  destruct (list_eq_dec _ _ _) as [E | _]; [| discriminate].
  rewrite <- E. clear E Hrun. induction s as [| x s IH]; [reflexivity |].
  cbn [forallb map] in *. apply andb_prop in Hall as [Hx Hs].
  destruct x; try discriminate. now rewrite <- IH.
Qed.

Lemma fibonacci_is_exact_up_to_79_witness :
  fibonacci 10 (Int 10)
  = Some (map Int [0; 1; 1; 2; 3; 5; 8; 13; 21; 34]).
Proof. apply (fibonacci_is_exact_up_to_79 10 ltac:(lia) 10%nat ltac:(lia)). Defined.

(** *** A valid payload that is never answered *)

Lemma rem_NaN (a : number) : rem a NaN = NaN.
Proof. destruct a; reflexivity. Qed.

Lemma gcd_loop_NaN (fuel : nat) : forall a : number, gcd_loop fuel a NaN = None.
Proof.
  induction fuel as [| fuel IH]; intros a; [reflexivity |].
  cbn [gcd_loop eqb negb]. rewrite rem_NaN. apply IH.
Qed.

Lemma gcd_of_infinity (fuel : nat) (z : Z) :
  z <> 0 -> gcd fuel PInf (Int z) = None.
Proof.
  intros Hz. unfold gcd. cbn [abs]. destruct fuel as [| fuel]; [reflexivity |].
  cbn [gcd_loop]. rewrite eqb_Int.
  destruct (Z.eqb_spec (Z.abs z) 0); [lia |]. cbn [negb].
  replace (rem PInf (Int (Z.abs z))) with NaN by (destruct (Z.abs z); reflexivity).
  apply gcd_loop_NaN.
Qed.

Lemma gcd_Int_any_fuel (fuel : nat) (a b : Z) (g : number) :
  gcd fuel (Int a) (Int b) = Some g -> g = Int (Z.gcd a b).
Proof.
  intros H. unfold gcd in H.
  apply (gcd_loop_mono fuel (Nat.max fuel (S (Z.to_nat (Z.abs b))))) in H;
    [| lia].
  fold (gcd (Nat.max fuel (S (Z.to_nat (Z.abs b)))) (Int a) (Int b)) in H.
  rewrite gcd_Int in H by lia. now injection H as <-.
Qed.

(** The array [[1e308, 10, 3]] passes the validation of the [lcm] key, its
    elements being positive integers.  The first product overflows to
    [Infinity]; in the next call of [gcd], [Infinity % 3] is NaN, and
    [while (b !== 0)] never ends on NaN: no step budget yields a
    response. *)
Lemma lcm_of_huge_integers_is_never_answered :
  valid_payload (OpLcm [near_1e308; 10; 3])
  /\ Forall double_integer [near_1e308; 10; 3]
  /\ forall (cfg : config) (fuel : nat),
       post_bfhl cfg fuel (request_body (OpLcm [near_1e308; 10; 3])) = None.
Proof.
  split; [| split].
  - split; [repeat constructor | cbn; lia].
  - constructor; [| repeat constructor; apply small_double_integer; reflexivity].
    exists (near_1e308 / 2 ^ 971), 971.
    split; [vm_compute; reflexivity |]. split; [vm_compute; reflexivity | lia].
  - intros cfg fuel. rewrite post_bfhl_lcm. unfold case_lcm.
    change (ints [near_1e308; 10; 3])
      with (VArr (map int_value [near_1e308; 10; 3])) at 1.
    cbv iota. rewrite filter_positive_all by (repeat constructor).
    rewrite Nat.eqb_refl. cbn [negb length map Nat.ltb Nat.leb].
    replace (lcmOfArray fuel (ints [near_1e308; 10; 3])) with (@None number);
      [reflexivity |].
    unfold lcmOfArray, ints.
    rewrite filter_positive_all, number_of_ints by (repeat constructor).
    cbn [map fold_opt]. unfold lcm_step at 1.
    destruct (gcd fuel (Int near_1e308) (Int 10)) as [g |] eqn:Hg;
      [| reflexivity].
    apply gcd_Int_any_fuel in Hg. subst g. cbn [bind].
    replace (div (mul (Int near_1e308) (Int 10)) (Int (Z.gcd near_1e308 10)))
      with PInf by (vm_compute; reflexivity).
    unfold lcm_step. now rewrite gcd_of_infinity.
Qed.

(* ================================================================= *)
(** ** Further properties of the helpers *)

(** *** [hcfOfArray] and [lcmOfArray] on arbitrary arrays *)

Lemma fold_gcd_greatest (rest : list Z) :
  forall first d : Z,
    Forall (fun z => (d | z)) (first :: rest) ->
    (d | fold_left Z.gcd rest first).
Proof.
  induction rest as [| z rest IH]; intros first d Hall; cbn [fold_left].
  - now inversion Hall.
  - inversion Hall as [| ? ? Hfirst Hrest]; subst.
    inversion Hrest as [| ? ? Hz Hrest']; subst.
    apply IH. constructor; [now apply Z.gcd_greatest | assumption].
Qed.

Lemma positive_integers_filter (elems : list value) :
  map number_of (filter positive_integer elems)
  = map Int (positive_integers elems).
Proof.
  induction elems as [| v elems IH]; [reflexivity |].
  cbn [filter positive_integers].
  destruct v as [| | ? | [z | | | |] | | |]; try exact IH.
  change (positive_integer (VNum (Int z))) with (0 <? z).
  destruct (0 <? z); [| exact IH]. cbn [map number_of]. now rewrite IH.
Qed.

Lemma positive_integers_positive (elems : list value) :
  Forall (fun z => 0 < z) (positive_integers elems).
Proof.
  induction elems as [| v elems IH]; [constructor |].
  cbn [positive_integers].
  destruct v as [| | ? | [z | | | |] | | |]; try exact IH.
  destruct (Z.ltb_spec 0 z); [constructor; assumption | exact IH].
Qed.

Lemma positive_integers_ints (zs : list Z) :
  Forall (fun z => 0 < z) zs -> positive_integers (map int_value zs) = zs.
Proof.
  induction 1 as [| z zs Hz _ IH]; [reflexivity |].
  cbn [map positive_integers int_value].
  destruct (Z.ltb_spec 0 z); [now rewrite IH | lia].
Qed.

Lemma hcfOfArray_any (elems : list value) :
  exists f0 : nat, forall fuel : nat, (f0 <= fuel)%nat ->
    hcfOfArray fuel (VArr elems)
    = Some (Int (hcf_list (positive_integers elems))).
Proof.
  destruct (enough_fuel (positive_integers elems)) as [f0 Hf0]. exists f0.
  intros fuel Hfuel. specialize (Hf0 fuel Hfuel).
  unfold hcfOfArray. rewrite positive_integers_filter.
  destruct (positive_integers elems) as [| z rest]; [reflexivity |].
  cbn [map hcf_list]. apply hcf_fold_Int. now inversion Hf0.
Qed.

Lemma lcmOfArray_any (elems : list value) :
  safe_products (positive_integers elems) ->
  exists f0 : nat, forall fuel : nat, (f0 <= fuel)%nat ->
    lcmOfArray fuel (VArr elems)
    = Some (Int (lcm_list (positive_integers elems))).
Proof.
  intros Hsafe.
  pose proof (positive_integers_positive elems) as Hpos.
  destruct (enough_fuel (positive_integers elems)) as [f0 Hf0]. exists f0.
  intros fuel Hfuel. specialize (Hf0 fuel Hfuel).
  unfold lcmOfArray. rewrite positive_integers_filter.
  destruct (positive_integers elems) as [| z rest]; [reflexivity |].
  cbn [map lcm_list]. inversion Hpos; subst. inversion Hf0; subst.
  now apply lcm_fold_Int.
Qed.

(** [hcfOfArray] of [index.js] is total on arrays of arbitrary JSON
    values: the elements that are not strictly positive integers are
    ignored, and the result is the greatest common divisor of the others
    (0 when there is none).  [lcmOfArray] likewise returns their least
    common multiple, as long as the products of the fold stay at or below
    [2^53]. *)
Theorem array_helpers_ignore_invalid_elements (elems : list value) :
  (exists f0 : nat, forall fuel : nat, (f0 <= fuel)%nat ->
     hcfOfArray fuel (VArr elems)
     = Some (Int (hcf_list (positive_integers elems))))
  /\ Forall (fun z => (hcf_list (positive_integers elems) | z))
       (positive_integers elems)
  /\ (safe_products (positive_integers elems) ->
      (exists f0 : nat, forall fuel : nat, (f0 <= fuel)%nat ->
         lcmOfArray fuel (VArr elems)
         = Some (Int (lcm_list (positive_integers elems))))
      /\ Forall (fun z => (z | lcm_list (positive_integers elems)))
           (positive_integers elems)).
Proof.
  split; [apply hcfOfArray_any |]. split; [apply hcf_list_divides |].
  intros Hsafe. split; [now apply lcmOfArray_any | apply lcm_list_multiple].
Qed.

Lemma array_helpers_ignore_invalid_elements_witness :
  (exists f0 : nat, forall fuel : nat, (f0 <= fuel)%nat ->
     lcmOfArray fuel
       (VArr [int_value 4; VStr (lit "6"); int_value 0; VNull;
              VNum (Frac (5 # 2)); int_value (-9); int_value 6])
     = Some (Int (lcm_list [4; 6])))
  /\ Forall (fun z => (z | lcm_list [4; 6])) [4; 6].
Proof.
  apply (proj2 (proj2 (array_helpers_ignore_invalid_elements
           [int_value 4; VStr (lit "6"); int_value 0; VNull;
            VNum (Frac (5 # 2)); int_value (-9); int_value 6]))).
  cbn. unfold two53. lia.
Defined.

(** For every non-empty array of strictly positive integers, the value
    [hcfOfArray] returns is the greatest common divisor: every integer
    that divides all the elements divides it. *)
Theorem hcfOfArray_is_greatest (zs : list Z) :
  zs <> [] -> Forall (fun z => 0 < z) zs ->
  exists g : Z,
    (exists f0 : nat, forall fuel : nat, (f0 <= fuel)%nat ->
       hcfOfArray fuel (ints zs) = Some (Int g))
    /\ (forall d : Z, Forall (fun z => (d | z)) zs -> (d | g))
    /\ (forall d : Z, Forall (fun z => (d | z)) zs -> d <= g).
Proof.
  intros Hne Hpos. exists (hcf_list zs).
  split; [now apply hcfOfArray_ints |].
  destruct zs as [| z rest]; [congruence |]. cbn [hcf_list].
  assert (Hg : 0 < fold_left Z.gcd rest z).
  { apply fold_gcd_pos. now inversion Hpos. }
  split.
  - intros d Hd. now apply fold_gcd_greatest.
  - intros d Hd. apply Z.divide_pos_le; [assumption |].
    now apply fold_gcd_greatest.
Qed.

Lemma hcfOfArray_is_greatest_witness :
  exists g : Z,
    (exists f0 : nat, forall fuel : nat, (f0 <= fuel)%nat ->
       hcfOfArray fuel (ints [24; 36; 60]) = Some (Int g))
    /\ (forall d : Z, Forall (fun z => (d | z)) [24; 36; 60] -> (d | g))
    /\ (forall d : Z, Forall (fun z => (d | z)) [24; 36; 60] -> d <= g).
Proof.
  apply (hcfOfArray_is_greatest [24; 36; 60]).
  - discriminate.
  - repeat constructor.
Defined.

(** For two strictly positive integers whose product is at most [2^53],
    the product of what [lcmOfArray] and [hcfOfArray] return on the pair
    is the product of the two integers. *)
Theorem lcm_times_hcf_is_the_product (a b : Z) :
  0 < a -> 0 < b -> a * b <= two53 ->
  exists l h : Z,
    (exists f0 : nat, forall fuel : nat, (f0 <= fuel)%nat ->
       lcmOfArray fuel (ints [a; b]) = Some (Int l)
       /\ hcfOfArray fuel (ints [a; b]) = Some (Int h))
    /\ l * h = a * b.
Proof.
  intros Ha Hb Hsafe. exists (Z.lcm a b), (Z.gcd a b). split.
  - destruct (lcmOfArray_ints [a; b]) as [f1 Hl];
      [repeat constructor; assumption | cbn; auto |].
    destruct (hcfOfArray_ints [a; b]) as [f2 Hh];
      [repeat constructor; assumption |].
    exists (Nat.max f1 f2). intros fuel Hfuel.
    split; [apply Hl | apply Hh]; lia.
  - destruct (lcm_as_quotient a b Ha Hb) as (Hrem & Hquot & _).
    pose proof (Z.quot_rem' (a * b) (Z.gcd a b)) as Hdiv.
    rewrite Hrem, Hquot in Hdiv. lia.
Qed.

Lemma lcm_times_hcf_is_the_product_witness :
  exists l h : Z,
    (exists f0 : nat, forall fuel : nat, (f0 <= fuel)%nat ->
       lcmOfArray fuel (ints [12; 18]) = Some (Int l)
       /\ hcfOfArray fuel (ints [12; 18]) = Some (Int h))
    /\ l * h = 12 * 18.
Proof.
  apply (lcm_times_hcf_is_the_product 12 18); [lia | lia |].
  unfold two53. lia.
Defined.

(** *** [filterPrimes] composes *)

Lemma Filtered_functional {A : Type} (P : A -> Prop) (l r1 r2 : list A) :
  Filtered P l r1 -> Filtered P l r2 -> r1 = r2.
Proof.
  intros H1. revert r2.
  induction H1 as [| x l r HP _ IH | x l r HP _ IH]; intros r2 H2;
    inversion H2; subst; try contradiction; auto.
  f_equal. now apply IH.
Qed.

Lemma Filtered_all {A : Type} (P : A -> Prop) (l : list A) :
  Forall P l -> Filtered P l l.
Proof. induction 1; constructor; assumption. Qed.

Lemma Filtered_app {A : Type} (P : A -> Prop) (l1 l2 r1 r2 : list A) :
  Filtered P l1 r1 -> Filtered P l2 r2 -> Filtered P (l1 ++ l2) (r1 ++ r2).
Proof. induction 1; intros H2; cbn [app]; try constructor; auto. Qed.

Lemma Filtered_Forall {A : Type} (P : A -> Prop) (l r : list A) :
  Filtered P l r -> Forall P r.
Proof. induction 1; try constructor; assumption. Qed.

(** [filterPrimes] is idempotent and distributes over concatenation:
    filtering its result again changes nothing, and the primes of
    [a.concat(b)] are those of [a] followed by those of [b]. *)
Theorem filterPrimes_composes (a b : list value) :
  (forall z : Z, In (int_value z) (a ++ b) -> double_integer z) ->
  exists ra rb : list value,
    (exists f0 : nat, forall fuel : nat, (f0 <= fuel)%nat ->
       filterPrimes fuel (VArr a) = Some ra
       /\ filterPrimes fuel (VArr b) = Some rb
       /\ filterPrimes fuel (VArr (a ++ b)) = Some (ra ++ rb)
       /\ filterPrimes fuel (VArr ra) = Some ra).
Proof.
  intros Hdouble.
  assert (Ha : forall z, In (int_value z) a -> double_integer z).
  { intros z Hz. apply Hdouble, in_or_app. now left. }
  assert (Hb : forall z, In (int_value z) b -> double_integer z).
  { intros z Hz. apply Hdouble, in_or_app. now right. }
  destruct (filterPrimes_Filtered a Ha) as (ra & fa & Hra & Fa).
  destruct (filterPrimes_Filtered b Hb) as (rb & fb & Hrb & Fb).
  destruct (filterPrimes_Filtered (a ++ b) Hdouble) as (rab & fab & Hrab & Fab).
  assert (Hra' : forall z, In (int_value z) ra -> double_integer z).
  { intros z Hz. apply Ha. now apply (Filtered_In _ _ _ Fa). }
  destruct (filterPrimes_Filtered ra Hra') as (rr & fr & Hrr & Fr).
  assert (rab = ra ++ rb) as ->.
  { eapply Filtered_functional; [exact Fab | now apply Filtered_app]. }
  assert (rr = ra) as ->.
  { eapply Filtered_functional; [exact Fr |].
    apply Filtered_all. now apply Filtered_Forall with a. }
  exists ra, rb, (Nat.max (Nat.max fa fb) (Nat.max fab fr)).
  intros fuel Hfuel. repeat split; [apply Hra | apply Hrb | apply Hrab | apply Hrr];
    lia.
Qed.

Lemma filterPrimes_composes_witness :
  exists ra rb : list value,
    (exists f0 : nat, forall fuel : nat, (f0 <= fuel)%nat ->
       filterPrimes fuel (VArr [int_value 2; int_value 4; VNull]) = Some ra
       /\ filterPrimes fuel (VArr [int_value 9; int_value 11]) = Some rb
       /\ filterPrimes fuel
            (VArr ([int_value 2; int_value 4; VNull]
                   ++ [int_value 9; int_value 11]))
          = Some (ra ++ rb)
       /\ filterPrimes fuel (VArr ra) = Some ra).
Proof.
  apply (filterPrimes_composes [int_value 2; int_value 4; VNull]
           [int_value 9; int_value 11]).
  intros z Hz. apply small_double_integer. cbn [app] in Hz.
  repeat (destruct Hz as [Hz | Hz]; [inversion Hz; subst; reflexivity |]).
  destruct Hz.
Defined.

(** *** [fibonacci] grows by extension *)

(** For [0 <= m <= n] with [n] below [2^32], the length no array
    reaches, [fibonacci(m)] is the list of the first [m] entries of
    [fibonacci(n)]. *)
Theorem fibonacci_extends (m n : Z) :
  0 <= m <= n -> n < two32 ->
  exists sm sn : list number,
    (forall fuel : nat, (Z.to_nat m <= fuel)%nat ->
       fibonacci fuel (Int m) = Some sm)
    /\ (forall fuel : nat, (Z.to_nat n <= fuel)%nat ->
          fibonacci fuel (Int n) = Some sn)
    /\ sm = firstn (Z.to_nat m) sn.
Proof. apply fibonacci_prefix. Qed.

Lemma fibonacci_extends_witness :
  exists sm sn : list number,
    (forall fuel : nat, (Z.to_nat 5 <= fuel)%nat ->
       fibonacci fuel (Int 5) = Some sm)
    /\ (forall fuel : nat, (Z.to_nat 90 <= fuel)%nat ->
          fibonacci fuel (Int 90) = Some sn)
    /\ sm = firstn (Z.to_nat 5) sn.
Proof. apply (fibonacci_extends 5 90); [lia | reflexivity]. Defined.

(** *** Within the bound of the handler [fibonacci] stays finite *)

Lemma nondecreasing_firstn (l : list number) :
  forall k : nat, nondecreasing l = true -> nondecreasing (firstn k l) = true.
Proof.
  induction l as [| x l IH]; intros k H; [now destruct k |].
  destruct k as [| k]; [reflexivity |]. cbn [firstn].
  cbn [nondecreasing] in H. apply andb_prop in H as [Hxy Hl].
  cbn [nondecreasing]. rewrite (IH k Hl), andb_true_r.
  destruct l as [| y l]; [now destruct k |].
  destruct k as [| k]; [reflexivity | exact Hxy].
Qed.

Lemma nondecreasing_nth (l : list number) :
  nondecreasing l = true ->
  forall i : nat, (S i < length l)%nat ->
    leb (nth i l NaN) (nth (S i) l NaN) = true.
Proof.
  induction l as [| x l IH]; intros H i Hi; [cbn in Hi; lia |].
  cbn [nondecreasing] in H. apply andb_prop in H as [Hxy Hl].
  destruct i as [| i].
  - destruct l as [| y l]; [cbn in Hi; lia | exact Hxy].
  - cbn [nth]. apply IH; [assumption | cbn [length] in Hi; lia].
Qed.

Lemma natural_entries_firstn (l : list number) :
  forall k : nat,
    forallb natural_entry l = true ->
    Forall (fun x => exists z : Z, x = Int z /\ 0 <= z) (firstn k l).
Proof.
  induction l as [| x l IH]; intros k H; [destruct k; constructor |].
  destruct k as [| k]; [constructor |]. cbn [firstn].
  cbn [forallb] in H. apply andb_prop in H as [Hx Hl].
  constructor; [| now apply IH].
  destruct x; try discriminate. exists z. split; [reflexivity |].
  now apply Z.leb_le.
Qed.

(** For every [n] the handler lets through ([0 <= n <= 1000]), the
    entries of [fibonacci(n)] are non-negative integers (no sum overflows
    to [Infinity], none is NaN), and consecutive entries satisfy
    [f[i] <= f[i+1]]. *)
Theorem fibonacci_stays_finite (n : Z) :
  0 <= n <= 1000 ->
  exists s : list number,
    (forall fuel : nat, (Z.to_nat n <= fuel)%nat ->
       fibonacci fuel (Int n) = Some s)
    /\ Forall (fun x => exists z : Z, x = Int z /\ 0 <= z) s
    /\ (forall i : nat, (S i < length s)%nat ->
          leb (nth i s NaN) (nth (S i) s NaN) = true).
Proof.
  intros Hn.
  destruct (fibonacci_prefix n 1000) as (s & s1000 & Hs & Hs1000 & ->);
    [lia | reflexivity |].
  assert (Hcheck : match fibonacci 1000 (Int 1000) with
                   | Some l => forallb natural_entry l && nondecreasing l
                   | None => false
                   end = true) by (vm_compute; reflexivity).
  rewrite (Hs1000 1000%nat) in Hcheck by (cbn; lia).
  apply andb_prop in Hcheck as [Hentries Hsorted].
  exists (firstn (Z.to_nat n) s1000). split; [assumption |]. split.
  - now apply natural_entries_firstn.
  - apply nondecreasing_nth. now apply nondecreasing_firstn.
Qed.

Lemma fibonacci_stays_finite_witness :
  exists s : list number,
    (forall fuel : nat, (Z.to_nat 1000 <= fuel)%nat ->
       fibonacci fuel (Int 1000) = Some s)
    /\ Forall (fun x => exists z : Z, x = Int z /\ 0 <= z) s
    /\ (forall i : nat, (S i < length s)%nat ->
          leb (nth i s NaN) (nth (S i) s NaN) = true).
Proof. apply (fibonacci_stays_finite 1000). lia. Defined.

(* ================================================================= *)
(** ** Further properties of the AI bridge *)

Lemma trim_start_suffix (s : jsstring) :
  exists pre : jsstring, s = pre ++ trim_start s.
Proof.
  induction s as [| c s [pre IH]]; [now exists [] |].
  cbn [trim_start]. destruct (is_white_space c).
  - exists (c :: pre). cbn [app]. now rewrite <- IH.
  - now exists [].
Qed.

Lemma trim_start_head (s : jsstring) (c : N) (t : jsstring) :
  trim_start s = c :: t -> is_white_space c = false.
Proof.
  induction s as [| d s IH]; [discriminate |]. cbn [trim_start].
  destruct (is_white_space d) eqn:Hd; [exact IH |].
  now intros [= <- _].
Qed.

(** A trimmed string is a prefix of the string without its leading white
    space; so it does not begin with white space. *)
Lemma trim_head (s : jsstring) (c : N) (t : jsstring) :
  trim s = c :: t -> is_white_space c = false.
Proof.
  unfold trim. intros H.
  destruct (trim_start_suffix (rev (trim_start s))) as [pre Hpre].
  apply (f_equal (@rev N)) in Hpre.
  rewrite rev_involutive, rev_app_distr, H in Hpre.
  cbn [app] in Hpre. now apply (trim_start_head s c (t ++ rev pre)).
Qed.

Lemma first_token_no_white_space (s : jsstring) :
  forallb (fun c => negb (is_white_space c)) (first_token s) = true.
Proof.
  induction s as [| c s IH]; [reflexivity |]. cbn [first_token].
  destruct (is_white_space c) eqn:Hc; [reflexivity |].
  cbn [forallb]. now rewrite Hc, IH.
Qed.

Lemma first_token_prefix (s : jsstring) :
  exists rest : jsstring, s = first_token s ++ rest.
Proof.
  induction s as [| c s [rest IH]]; [now exists [] |]. cbn [first_token].
  destruct (is_white_space c); [now exists (c :: s) |].
  exists rest. cbn [app]. now rewrite <- IH.
Qed.

Lemma first_word_is_one_word (g : generation) (w : jsstring) :
  first_word g = VStr w ->
  w <> []
  /\ forallb (fun c => negb (is_white_space c)) w = true
  /\ exists t rest : jsstring, g = Responds (Some t) /\ trim t = w ++ rest.
Proof.
  destruct g as [message | [t |]]; cbn [first_word]; try discriminate.
  destruct (trim t) as [| c s] eqn:Htrim; [discriminate |].
  cbn [truthy]. intros [= <-].
  pose proof (trim_head t c s Htrim) as Hc.
  split; [cbn [first_token]; rewrite Hc; discriminate |].
  split; [exact (first_token_no_white_space (c :: s)) |].
  exists t. destruct (first_token_prefix (c :: s)) as [rest Hrest].
  exists rest. split; [reflexivity |]. now rewrite Htrim.
Qed.

(** Whatever the provider returns, an answer of [getAIResponse] (in both
    variants) is one word: a non-empty string without white space, the
    beginning of the trimmed text of the provider's response. *)
Theorem AI_answer_is_one_word (cfg : config) (question : value)
  (w : jsstring) :
  getAIResponse cfg question = VStr w
  \/ Variant.getAIResponse cfg question = VStr w ->
  w <> []
  /\ forallb (fun c => negb (is_white_space c)) w = true
  /\ exists (generate : jsstring -> generation) (q t rest : jsstring),
       genAI cfg = Some generate
       /\ question = VStr q
       /\ (generate (q ++ prompt_suffix) = Responds (Some t)
           \/ generate (q ++ Variant.prompt_suffix) = Responds (Some t))
       /\ trim t = w ++ rest.
Proof.
  unfold getAIResponse, Variant.getAIResponse.
  destruct (genAI cfg) as [generate |]; [| intros [H | H]; discriminate].
  destruct question as [| | | | q | |]; try (intros [H | H]; discriminate).
  destruct (negb (truthy (VStr q))); [intros [H | H]; discriminate |].
  intros [H | H];
    destruct (first_word_is_one_word _ w H) as (Hne & Hws & t & rest & Hg & Ht);
    (split; [assumption |]); (split; [assumption |]);
    exists generate, q, t, rest; auto.
Qed.

Lemma AI_answer_is_one_word_witness :
  getAIResponse talkative_provider (VStr (lit "Capital of Maharashtra?"))
  = VStr (lit "Mumbai")
  /\ lit "Mumbai" <> []
  /\ forallb (fun c => negb (is_white_space c)) (lit "Mumbai") = true
  /\ exists (generate : jsstring -> generation) (q t rest : jsstring),
       genAI talkative_provider = Some generate
       /\ VStr (lit "Capital of Maharashtra?") = VStr q
       /\ (generate (q ++ prompt_suffix) = Responds (Some t)
           \/ generate (q ++ Variant.prompt_suffix) = Responds (Some t))
       /\ trim t = lit "Mumbai" ++ rest.
Proof.
  split; [reflexivity |].
  apply (AI_answer_is_one_word talkative_provider
           (VStr (lit "Capital of Maharashtra?")) (lit "Mumbai")).
  left. reflexivity.
Defined.

(* ================================================================= *)
(** ** When [gcd] does not return *)

Lemma gcd_loop_after_infinity (fuel : nat) (a : number) :
  a <> Int 0 -> gcd_loop fuel PInf a = None.
Proof.
  intros Ha. destruct fuel as [| fuel]; [reflexivity |]. cbn [gcd_loop].
  destruct a as [z | q | | |].
  - rewrite eqb_Int. destruct (Z.eqb_spec z 0) as [-> | Hz]; [congruence |].
    cbn [negb]. replace (rem PInf (Int z)) with NaN by (destruct z; reflexivity).
    apply gcd_loop_NaN.
  - cbn [eqb negb rem]. apply gcd_loop_NaN.
  - cbn [eqb negb rem]. apply gcd_loop_NaN.
  - cbn [eqb negb rem]. apply gcd_loop_NaN.
  - cbn [eqb negb rem]. apply gcd_loop_NaN.
Qed.

Lemma abs_not_zero (x : number) : x <> Int 0 -> abs x <> Int 0.
Proof. destruct x as [z | | | |]; cbn [abs]; try discriminate.
  intros H [= E]. apply H. f_equal. lia. Qed.

(** [gcd] never returns when one of its arguments is NaN or infinite and
    neither is zero: the remainder becomes NaN, and [while (b !== 0)]
    does not end on NaN.  (With a zero, [gcd(NaN, 0)] is NaN and
    [gcd(0, NaN)] never returns either.) *)
Theorem gcd_never_returns_on_NaN_or_infinity (a b : number) :
  not_finite a \/ not_finite b -> a <> Int 0 -> b <> Int 0 ->
  (forall fuel : nat, gcd fuel a b = None)
  /\ (forall fuel : nat, gcd fuel (Int 0) NaN = None)
  /\ (forall fuel : nat, gcd (S fuel) NaN (Int 0) = Some NaN).
Proof.
  intros Hnf Ha Hb. split; [| split; [| reflexivity]].
  - intros fuel. unfold gcd.
    pose proof (abs_not_zero a Ha) as Ha'.
    pose proof (abs_not_zero b Hb) as Hb'.
    assert (Hcases : abs b = NaN \/ abs b = PInf
                     \/ ((abs a = NaN \/ abs a = PInf)
                         /\ ((exists z, abs b = Int z)
                             \/ (exists q, abs b = Frac q)))).
    { destruct Hnf as [[-> | [-> | ->]] | [-> | [-> | ->]]]; cbn [abs]; auto;
        destruct b; cbn [abs]; eauto 8. }
    destruct Hcases as [-> | [-> | [Hna Hbz]]].
    + apply gcd_loop_NaN.
    + destruct fuel as [| fuel]; [reflexivity |]. cbn [gcd_loop eqb negb].
      destruct (abs a) as [za | qa | | |] eqn:Eabs.
      * cbn [rem]. now apply gcd_loop_after_infinity.
      * cbn [rem]. apply gcd_loop_after_infinity. discriminate.
      * cbn [rem]. apply gcd_loop_NaN.
      * destruct a; discriminate.
      * cbn [rem]. apply gcd_loop_NaN.
    + destruct fuel as [| fuel]; [reflexivity |]. cbn [gcd_loop].
      destruct Hbz as [[z Hbz] | [q Hbz]]; rewrite Hbz in *.
      * rewrite eqb_Int. destruct (Z.eqb_spec z 0) as [-> | Hz]; [congruence |].
        cbn [negb].
        replace (rem (abs a) (Int z)) with NaN
          by (destruct Hna as [-> | ->]; destruct z; reflexivity).
        apply gcd_loop_NaN.
      * cbn [eqb negb].
        replace (rem (abs a) (Frac q)) with NaN
          by (destruct Hna as [-> | ->]; reflexivity).
        apply gcd_loop_NaN.
  - intros fuel. unfold gcd. cbn [abs]. apply gcd_loop_NaN.
Qed.

Lemma gcd_never_returns_on_NaN_or_infinity_witness :
  (forall fuel : nat, gcd fuel PInf (Int 3) = None)
  /\ (forall fuel : nat, gcd fuel (Int 0) NaN = None)
  /\ (forall fuel : nat, gcd (S fuel) NaN (Int 0) = Some NaN).
Proof.
  apply (gcd_never_returns_on_NaN_or_infinity PInf (Int 3)).
  - left. right. left. reflexivity.
  - discriminate.
  - discriminate.
Defined.

(* ================================================================= *)
(** ** Further properties of the handlers *)

(** *** Statuses *)

Ltac answering :=
  intros; subst;
  match goal with
  | H : Some _ = Some _ |- _ => injection H as <-
  | H : None = Some _ |- _ => discriminate H
  end;
  first [left; eexists; reflexivity | right; eexists; reflexivity].

Lemma case_fibonacci_plain (cfg : config) (fuel : nat) (val : value)
  (r : response) :
  case_fibonacci cfg fuel val = Some r -> plain_answer cfg r.
Proof.
  unfold case_fibonacci, plain_answer. destruct (_ || _); [answering |].
  destruct (fibonacci fuel (number_of val)); cbn [bind]; answering.
Qed.

Lemma case_prime_plain (cfg : config) (fuel : nat) (arr : value)
  (r : response) :
  case_prime cfg fuel arr = Some r -> plain_answer cfg r.
Proof.
  unfold case_prime, plain_answer. destruct arr; try answering.
  destruct (negb _); [answering |]. destruct (_ <? _)%nat; [answering |].
  destruct (filterPrimes fuel (VArr elems)); cbn [bind]; answering.
Qed.

Lemma case_lcm_plain (cfg : config) (fuel : nat) (arr : value)
  (r : response) :
  case_lcm cfg fuel arr = Some r -> plain_answer cfg r.
Proof.
  unfold case_lcm, plain_answer. destruct arr; try answering.
  destruct (negb _); [answering |]. destruct (_ <? _)%nat; [answering |].
  destruct (lcmOfArray fuel (VArr elems)); cbn [bind]; answering.
Qed.

Lemma case_hcf_plain (cfg : config) (fuel : nat) (arr : value)
  (r : response) :
  case_hcf cfg fuel arr = Some r -> plain_answer cfg r.
Proof.
  unfold case_hcf, plain_answer. destruct arr; try answering.
  destruct (negb _); [answering |]. destruct (_ <? _)%nat; [answering |].
  destruct (hcfOfArray fuel (VArr elems)); cbn [bind]; answering.
Qed.

Lemma case_AI_answer (cfg : config) (question : value) :
  plain_answer cfg (case_AI cfg question)
  \/ case_AI cfg question = failure cfg 503 unavailable_message.
Proof.
  unfold case_AI, plain_answer.
  destruct question; try (left; right; eexists; reflexivity).
  destruct (_ =? _)%nat; [left; right; eexists; reflexivity |].
  destruct (_ <? _)%nat; [left; right; eexists; reflexivity |].
  destruct (getAIResponse_cases cfg (VStr (trim s))) as [-> | [w ->]];
    [now right | left; left; eexists; reflexivity].
Qed.

Lemma plain_answer_status (cfg : config) (r : response) :
  plain_answer cfg r ->
  (status r = 200 /\ field r (lit "is_success") = VBool true)
  \/ (status r = 400 /\ field r (lit "is_success") = VBool false).
Proof. intros [[data ->] | [message ->]]; [left | right]; now split. Qed.

Lemma post_bfhl_answer (cfg : config) (fuel : nat) (body : value)
  (r : response) :
  post_bfhl cfg fuel body = Some r ->
  plain_answer cfg r
  \/ (r = failure cfg 503 unavailable_message
      /\ exists k : jsstring,
           provided_key body = Some k /\ normalize_key k = lit "AI").
Proof.
  unfold post_bfhl.
  destruct (_ || _); [intros [= <-]; left; right; eexists; reflexivity |].
  destruct (provided_key body) as [k |] eqn:Hk;
    [| intros [= <-]; left; right; eexists; reflexivity].
  unfold dispatch.
  destruct (str_eqb _ _); [left; eapply case_fibonacci_plain; eassumption |].
  destruct (str_eqb _ _); [left; eapply case_prime_plain; eassumption |].
  destruct (str_eqb _ _); [left; eapply case_lcm_plain; eassumption |].
  destruct (str_eqb _ _); [left; eapply case_hcf_plain; eassumption |].
  destruct (str_eqb _ _) eqn:HAI;
    [| intros [= <-]; left; right; eexists; reflexivity].
  apply str_eqb_eq in HAI. intros [= <-].
  destruct (case_AI_answer cfg
              (nullish_or (get_prop body (normalize_key k))
                 (get_prop body (lit "ai")))) as [H | H]; [now left |].
  right. split; [assumption |]. now exists k.
Qed.

(** On a decoded body, a response that the callback of [POST /bfhl] in
    [index.js] sends from its [try] block has status 200, 400 or 503; the
    status is 200 exactly when [is_success] is true; and 503 is only
    sent, with its one fixed message, for the AI operation.  (The 500 of
    the [catch] branch and of the error middleware, which answers a body
    that is not valid JSON, are not responses of the [try] block.) *)
Theorem status_follows_the_outcome (cfg : config) (fuel : nat)
  (body : value) (r : response) :
  post_bfhl cfg fuel body = Some r ->
  ((status r = 200 /\ field r (lit "is_success") = VBool true)
   \/ (status r = 400 /\ field r (lit "is_success") = VBool false)
   \/ (status r = 503 /\ field r (lit "is_success") = VBool false))
  /\ (status r = 503 ->
      r = failure cfg 503 unavailable_message
      /\ exists k : jsstring,
           provided_key body = Some k /\ normalize_key k = lit "AI").
Proof.
  intros Hr. destruct (post_bfhl_answer cfg fuel body r Hr) as [H | [-> Hk]].
  - apply plain_answer_status in H. split; [tauto |].
    intros H503. destruct H as [[E _] | [E _]]; rewrite E in H503; discriminate.
  - split; [right; right; now split | now intros _].
Qed.

Lemma status_follows_the_outcome_witness :
  post_bfhl failing_provider 0 (request_body (OpAI true (lit "why?")))
  = Some (failure failing_provider 503 unavailable_message)
  /\ ((status (failure failing_provider 503 unavailable_message) = 200
       /\ field (failure failing_provider 503 unavailable_message)
            (lit "is_success") = VBool true)
      \/ (status (failure failing_provider 503 unavailable_message) = 400
          /\ field (failure failing_provider 503 unavailable_message)
               (lit "is_success") = VBool false)
      \/ (status (failure failing_provider 503 unavailable_message) = 503
          /\ field (failure failing_provider 503 unavailable_message)
               (lit "is_success") = VBool false))
  /\ (status (failure failing_provider 503 unavailable_message) = 503 ->
      failure failing_provider 503 unavailable_message
      = failure failing_provider 503 unavailable_message
      /\ exists k : jsstring,
           provided_key (request_body (OpAI true (lit "why?"))) = Some k
           /\ normalize_key k = lit "AI").
Proof.
  split; [reflexivity |].
  apply (status_follows_the_outcome failing_provider 0
           (request_body (OpAI true (lit "why?")))).
  reflexivity.
Defined.

(** *** Validation of the payloads *)

Lemma post_bfhl_one_key_fibonacci (cfg : config) (fuel : nat) (v : value) :
  post_bfhl cfg fuel (VObj [(lit "fibonacci", v)]) = case_fibonacci cfg fuel v.
Proof. reflexivity. Qed.

Lemma post_bfhl_one_key_prime (cfg : config) (fuel : nat) (v : value) :
  post_bfhl cfg fuel (VObj [(lit "prime", v)]) = case_prime cfg fuel v.
Proof. reflexivity. Qed.

Lemma post_bfhl_one_key_lcm (cfg : config) (fuel : nat) (v : value) :
  post_bfhl cfg fuel (VObj [(lit "lcm", v)]) = case_lcm cfg fuel v.
Proof. reflexivity. Qed.

Lemma post_bfhl_one_key_hcf (cfg : config) (fuel : nat) (v : value) :
  post_bfhl cfg fuel (VObj [(lit "hcf", v)]) = case_hcf cfg fuel v.
Proof. reflexivity. Qed.

(** Every [fibonacci] payload that is not an integer between 0 and 1000
    (a negative or larger integer, a fraction, NaN, a string, [null], an
    array, ...) is answered 400 with the message of the bound, whatever
    the step budget. *)
Theorem fibonacci_payload_is_validated (cfg : config) (fuel : nat)
  (v : value) :
  (forall n : Z, v = int_value n -> n < 0 \/ 1000 < n) ->
  post_bfhl cfg fuel (VObj [(lit "fibonacci", v)])
  = Some (failure cfg 400
            (lit "fibonacci must be a non-negative integer (0-1000)")).
Proof.
  intros Hv. rewrite post_bfhl_one_key_fibonacci. unfold case_fibonacci.
  destruct v as [| | ? | [n | | | |] | | |]; try reflexivity.
  cbn [typeof_number Number_isInteger isInteger number_of negb orb gtb ltb].
  destruct (Hv n eq_refl) as [Hn | Hn].
  - destruct (Z.ltb_spec n 0); [reflexivity | lia].
  - destruct (Z.ltb_spec 1000 n); [| lia]. now rewrite orb_true_r.
Qed.

Lemma fibonacci_payload_is_validated_witness :
  post_bfhl no_credential 5 (VObj [(lit "fibonacci", int_value 1001)])
  = Some (failure no_credential 400
            (lit "fibonacci must be a non-negative integer (0-1000)"))
  /\ post_bfhl no_credential 5 (VObj [(lit "fibonacci", VNum (Frac (7 # 2)))])
     = Some (failure no_credential 400
               (lit "fibonacci must be a non-negative integer (0-1000)")).
Proof.
  split.
  - apply (fibonacci_payload_is_validated no_credential 5 (int_value 1001)).
    intros n [= <-]. lia.
  - apply (fibonacci_payload_is_validated no_credential 5
             (VNum (Frac (7 # 2)))).
    intros n [=].
Defined.

Lemma filter_shorter {A : Type} (p : A -> bool) (l : list A) :
  Exists (fun x => p x = false) l -> (length (filter p l) < length l)%nat.
Proof.
  induction 1 as [x l Hx | x l _ IH]; cbn [filter length].
  - rewrite Hx. pose proof (filter_length_le p l). lia.
  - destruct (p x); cbn [length]; lia.
Qed.

Lemma ints_all {p : value -> bool} (P : Z -> Prop) (zs : list Z) :
  (forall z : Z, P z -> p (int_value z) = true) ->
  Forall P zs -> filter p (map int_value zs) = map int_value zs.
Proof.
  intros Hp Hzs. apply filter_all. apply Forall_map.
  eapply Forall_impl; [| exact Hzs]. intros z Hz. now apply Hp.
Qed.

(** The [prime] payload is checked in this order: not an array, 400; an
    element that is not a non-negative integer, 400, however long the
    array; more than 100 elements, 400. *)
Theorem prime_payload_is_validated (cfg : config) (fuel : nat) :
  (forall v : value,
     Array_isArray v = false ->
     post_bfhl cfg fuel (VObj [(lit "prime", v)])
     = Some (failure cfg 400 (lit "prime must be an array of integers")))
  /\ (forall elems : list value,
        Exists (fun x => forall z : Z, x = int_value z -> z < 0) elems ->
        post_bfhl cfg fuel (VObj [(lit "prime", VArr elems)])
        = Some (failure cfg 400
                  (lit "prime array must contain only integers")))
  /\ (forall zs : list Z,
        Forall (fun z => 0 <= z) zs -> (100 < length zs)%nat ->
        post_bfhl cfg fuel (VObj [(lit "prime", ints zs)])
        = Some (failure cfg 400 (lit "prime array too large"))).
Proof.
  split; [| split].
  - intros v Hv. rewrite post_bfhl_one_key_prime.
    destruct v; try reflexivity. discriminate.
  - intros elems Hbad. rewrite post_bfhl_one_key_prime. unfold case_prime.
    assert (Hlt : (length (filter
                     (fun n => Number_isInteger n && geb (number_of n) (Int 0))
                     elems) < length elems)%nat).
    { apply filter_shorter. eapply Exists_impl; [| exact Hbad].
      intros x Hx. cbn beta.
      destruct x as [| | ? | [z | | | |] | | |]; try reflexivity.
      cbn [Number_isInteger isInteger number_of andb]. unfold geb.
      rewrite leb_Int. specialize (Hx z eq_refl).
      destruct (Z.leb_spec 0 z); [lia | reflexivity]. }
    destruct (Nat.eqb_spec
                (length (filter
                   (fun n => Number_isInteger n && geb (number_of n) (Int 0))
                   elems)) (length elems)); [lia | reflexivity].
  - intros zs Hzs Hlen. rewrite post_bfhl_one_key_prime.
    unfold case_prime, ints.
    rewrite (ints_all (fun z => 0 <= z)); try assumption.
    + rewrite Nat.eqb_refl, length_map. cbn [negb].
      destruct (Nat.ltb_spec 100 (length zs)); [reflexivity | lia].
    + intros z Hz. cbn [int_value Number_isInteger isInteger number_of andb].
      unfold geb. rewrite leb_Int. now apply Z.leb_le.
Qed.

(** The [lcm] and [hcf] payloads are checked in the same order: not an
    array, 400; an element that is not a strictly positive integer (zero
    included), 400; more than 20 elements, 400. *)
Theorem lcm_and_hcf_payloads_are_validated (cfg : config) (fuel : nat) :
  (forall v : value,
     Array_isArray v = false ->
     post_bfhl cfg fuel (VObj [(lit "lcm", v)])
     = Some (failure cfg 400 (lit "lcm must be an array of integers"))
     /\ post_bfhl cfg fuel (VObj [(lit "hcf", v)])
        = Some (failure cfg 400 (lit "hcf must be an array of integers")))
  /\ (forall elems : list value,
        Exists (fun x => forall z : Z, x = int_value z -> z <= 0) elems ->
        post_bfhl cfg fuel (VObj [(lit "lcm", VArr elems)])
        = Some (failure cfg 400
                  (lit "lcm array must contain only positive integers"))
        /\ post_bfhl cfg fuel (VObj [(lit "hcf", VArr elems)])
           = Some (failure cfg 400
                     (lit "hcf array must contain only positive integers")))
  /\ (forall zs : list Z,
        Forall (fun z => 0 < z) zs -> (20 < length zs)%nat ->
        post_bfhl cfg fuel (VObj [(lit "lcm", ints zs)])
        = Some (failure cfg 400 (lit "lcm array too large"))
        /\ post_bfhl cfg fuel (VObj [(lit "hcf", ints zs)])
           = Some (failure cfg 400 (lit "hcf array too large"))).
Proof.
  split; [| split].
  - intros v Hv. rewrite post_bfhl_one_key_lcm, post_bfhl_one_key_hcf.
    destruct v; try (split; reflexivity). discriminate.
  - intros elems Hbad.
    rewrite post_bfhl_one_key_lcm, post_bfhl_one_key_hcf.
    unfold case_lcm, case_hcf.
    assert (Hlt : (length (filter positive_integer elems) < length elems)%nat).
    { apply filter_shorter. eapply Exists_impl; [| exact Hbad].
      intros x Hx. cbn beta.
      destruct x as [| | ? | [z | | | |] | | |]; try reflexivity.
      change (positive_integer (VNum (Int z))) with (0 <? z).
      specialize (Hx z eq_refl).
      destruct (Z.ltb_spec 0 z); [lia | reflexivity]. }
    destruct (Nat.eqb_spec (length (filter positive_integer elems))
                (length elems)); [lia | split; reflexivity].
  - intros zs Hzs Hlen.
    rewrite post_bfhl_one_key_lcm, post_bfhl_one_key_hcf.
    unfold case_lcm, case_hcf, ints.
    rewrite filter_positive_all by assumption.
    rewrite Nat.eqb_refl, length_map. cbn [negb].
    destruct (Nat.ltb_spec 20 (length zs)); [split; reflexivity | lia].
Qed.

(** *** What a served request carries *)

Lemma case_prime_passes (cfg : config) (fuel : nat) (zs : list Z) :
  Forall (fun z => 0 <= z) zs -> (length zs <= 100)%nat ->
  case_prime cfg fuel (ints zs)
  = (primes <- filterPrimes fuel (ints zs) ;;
     Some (success cfg (VArr primes))).
Proof.
  intros Hzs Hlen. unfold case_prime, ints.
  rewrite (ints_all (fun z => 0 <= z)); try assumption.
  - rewrite Nat.eqb_refl, length_map. cbn [negb].
    destruct (Nat.ltb_spec 100 (length zs)); [lia | reflexivity].
  - intros z Hz. cbn [int_value Number_isInteger isInteger number_of andb].
    unfold geb. rewrite leb_Int. now apply Z.leb_le.
Qed.

Lemma case_hcf_passes (cfg : config) (fuel : nat) (zs : list Z) :
  Forall (fun z => 0 < z) zs -> (length zs <= 20)%nat ->
  case_hcf cfg fuel (ints zs)
  = (result <- hcfOfArray fuel (ints zs) ;; Some (success cfg (VNum result))).
Proof.
  intros Hzs Hlen. unfold case_hcf.
  change (ints zs) with (VArr (map int_value zs)) at 1.
  cbv iota. rewrite filter_positive_all by assumption.
  rewrite Nat.eqb_refl, length_map. cbn [negb].
  destruct (Nat.ltb_spec 20 (length zs)); [lia | reflexivity].
Qed.

Lemma Filtered_ints (zs : list Z) :
  forall r : list value,
    Filtered prime_value (map int_value zs) r ->
    exists ps : list Z, r = map int_value ps /\ Filtered is_prime zs ps.
Proof.
  induction zs as [| z zs IH]; intros r H; inversion H; subst.
  - exists []. split; [reflexivity | constructor].
  - destruct (IH _ H4) as (ps & -> & Hps). exists (z :: ps).
    split; [reflexivity |]. constructor; [| assumption].
    destruct H2 as (p & [= ->] & Hp). exact Hp.
  - destruct (IH _ H4) as (ps & -> & Hps). exists ps.
    split; [reflexivity |]. constructor; [| assumption].
    intros Hp. apply H2. now exists z.
Qed.

(** The [data] of the answer to a valid request is the mathematical
    result: the greatest common divisor of the list for [hcf]; the least
    common multiple for [lcm], when the products of the fold stay at or
    below [2^53]; the primes of the list, in order and with their
    repetitions, for [prime]. *)
Theorem served_data_is_the_result (cfg : config) :
  (forall zs : list Z,
     valid_payload (OpHcf zs) ->
     exists f0 : nat, forall fuel : nat, (f0 <= fuel)%nat ->
       post_bfhl cfg fuel (request_body (OpHcf zs))
       = Some (success cfg (int_value (hcf_list zs))))
  /\ (forall zs : list Z,
        valid_payload (OpLcm zs) -> safe_products zs ->
        exists f0 : nat, forall fuel : nat, (f0 <= fuel)%nat ->
          post_bfhl cfg fuel (request_body (OpLcm zs))
          = Some (success cfg (int_value (lcm_list zs))))
  /\ (forall zs : list Z,
        valid_payload (OpPrime zs) ->
        exists (ps : list Z) (f0 : nat),
          Filtered is_prime zs ps
          /\ forall fuel : nat, (f0 <= fuel)%nat ->
               post_bfhl cfg fuel (request_body (OpPrime zs))
               = Some (success cfg (ints ps))).
Proof.
  split; [| split].
  - intros zs [Hzs Hlen]. destruct (hcfOfArray_ints zs Hzs) as [f0 Hrun].
    exists f0. intros fuel Hfuel.
    rewrite post_bfhl_hcf, case_hcf_passes, Hrun by assumption. reflexivity.
  - intros zs [Hzs Hlen] Hsafe.
    destruct (lcmOfArray_ints zs Hzs Hsafe) as [f0 Hrun].
    exists f0. intros fuel Hfuel.
    rewrite post_bfhl_lcm, case_lcm_passes, Hrun by assumption. reflexivity.
  - intros zs [Hzs Hlen].
    destruct (filterPrimes_Filtered (map int_value zs))
      as (r & f0 & Hrun & Hfiltered).
    { intros z Hin. apply in_map_iff in Hin as (z' & [= ->] & Hin).
      rewrite Forall_forall in Hzs. now apply Hzs. }
    destruct (Filtered_ints zs r Hfiltered) as (ps & -> & Hps).
    exists ps, f0. split; [assumption |]. intros fuel Hfuel.
    rewrite post_bfhl_prime, case_prime_passes; try assumption.
    + unfold ints at 1. rewrite Hrun by assumption. reflexivity.
    + eapply Forall_impl; [| exact Hzs]. now intros z [Hz _].
Qed.

Lemma served_data_is_the_result_witness :
  valid_payload (OpHcf [24; 36; 60])
  /\ hcf_list [24; 36; 60] = 12
  /\ exists f0 : nat, forall fuel : nat, (f0 <= fuel)%nat ->
       post_bfhl no_credential fuel (request_body (OpHcf [24; 36; 60]))
       = Some (success no_credential (int_value (hcf_list [24; 36; 60]))).
Proof.
  assert (H : valid_payload (OpHcf [24; 36; 60])).
  { split; [repeat constructor | cbn [length]; lia]. }
  split; [exact H |]. split; [reflexivity |].
  exact (proj1 (served_data_is_the_result no_credential) [24; 36; 60] H).
Defined.

(** *** The key [ai] *)

(** In [index.js] the key [ai] is the key [AI]: whatever the payload, the
    request [{"ai": q}] is answered exactly as [{"AI": q}]. *)
Theorem lowercase_ai_is_AI (cfg : config) (fuel : nat) (q : value) :
  post_bfhl cfg fuel (VObj [(lit "ai", q)])
  = post_bfhl cfg fuel (VObj [(lit "AI", q)]).
Proof.
  change (post_bfhl cfg fuel (VObj [(lit "ai", q)]))
    with (Some (case_AI cfg (nullish_or VUndefined q))).
  change (post_bfhl cfg fuel (VObj [(lit "AI", q)]))
    with (Some (case_AI cfg (nullish_or q VUndefined))).
  destruct q; reflexivity.
Qed.

(** In [part_000] the key is normalised to [AI] before the payload is
    read with it, so the payload of [ai] is never read: the request
    [{"ai": q}] is answered 503 whatever the question and whatever the
    provider does. *)
Theorem variant_lowercase_ai_is_never_answered
  (StringToNumber : jsstring -> number)
  (ObjectToNumber : value -> Variant.completion number)
  (cfg : config) (fuel : nat) (q : value) :
  Variant.post_bfhl StringToNumber ObjectToNumber cfg fuel
    (VObj [(lit "ai", q)])
  = Some (failure cfg 503 (lit "AI service unavailable")).
Proof.
  unfold Variant.post_bfhl.
  change (Variant.provided_key (VObj [(lit "ai", q)]))
    with (Some (lit "ai")).
  cbv beta iota.
  change (normalize_key (lit "ai")) with (lit "AI").
  unfold Variant.dispatch. cbv zeta.
  change (get_prop (VObj [(lit "ai", q)]) (lit "AI")) with VUndefined.
  change (str_eqb (lit "AI") (lit "fibonacci")) with false.
  change (str_eqb (lit "AI") (lit "prime")) with false.
  change (str_eqb (lit "AI") (lit "lcm")) with false.
  change (str_eqb (lit "AI") (lit "hcf")) with false.
  change (str_eqb (lit "AI") (lit "AI")) with true.
  cbv iota. unfold Variant.getAIResponse.
  destruct (genAI cfg); reflexivity.
Qed.

(** *** Bodies that are not objects *)

Lemma provided_key_array (elems : list value) :
  provided_key (VArr elems) = None.
Proof.
  unfold provided_key. cbn [Object_keys].
  destruct elems as [| x [| y rest]]; try reflexivity.
  destruct (find _ _); [| reflexivity].
  rewrite length_map, length_seq. cbn [length Nat.ltb Nat.leb].
  now rewrite orb_true_r.
Qed.

Lemma variant_provided_key_indices (n : nat) :
  match find (includes validKeys) (map index_key (seq 0 n)) with
  | None => None
  | Some providedKey =>
      if negb (truthy (VStr providedKey))
         || negb (length (map index_key (seq 0 n)) =? 1)%nat
      then None
      else Some providedKey
  end = None.
Proof.
  destruct n as [| [| n]]; try reflexivity.
  destruct (find _ _); [| reflexivity].
  rewrite length_map, length_seq. cbn [Nat.eqb negb].
  now rewrite orb_true_r.
Qed.

Lemma variant_provided_key_not_object (body : value) :
  (forall fields : list (jsstring * value), body <> VObj fields) ->
  Variant.provided_key body = None.
Proof.
  intros Hbody. unfold Variant.provided_key.
  destruct body as [| | [|] | x | s | elems | fields]; try reflexivity.
  - destruct (truthy (VNum x)); reflexivity.
  - destruct s as [| c s]; [reflexivity |].
    change (truthy (VStr (c :: s))) with true. cbv iota. cbn [Object_keys].
    apply variant_provided_key_indices.
  - change (truthy (VArr elems)) with true. cbv iota. cbn [Object_keys].
    apply variant_provided_key_indices.
  - now destruct (Hbody fields).
Qed.

(** A decoded body that is not an object is never dispatched.  [index.js]
    answers 400 [Invalid request body] to [null], a number, a string or a
    boolean, and to an array, whose keys are its indices, the 400 of the
    key guard; [part_000] answers the 400 of the key guard to all of
    them. *)
Theorem bodies_that_are_not_objects_are_rejected
  (StringToNumber : jsstring -> number)
  (ObjectToNumber : value -> Variant.completion number)
  (cfg : config) (fuel : nat) (body : value) :
  (forall fields : list (jsstring * value), body <> VObj fields) ->
  post_bfhl cfg fuel body
  = Some (failure cfg 400
            (if Array_isArray body then exactly_one_message
             else lit "Invalid request body"))
  /\ Variant.post_bfhl StringToNumber ObjectToNumber cfg fuel body
     = Some (failure cfg 400 exactly_one_message).
Proof.
  intros Hbody. split.
  - unfold post_bfhl.
    destruct body as [| | b | x | s | elems | fields]; try reflexivity.
    + now destruct b.
    + now destruct (truthy (VNum x)).
    + now destruct (truthy (VStr s)).
    + change (negb (truthy (VArr elems)) || negb (typeof_object (VArr elems)))
        with false.
      cbv iota. now rewrite provided_key_array.
    + now destruct (Hbody fields).
  - unfold Variant.post_bfhl.
    now rewrite variant_provided_key_not_object.
Qed.

Lemma bodies_that_are_not_objects_are_rejected_witness :
  post_bfhl no_credential 0 (VArr [VObj [(lit "fibonacci", int_value 5)]])
  = Some (failure no_credential 400
            (if Array_isArray (VArr [VObj [(lit "fibonacci", int_value 5)]])
             then exactly_one_message
             else lit "Invalid request body"))
  /\ Variant.post_bfhl no_coercion_s no_coercion_o no_credential 0
       (VArr [VObj [(lit "fibonacci", int_value 5)]])
     = Some (failure no_credential 400 exactly_one_message).
Proof.
  apply (bodies_that_are_not_objects_are_rejected no_coercion_s no_coercion_o
           no_credential 0 (VArr [VObj [(lit "fibonacci", int_value 5)]])).
  intros fields [=].
Defined.

(** *** The two handlers side by side *)

Section VariantHandler.

Variable StringToNumber : jsstring -> number.
Variable ObjectToNumber : value -> Variant.completion number.

Lemma variant_post_bfhl_fibonacci (cfg : config) (fuel : nat) (v : value) :
  Variant.post_bfhl StringToNumber ObjectToNumber cfg fuel
    (VObj [(lit "fibonacci", v)])
  = if negb (Number_isInteger v) || ltb (number_of v) (Int 0)
       || gtb (number_of v) (Int 1000)
    then Some (failure cfg 400 (lit "Invalid fibonacci input"))
    else
      series <- fibonacci fuel (number_of v) ;;
      Some (success cfg (VArr (map VNum series))).
Proof.
  unfold Variant.post_bfhl.
  change (Variant.provided_key (VObj [(lit "fibonacci", v)]))
    with (Some (lit "fibonacci")).
  cbv beta iota.
  change (normalize_key (lit "fibonacci")) with (lit "fibonacci").
  unfold Variant.dispatch. cbv zeta.
  change (get_prop (VObj [(lit "fibonacci", v)]) (lit "fibonacci")) with v.
  change (str_eqb (lit "fibonacci") (lit "fibonacci")) with true. cbv iota.
  destruct (_ || _); [reflexivity |].
  destruct (fibonacci fuel (number_of v)); reflexivity.
Qed.

Lemma variant_post_bfhl_prime (cfg : config) (fuel : nat) (v : value) :
  Variant.post_bfhl StringToNumber ObjectToNumber cfg fuel
    (VObj [(lit "prime", v)])
  = if negb (Array_isArray v)
    then Some (failure cfg 400 (lit "Prime must be array"))
    else
      primes <- filterPrimes fuel v ;;
      Some (success cfg (VArr primes)).
Proof.
  unfold Variant.post_bfhl.
  change (Variant.provided_key (VObj [(lit "prime", v)]))
    with (Some (lit "prime")).
  cbv beta iota.
  change (normalize_key (lit "prime")) with (lit "prime").
  unfold Variant.dispatch. cbv zeta.
  change (get_prop (VObj [(lit "prime", v)]) (lit "prime")) with v.
  change (str_eqb (lit "prime") (lit "fibonacci")) with false.
  change (str_eqb (lit "prime") (lit "prime")) with true. cbv iota.
  destruct (negb _); [reflexivity |].
  destruct (filterPrimes fuel v); reflexivity.
Qed.

Lemma variant_post_bfhl_lcm (cfg : config) (fuel : nat) (v : value) :
  Variant.post_bfhl StringToNumber ObjectToNumber cfg fuel
    (VObj [(lit "lcm", v)])
  = match Variant.lcmOfArray StringToNumber ObjectToNumber fuel v with
    | None => None
    | Some (Variant.Normal data) => Some (success cfg data)
    | Some (Variant.Throw message) => Some (failure cfg 400 message)
    end.
Proof.
  unfold Variant.post_bfhl.
  change (Variant.provided_key (VObj [(lit "lcm", v)]))
    with (Some (lit "lcm")).
  cbv beta iota.
  change (normalize_key (lit "lcm")) with (lit "lcm").
  unfold Variant.dispatch. cbv zeta.
  change (get_prop (VObj [(lit "lcm", v)]) (lit "lcm")) with v.
  change (str_eqb (lit "lcm") (lit "fibonacci")) with false.
  change (str_eqb (lit "lcm") (lit "prime")) with false.
  change (str_eqb (lit "lcm") (lit "lcm")) with true. cbv iota.
  destruct (Variant.lcmOfArray _ _ fuel v) as [[data | message] |];
    reflexivity.
Qed.

Lemma variant_post_bfhl_hcf (cfg : config) (fuel : nat) (v : value) :
  Variant.post_bfhl StringToNumber ObjectToNumber cfg fuel
    (VObj [(lit "hcf", v)])
  = match Variant.hcfOfArray StringToNumber ObjectToNumber fuel v with
    | None => None
    | Some (Variant.Normal data) => Some (success cfg data)
    | Some (Variant.Throw message) => Some (failure cfg 400 message)
    end.
Proof.
  unfold Variant.post_bfhl.
  change (Variant.provided_key (VObj [(lit "hcf", v)]))
    with (Some (lit "hcf")).
  cbv beta iota.
  change (normalize_key (lit "hcf")) with (lit "hcf").
  unfold Variant.dispatch. cbv zeta.
  change (get_prop (VObj [(lit "hcf", v)]) (lit "hcf")) with v.
  change (str_eqb (lit "hcf") (lit "fibonacci")) with false.
  change (str_eqb (lit "hcf") (lit "prime")) with false.
  change (str_eqb (lit "hcf") (lit "lcm")) with false.
  change (str_eqb (lit "hcf") (lit "hcf")) with true. cbv iota.
  destruct (Variant.hcfOfArray _ _ fuel v) as [[data | message] |];
    reflexivity.
Qed.

Lemma variant_hcf_fold_agrees (fuel : nat) (rest : list number) :
  forall first : number,
    Variant.fold_try (Variant.hcf_step StringToNumber ObjectToNumber fuel)
      (map VNum rest) (VNum first)
    = option_map (fun x => Variant.Normal (VNum x))
        (fold_opt (gcd fuel) rest first).
Proof.
  induction rest as [| x rest IH]; intros first; [reflexivity |].
  cbn [map Variant.fold_try fold_opt].
  unfold Variant.hcf_step at 1.
  cbn [Variant.ToNumber Variant.and_then].
  destruct (gcd fuel first x) as [g |];
    cbn [option_map bind Variant.and_then]; [apply IH | reflexivity].
Qed.

Lemma variant_lcmOfArray_ints (fuel : nat) (zs : list Z) :
  Forall (fun z => 0 < z) zs ->
  Variant.lcmOfArray StringToNumber ObjectToNumber fuel (ints zs)
  = option_map (fun x => Variant.Normal (VNum x)) (lcmOfArray fuel (ints zs)).
Proof.
  intros Hpos. unfold Variant.lcmOfArray, lcmOfArray, ints.
  rewrite filter_positive_all, number_of_ints by assumption.
  destruct zs as [| z rest]; [reflexivity |]. cbn [map].
  change (map int_value rest) with (map (fun z => VNum (Int z)) rest).
  rewrite <- (map_map Int VNum). apply variant_lcm_fold_agrees.
Qed.

Lemma variant_hcfOfArray_ints (fuel : nat) (zs : list Z) :
  Forall (fun z => 0 < z) zs ->
  Variant.hcfOfArray StringToNumber ObjectToNumber fuel (ints zs)
  = option_map (fun x => Variant.Normal (VNum x)) (hcfOfArray fuel (ints zs)).
Proof.
  intros Hpos. unfold Variant.hcfOfArray, hcfOfArray, ints.
  rewrite filter_positive_all, number_of_ints by assumption.
  destruct zs as [| z rest]; [reflexivity |]. cbn [map].
  change (map int_value rest) with (map (fun z => VNum (Int z)) rest).
  rewrite <- (map_map Int VNum). apply variant_hcf_fold_agrees.
Qed.

(** On a valid [fibonacci], [prime], [lcm] or [hcf] request the handlers
    of [index.js] and of [part_000] behave alike with every step budget:
    both send the same response, or neither sends one. *)
Theorem handlers_agree_on_valid_computations (cfg : config) (fuel : nat)
  (op : operation) :
  valid_payload op ->
  (forall (lowercase : bool) (q : jsstring), op <> OpAI lowercase q) ->
  Variant.post_bfhl StringToNumber ObjectToNumber cfg fuel (request_body op)
  = post_bfhl cfg fuel (request_body op).
Proof.
  intros Hvalid HnotAI.
  destruct op as [n | zs | zs | zs | lowercase q]; cbn [valid_payload] in Hvalid.
  - cbn [request_body].
    rewrite variant_post_bfhl_fibonacci, post_bfhl_one_key_fibonacci.
    unfold case_fibonacci.
    cbn [int_value typeof_number Number_isInteger isInteger number_of negb
         orb gtb ltb].
    destruct (Z.ltb_spec n 0); [lia |].
    destruct (Z.ltb_spec 1000 n); [lia | reflexivity].
  - destruct Hvalid as [Hzs Hlen]. cbn [request_body].
    rewrite variant_post_bfhl_prime, post_bfhl_one_key_prime.
    rewrite case_prime_passes; [reflexivity | | assumption].
    eapply Forall_impl; [| exact Hzs]. now intros z [Hz _].
  - destruct Hvalid as [Hzs Hlen]. cbn [request_body].
    rewrite variant_post_bfhl_lcm, post_bfhl_one_key_lcm.
    rewrite case_lcm_passes, variant_lcmOfArray_ints by assumption.
    destruct (lcmOfArray fuel (ints zs)); reflexivity.
  - destruct Hvalid as [Hzs Hlen]. cbn [request_body].
    rewrite variant_post_bfhl_hcf, post_bfhl_one_key_hcf.
    rewrite case_hcf_passes, variant_hcfOfArray_ints by assumption.
    destruct (hcfOfArray fuel (ints zs)); reflexivity.
  - now destruct (HnotAI lowercase q).
Qed.

(** [part_000] validates less than [index.js]: a [lcm] or [hcf] payload
    that is not an array is answered 200 with [0] for data, and a [prime]
    array is never rejected for its elements or its length: the
    elements that are not primes, numbers or not, are left out. *)
Theorem variant_accepts_unvalidated_payloads (cfg : config) :
  (forall (fuel : nat) (v : value),
     Array_isArray v = false ->
     Variant.post_bfhl StringToNumber ObjectToNumber cfg fuel
       (VObj [(lit "lcm", v)])
     = Some (success cfg (int_value 0))
     /\ Variant.post_bfhl StringToNumber ObjectToNumber cfg fuel
          (VObj [(lit "hcf", v)])
        = Some (success cfg (int_value 0)))
  /\ (forall elems : list value,
        (forall z : Z, In (int_value z) elems -> double_integer z) ->
        exists (r : list value) (f0 : nat),
          Filtered prime_value elems r
          /\ forall fuel : nat, (f0 <= fuel)%nat ->
               Variant.post_bfhl StringToNumber ObjectToNumber cfg fuel
                 (VObj [(lit "prime", VArr elems)])
               = Some (success cfg (VArr r))).
Proof.
  split.
  - intros fuel v Hv.
    rewrite variant_post_bfhl_lcm, variant_post_bfhl_hcf.
    destruct v; try (split; reflexivity). discriminate.
  - intros elems Hdouble.
    destruct (filterPrimes_Filtered elems Hdouble) as (r & f0 & Hrun & Hr).
    exists r, f0. split; [assumption |]. intros fuel Hfuel.
    rewrite variant_post_bfhl_prime. cbn [Array_isArray negb].
    now rewrite Hrun.
Qed.

End VariantHandler.

Lemma handlers_agree_on_valid_computations_witness :
  valid_payload (OpLcm [12; 18; 24])
  /\ Variant.post_bfhl no_coercion_s no_coercion_o no_credential 100
       (request_body (OpLcm [12; 18; 24]))
     = Some (success no_credential (int_value 72))
  /\ Variant.post_bfhl no_coercion_s no_coercion_o no_credential 100
       (request_body (OpLcm [12; 18; 24]))
     = post_bfhl no_credential 100 (request_body (OpLcm [12; 18; 24])).
Proof.
  assert (H : valid_payload (OpLcm [12; 18; 24])).
  { split; [repeat constructor | cbn [length]; lia]. }
  split; [exact H |]. split; [reflexivity |].
  apply (handlers_agree_on_valid_computations no_coercion_s no_coercion_o
           no_credential 100 (OpLcm [12; 18; 24]) H).
  intros lowercase q [=].
Defined.

Lemma variant_accepts_unvalidated_payloads_witness :
  Array_isArray (VStr (lit "twelve")) = false
  /\ Variant.post_bfhl no_coercion_s no_coercion_o no_credential 0
       (VObj [(lit "lcm", VStr (lit "twelve"))])
     = Some (success no_credential (int_value 0))
  /\ Variant.post_bfhl no_coercion_s no_coercion_o no_credential 0
       (VObj [(lit "hcf", VStr (lit "twelve"))])
     = Some (success no_credential (int_value 0)).
Proof.
  split; [reflexivity |].
  exact (proj1 (variant_accepts_unvalidated_payloads no_coercion_s
                  no_coercion_o no_credential)
           0%nat (VStr (lit "twelve")) eq_refl).
Defined.

(** *** The middleware *)

Lemma starts_with_spec (prefix : jsstring) :
  forall s : jsstring,
    starts_with s prefix = true <-> exists post : jsstring, s = prefix ++ post.
Proof.
  induction prefix as [| d prefix IH]; intros s.
  - split; [intros _; now exists s | now destruct s].
  - destruct s as [| c s]; cbn [starts_with].
    + split; [discriminate | intros [post [=]]].
    + rewrite andb_true_iff, N.eqb_eq, IH. split.
      * intros [-> [post ->]]. now exists post.
      * intros [post [= -> ->]]. split; [reflexivity | now exists post].
Qed.

Lemma str_includes_spec (sub s : jsstring) :
  str_includes s sub = true <-> occurs_in sub s.
Proof.
  unfold occurs_in. induction s as [| c s IH].
  - cbn [str_includes]. rewrite orb_false_r, starts_with_spec. split.
    + intros [post H]. now exists [], post.
    + intros (pre & post & H). destruct pre as [| x pre]; [| discriminate H].
      now exists post.
  - cbn [str_includes]. rewrite orb_true_iff, starts_with_spec, IH. split.
    + intros [[post H] | (pre & post & H)].
      * now exists [], post.
      * exists (c :: pre), post. cbn [app]. now rewrite H.
    + intros (pre & post & H). destruct pre as [| x pre].
      * left. now exists post.
      * right. injection H as -> H. now exists pre, post.
Qed.

(** The middleware on [/bfhl] answers 400 exactly to a POST whose
    [Content-Type] header is present, not empty and does not contain
    [application/json] (in this very case of letters); every other
    request goes on to the routes, a POST without the header included. *)
Theorem content_type_guard_stops (cfg : config) (method : jsstring)
  (content_type : option jsstring) :
  (stopped_by_guard method content_type ->
   content_type_guard cfg method content_type
   = Some (failure cfg 400 (lit "Content-Type must be application/json")))
  /\ (~ stopped_by_guard method content_type ->
      content_type_guard cfg method content_type = None).
Proof.
  unfold stopped_by_guard, content_type_guard. split.
  - intros (-> & ct & -> & Hne & Hnot).
    rewrite str_eqb_refl. destruct ct as [| c ct]; [congruence |].
    change (truthy (VStr (c :: ct))) with true.
    destruct (str_includes (c :: ct) (lit "application/json")) eqn:E;
      [| reflexivity].
    apply str_includes_spec in E. contradiction.
  - intros Hnot. destruct content_type as [ct |]; [| reflexivity].
    destruct (str_eqb method (lit "POST")) eqn:Hm; [| reflexivity].
    apply str_eqb_eq in Hm. destruct ct as [| c ct]; [reflexivity |].
    change (truthy (VStr (c :: ct))) with true.
    destruct (str_includes (c :: ct) (lit "application/json")) eqn:E;
      [reflexivity |].
    exfalso. apply Hnot. split; [assumption |].
    exists (c :: ct). split; [reflexivity |]. split; [discriminate |].
    intros H. apply str_includes_spec in H. congruence.
Qed.

Lemma content_type_guard_stops_witness :
  content_type_guard no_credential (lit "POST")
    (Some (lit "application/json; charset=utf-8")) = None
  /\ content_type_guard no_credential (lit "POST") None = None
  /\ content_type_guard no_credential (lit "POST") (Some (lit "text/plain"))
     = Some (failure no_credential 400
               (lit "Content-Type must be application/json"))
  /\ content_type_guard no_credential (lit "POST")
       (Some (lit "Application/JSON"))
     = Some (failure no_credential 400
               (lit "Content-Type must be application/json")).
Proof.
  split; [| split; [| split]].
  - apply (proj2 (content_type_guard_stops no_credential (lit "POST")
                    (Some (lit "application/json; charset=utf-8")))).
    intros (_ & ct & [= <-] & _ & Hnot). apply Hnot.
    now exists [], (lit "; charset=utf-8").
  - apply (proj2 (content_type_guard_stops no_credential (lit "POST") None)).
    intros (_ & ct & [=] & _).
  - reflexivity.
  - reflexivity.
Defined.

(** *** The question of the AI operation *)

Lemma post_bfhl_one_key_AI (cfg : config) (fuel : nat) (lowercase : bool)
  (q : value) :
  post_bfhl cfg fuel (VObj [(if lowercase then lit "ai" else lit "AI", q)])
  = Some (case_AI cfg q).
Proof. destruct lowercase, q; reflexivity. Qed.

(** [index.js] checks the question before it calls the provider: a
    payload that is not a string, or a string of white space only, is
    answered 400; so is a question of more than 500 characters, counted
    before trimming.  This holds for both spellings of the key and
    whatever the provider would do. *)
Theorem AI_payload_is_validated (cfg : config) (fuel : nat)
  (lowercase : bool) :
  (forall q : value,
     (forall s : jsstring, q = VStr s -> blank s = true) ->
     post_bfhl cfg fuel (VObj [(if lowercase then lit "ai" else lit "AI", q)])
     = Some (failure cfg 400
               (lit "AI must receive a non-empty string question")))
  /\ (forall s : jsstring,
        blank s = false -> (500 < length s)%nat ->
        post_bfhl cfg fuel
          (VObj [(if lowercase then lit "ai" else lit "AI", VStr s)])
        = Some (failure cfg 400 (lit "Question too long"))).
Proof.
  split.
  - intros q Hq. rewrite post_bfhl_one_key_AI. f_equal.
    destruct q as [| | | | s | |]; try reflexivity.
    cbn [case_AI]. now rewrite (blank_trim s (Hq s eq_refl)).
  - intros s Hs Hlen. rewrite post_bfhl_one_key_AI. f_equal. cbn [case_AI].
    destruct (not_blank_nonempty (trim s) (not_blank_trim s Hs)) as [-> _].
    destruct (Nat.ltb_spec 500 (length s)); [reflexivity | lia].
Qed.

Lemma AI_payload_is_validated_witness :
  post_bfhl talkative_provider 0 (VObj [(lit "ai", int_value 42)])
  = Some (failure talkative_provider 400
            (lit "AI must receive a non-empty string question"))
  /\ post_bfhl talkative_provider 0
       (VObj [(lit "AI", VStr (lit "why?" ++ repeat 32%N 497))])
     = Some (failure talkative_provider 400 (lit "Question too long")).
Proof.
  split.
  - apply (proj1 (AI_payload_is_validated talkative_provider 0 true)
             (int_value 42)).
    intros s [=].
  - apply (proj2 (AI_payload_is_validated talkative_provider 0 false)
             (lit "why?" ++ repeat 32%N 497)).
    + reflexivity.
    + vm_compute. reflexivity.
Defined.

Section VariantQuestion.

Variable StringToNumber : jsstring -> number.
Variable ObjectToNumber : value -> Variant.completion number.

Lemma variant_post_bfhl_AI (cfg : config) (fuel : nat) (q : value) :
  Variant.post_bfhl StringToNumber ObjectToNumber cfg fuel
    (VObj [(lit "AI", q)])
  = Some (if negb (truthy (Variant.getAIResponse cfg q))
          then failure cfg 503 (lit "AI service unavailable")
          else success cfg (Variant.getAIResponse cfg q)).
Proof.
  unfold Variant.post_bfhl.
  change (Variant.provided_key (VObj [(lit "AI", q)]))
    with (Some (lit "AI")).
  cbv beta iota.
  change (normalize_key (lit "AI")) with (lit "AI").
  unfold Variant.dispatch. cbv zeta.
  change (get_prop (VObj [(lit "AI", q)]) (lit "AI")) with q.
  change (str_eqb (lit "AI") (lit "fibonacci")) with false.
  change (str_eqb (lit "AI") (lit "prime")) with false.
  change (str_eqb (lit "AI") (lit "lcm")) with false.
  change (str_eqb (lit "AI") (lit "hcf")) with false.
  change (str_eqb (lit "AI") (lit "AI")) with true.
  cbv iota. destruct (negb _); reflexivity.
Qed.

(** [part_000] does not check the question.  A payload that is not a
    string, and the empty string, are answered 503, not 400; every other
    string, of white space only or of any length, is sent to the provider
    as it is, and served when the provider answers. *)
Theorem variant_AI_payload_is_not_validated (cfg : config) (fuel : nat) :
  (forall q : value,
     (forall s : jsstring, q = VStr s -> s = []) ->
     Variant.post_bfhl StringToNumber ObjectToNumber cfg fuel
       (VObj [(lit "AI", q)])
     = Some (failure cfg 503 (lit "AI service unavailable")))
  /\ (forall (s : jsstring) (generate : jsstring -> generation)
        (t : jsstring),
        s <> [] ->
        genAI cfg = Some generate ->
        generate (s ++ Variant.prompt_suffix) = Responds (Some t) ->
        blank t = false ->
        exists w : jsstring,
          Variant.post_bfhl StringToNumber ObjectToNumber cfg fuel
            (VObj [(lit "AI", VStr s)])
          = Some (success cfg (VStr w))).
Proof.
  split.
  - intros q Hq. rewrite variant_post_bfhl_AI. f_equal.
    unfold Variant.getAIResponse.
    destruct (genAI cfg) as [generate |]; [| reflexivity].
    destruct q as [| | | | s | |]; try reflexivity.
    now rewrite (Hq s eq_refl).
  - intros s generate t Hs Hgen Hres Ht. rewrite variant_post_bfhl_AI.
    unfold Variant.getAIResponse. rewrite Hgen.
    destruct s as [| c s]; [congruence |].
    change (negb (truthy (VStr (c :: s)))) with false. cbv iota.
    rewrite Hres. cbn [first_word].
    destruct (not_blank_nonempty (trim t) (not_blank_trim t Ht)) as [_ ->].
    destruct (trim t) as [| d u] eqn:Htrim.
    + apply not_blank_trim in Ht. rewrite Htrim in Ht. discriminate.
    + exists (first_token (d :: u)).
      pose proof (trim_head t d u Htrim) as Hd.
      cbn [first_token] in *. rewrite Hd. reflexivity.
Qed.

End VariantQuestion.

Lemma variant_AI_payload_is_not_validated_witness :
  Variant.post_bfhl no_coercion_s no_coercion_o talkative_provider 0
    (VObj [(lit "AI", int_value 42)])
  = Some (failure talkative_provider 503 (lit "AI service unavailable"))
  /\ Variant.post_bfhl no_coercion_s no_coercion_o talkative_provider 0
       (VObj [(lit "AI", VStr (lit "   "))])
     = Some (success talkative_provider (VStr (lit "Mumbai"))).
Proof.
  split.
  - apply (proj1 (variant_AI_payload_is_not_validated no_coercion_s
                    no_coercion_o talkative_provider 0) (int_value 42)).
    intros s [=].
  - reflexivity.
Defined.

(** *** Requests that are answered, and requests that are not *)

Lemma case_fibonacci_total (cfg : config) (val : value) :
  exists (r : response) (f0 : nat), forall fuel : nat,
    (f0 <= fuel)%nat -> case_fibonacci cfg fuel val = Some r.
Proof.
  unfold case_fibonacci.
  destruct val as [| | ? | [n | | | |] | | |];
    try (eexists; exists O; intros; reflexivity).
  cbn [typeof_number Number_isInteger isInteger number_of negb orb gtb ltb].
  destruct (Z.ltb_spec n 0); [eexists; exists O; intros; reflexivity |].
  destruct (Z.ltb_spec 1000 n); [eexists; exists O; intros; reflexivity |].
  destruct (fibonacci_spec n) as (s & Hrun & _).
  { split; [lia |]. apply Z.le_lt_trans with 1000; [lia | reflexivity]. }
  exists (success cfg (VArr (map VNum s))), (Z.to_nat n).
  intros fuel Hfuel. now rewrite Hrun.
Qed.

Lemma case_prime_total (cfg : config) (arr : value) :
  (forall (elems : list value) (z : Z),
     arr = VArr elems -> In (int_value z) elems -> double_integer z) ->
  exists (r : response) (f0 : nat), forall fuel : nat,
    (f0 <= fuel)%nat -> case_prime cfg fuel arr = Some r.
Proof.
  intros Hdouble. unfold case_prime.
  destruct arr as [| | | | | elems |];
    try (eexists; exists O; intros; reflexivity).
  destruct (negb _); [eexists; exists O; intros; reflexivity |].
  destruct (_ <? _)%nat; [eexists; exists O; intros; reflexivity |].
  destruct (filterPrimes_Filtered elems) as (r & f0 & Hrun & _).
  { intros z Hz. now apply (Hdouble elems). }
  exists (success cfg (VArr r)), f0. intros fuel Hfuel. now rewrite Hrun.
Qed.

Lemma case_hcf_total (cfg : config) (arr : value) :
  exists (r : response) (f0 : nat), forall fuel : nat,
    (f0 <= fuel)%nat -> case_hcf cfg fuel arr = Some r.
Proof.
  unfold case_hcf.
  destruct arr as [| | | | | elems |];
    try (eexists; exists O; intros; reflexivity).
  destruct (negb _); [eexists; exists O; intros; reflexivity |].
  destruct (_ <? _)%nat; [eexists; exists O; intros; reflexivity |].
  destruct (hcfOfArray_any elems) as [f0 Hrun].
  eexists. exists f0. intros fuel Hfuel. now rewrite Hrun.
Qed.

Lemma normalize_key_literal (k : jsstring) :
  normalize_key k = lit "AI" \/ normalize_key k = k.
Proof. unfold normalize_key. destruct (str_eqb _ _); auto. Qed.

(** The handler of [index.js] answers every request whose key is not
    [lcm], whatever the body: the loops of [fibonacci], [isPrime] and
    [gcd] end on everything the validation lets through.  (The integers
    of a [prime] array are JSON numbers, hence doubles.) *)
Theorem every_request_but_lcm_is_answered (cfg : config) (body : value) :
  (forall (elems : list value) (z : Z),
     get_prop body (lit "prime") = VArr elems ->
     In (int_value z) elems -> double_integer z) ->
  provided_key body <> Some (lit "lcm") ->
  exists (r : response) (f0 : nat), forall fuel : nat,
    (f0 <= fuel)%nat -> post_bfhl cfg fuel body = Some r.
Proof.
  intros Hdouble Hkey. unfold post_bfhl.
  destruct (_ || _); [eexists; exists O; intros; reflexivity |].
  destruct (provided_key body) as [k |];
    [| eexists; exists O; intros; reflexivity].
  unfold dispatch.
  destruct (str_eqb (normalize_key k) (lit "fibonacci"));
    [apply case_fibonacci_total |].
  destruct (str_eqb (normalize_key k) (lit "prime")) eqn:E2.
  { apply str_eqb_eq in E2. rewrite E2. apply case_prime_total.
    intros elems z. apply Hdouble. }
  destruct (str_eqb (normalize_key k) (lit "lcm")) eqn:E3.
  { exfalso. apply str_eqb_eq in E3. apply Hkey. f_equal.
    destruct (normalize_key_literal k) as [E | E]; rewrite E in E3;
      [discriminate E3 | exact E3]. }
  destruct (str_eqb (normalize_key k) (lit "hcf")); [apply case_hcf_total |].
  destruct (str_eqb (normalize_key k) (lit "AI"));
    eexists; exists O; intros; reflexivity.
Qed.

Lemma every_request_but_lcm_is_answered_witness :
  exists (r : response) (f0 : nat), forall fuel : nat,
    (f0 <= fuel)%nat ->
    post_bfhl no_credential fuel
      (VObj [(lit "hcf", VArr [int_value 12; VStr (lit "x"); int_value 18])])
    = Some r.
Proof.
  apply (every_request_but_lcm_is_answered no_credential
           (VObj [(lit "hcf",
                   VArr [int_value 12; VStr (lit "x"); int_value 18])])).
  - intros elems z [=].
  - intros [=].
Defined.

Lemma gcd_on_NaN (fuel : nat) (a : number) : gcd fuel a NaN = None.
Proof. unfold gcd. apply gcd_loop_NaN. Qed.

(** [part_000] folds over the raw array, so a second element that the
    language coerces to NaN (a string that is not a numeric literal, an
    object) sends [gcd] into a loop that does not end: the [lcm] or [hcf]
    request is never answered, however large the step budget. *)
Theorem variant_never_answers_an_array_with_NaN
  (StringToNumber : jsstring -> number)
  (ObjectToNumber : value -> Variant.completion number)
  (cfg : config) (first x : value) (a : number) (rest : list value) :
  Variant.ToNumber StringToNumber ObjectToNumber first = Variant.Normal a ->
  Variant.ToNumber StringToNumber ObjectToNumber x = Variant.Normal NaN ->
  forall fuel : nat,
    Variant.post_bfhl StringToNumber ObjectToNumber cfg fuel
      (VObj [(lit "hcf", VArr (first :: x :: rest))]) = None
    /\ Variant.post_bfhl StringToNumber ObjectToNumber cfg fuel
         (VObj [(lit "lcm", VArr (first :: x :: rest))]) = None.
Proof.
  intros Ha Hx fuel.
  rewrite variant_post_bfhl_hcf, variant_post_bfhl_lcm.
  cbn [Variant.hcfOfArray Variant.lcmOfArray Variant.fold_try].
  unfold Variant.hcf_step at 1, Variant.lcm_step at 1.
  rewrite Ha, Hx. cbn [Variant.and_then]. rewrite gcd_on_NaN.
  split; reflexivity.
Qed.

Lemma variant_never_answers_an_array_with_NaN_witness :
  Variant.post_bfhl no_coercion_s no_coercion_o no_credential 1000
    (VObj [(lit "hcf", VArr [int_value 12; VStr (lit "x"); int_value 18])])
  = None
  /\ Variant.post_bfhl no_coercion_s no_coercion_o no_credential 1000
       (VObj [(lit "lcm", VArr [int_value 12; VStr (lit "x"); int_value 18])])
     = None.
Proof.
  exact (variant_never_answers_an_array_with_NaN no_coercion_s no_coercion_o
           no_credential (int_value 12) (VStr (lit "x")) (Int 12)
           [int_value 18] eq_refl eq_refl 1000%nat).
Defined.
